(** * CustomScraper: the worker-orchestration substrate

  A shallow embedding of the Reddit scraping fabric
  (scraping/reddit/{session_pool,rate_limiter,job_queue,
  worker_checkpoint_store,worker_orchestrator}.py and
  scripts/account_pool_manager.py) together with the properties the
  specification states about it.

  Conventions of the embedding:
    - SQLite REAL columns and [time.time()] readings are rationals ([Q]);
    INTEGER columns are [Z]; TEXT columns are [string]; a nullable
    column is an [option].
    - A table with a PRIMARY KEY is a [gmap] from the key to the row.
    - A function that reads the clock once takes the reading as an
    argument ([now]); [acquire] of the limiter takes the readings of
    each of its rounds, and what other callers do in between, from its
    environment; the worker carries a clock in its state. Every random
    draw is an argument as well, and so is what code outside these
    sources does (the scrape, the configuration classes, awaiting a
    cancelled task).
    - A Python exception is the [None] / [inl] branch of the result;
    [sqlite3.OperationalError] and [KeyError] have their own types. *)

From Stdlib Require Import ZArith QArith Qminmax Qround Lqa Bool Ascii String List.
From stdpp Require Import base option gmap strings list fin_maps.

Local Open Scope string_scope.

(** ** Python strings: [str.lower], [in], [str.startswith] *)

Module PyStr.

(** [c.lower()] on the ASCII range. *)
Definition lower_ascii (c : ascii) : ascii :=
  let n := nat_of_ascii c in
  if (65 <=? n)%nat && (n <=? 90)%nat then ascii_of_nat (n + 32) else c.

Fixpoint lower (s : string) : string :=
  match s with
  | EmptyString => EmptyString
  | String c s' => String (lower_ascii c) (lower s')
  end.

(** [s.startswith(p)] *)
Fixpoint startswith (s p : string) {struct p} : bool :=
  match p with
  | EmptyString => true
  | String a p' =>
      match s with
      | EmptyString => false
      | String b s' => Ascii.eqb a b && startswith s' p'
      end
  end.

(** [p in s]: [p] occurs in [s] as a contiguous substring. *)
Fixpoint contains (p s : string) : bool :=
  startswith s p ||
  match s with
  | EmptyString => false
  | String _ s' => contains p s'
  end.

End PyStr.

(** ** Error classification

  [worker_orchestrator._looks_rate_limited], [_looks_auth_ban] and the
  [except] branch of [account_pool_manager._health_probe]. *)

Inductive ErrClass := RateLimit | Auth | Network.

#[global] Instance ErrClass_eq_dec : EqDecision ErrClass.
Proof. solve_decision. Defined.

Module Orchestrator_classify.
Import PyStr.

Definition _looks_rate_limited (msg : string) : bool :=
  let s := lower msg in
  contains "too many requests" s || contains "ratelimit" s || contains "429" s.

Definition _looks_auth_ban (msg : string) : bool :=
  let s := lower msg in
  contains "unauthorized" s || contains "forbidden" s || contains "403" s
  || contains "401" s || contains "invalid_grant" s.

(** The [if / elif / else] of the worker's error handler. *)
Definition worker_classify (msg : string) : ErrClass :=
  if _looks_rate_limited msg then RateLimit
  else if _looks_auth_ban msg then Auth
  else Network.

End Orchestrator_classify.

Module Manager_classify.
Import PyStr.

(** The outcome of the remote call: [None] when the probe went through,
    [Some msg] when it raised an exception whose [str(e)] is [msg]. *)
Definition _health_probe (outcome : option string) : bool * string :=
  match outcome with
  | None => (true, "ok")
  | Some msg =>
      if contains "Too Many Requests" msg || contains "RATELIMIT" msg
         || contains "429" msg
      then (false, "rate-limit")
      else if contains "401" msg || contains "403" msg
              || contains "invalid_grant" msg || contains "Forbidden" msg
              || contains "Unauthorized" msg
      then (false, "auth")
      else (false, "network")
  end.

(** The class behind the reason string, as [_check_one] dispatches on it:
    ["rate-limit"], ["auth"], anything else. *)
Definition reason_class (reason : string) : ErrClass :=
  if String.eqb reason "rate-limit" then RateLimit
  else if String.eqb reason "auth" then Auth
  else Network.

Definition probe_classify (msg : string) : ErrClass :=
  reason_class (snd (_health_probe (Some msg))).

End Manager_classify.

(** The classification as the specification words it: the two regular
  expressions, case-insensitive, rate-limit first. *)
Module Spec_classify.
Import PyStr.

Definition matches_rate (msg : string) : bool :=
  let s := lower msg in
  contains "too many requests" s || contains "ratelimit" s || contains "429" s.

Definition matches_auth (msg : string) : bool :=
  let s := lower msg in
  contains "unauthorized" s || contains "forbidden" s || contains "401" s
  || contains "403" s || contains "invalid_grant" s.

Definition spec_classify (msg : string) : ErrClass :=
  if matches_rate msg then RateLimit
  else if matches_auth msg then Auth
  else Network.

End Spec_classify.

(** ** The account pool (scraping/reddit/session_pool.py)

  Table [accounts(account_id TEXT PRIMARY KEY, client_id, client_secret,
  username, password, status TEXT NOT NULL DEFAULT 'ready',
  cooldown_until REAL DEFAULT 0, fail_count INTEGER NOT NULL DEFAULT 0,
  last_error TEXT, proxy_id TEXT)]. The code only ever writes the three
  status texts 'ready', 'leased' and 'quarantine'. *)

Module Pool.

Inductive Status := Ready | Leased | Quarantine.

#[global] Instance Status_eq_dec : EqDecision Status.
Proof. solve_decision. Defined.

Record AccountCredential := mkCred {
  client_id : string;
  client_secret : string;
  username : string;
  password : string
}.

Record Account := mkAccount {
  cred : AccountCredential;
  status : Status;
  cooldown_until : option Q;     (* REAL, nullable *)
  fail_count : Z;                (* INTEGER NOT NULL *)
  last_error : option string;    (* TEXT, nullable *)
  proxy_id : option string       (* TEXT, nullable *)
}.

(** The accounts table, keyed by [account_id]. *)
Abbreviation Accounts := (gmap string Account).

(** A lease; the remote client and the rotated proxy it carries are
    external collaborators and play no part in the row transitions. *)
Record AccountLease := mkLease {
  account : AccountCredential;
  account_id : string;
  acquired_at : Q
}.

(** [INSERT OR REPLACE INTO accounts ... VALUES(?, ?, ?, ?, ?,
     COALESCE((SELECT status ...), 'ready'),
     COALESCE((SELECT cooldown_until ...), 0),
     COALESCE((SELECT fail_count ...), 0),
     COALESCE((SELECT last_error ...), NULL),
     COALESCE((SELECT proxy_id ...), NULL))]:
    the sub-selects read the row that is being replaced. *)
Definition add_account (id : string) (c : AccountCredential) (db : Accounts) : Accounts :=
  let old := db !! id in
  <[id := {| cred := c;
             status := default Ready (status <$> old);
             cooldown_until := Some (default 0%Q (old ≫= cooldown_until));
             fail_count := default 0%Z (fail_count <$> old);
             last_error := old ≫= last_error;
             proxy_id := old ≫= proxy_id |}]> db.

(** [WHERE status='ready' AND cooldown_until <= ?]; a NULL
    [cooldown_until] makes the comparison NULL, which does not select. *)
Definition eligible (now : Q) (r : Account) : bool :=
  bool_decide (status r = Ready) &&
  match cooldown_until r with
  | Some c => Qle_bool c now
  | None => false
  end.

(** [ORDER BY fail_count ASC LIMIT 1] over the eligible rows; which of
    several rows with the least [fail_count] comes first is left to the
    store, here to the order of [map_to_list]. *)
Definition pick_least (kv : string * Account) (best : option (string * Account))
  : option (string * Account) :=
  match best with
  | Some b => if (fail_count (snd kv) <=? fail_count (snd b))%Z then Some kv else best
  | None => Some kv
  end.

Definition select_ready (now : Q) (db : Accounts) : option (string * Account) :=
  foldr (fun kv best => if eligible now (snd kv) then pick_least kv best else best)
        None (map_to_list db).

Definition set_leased (r : Account) : Account :=
  {| cred := cred r; status := Leased; cooldown_until := cooldown_until r;
     fail_count := fail_count r; last_error := last_error r; proxy_id := proxy_id r |}.

(** [UPDATE accounts SET status='leased' WHERE account_id=?] *)
Definition mark_leased (id : string) (db : Accounts) : Accounts :=
  alter set_leased id db.

(** The closure [_select_and_mark] of [acquire]: the selected row's
    [(account_id, credential)], and the table after the flip. *)
Definition _select_and_mark (now : Q) (db : Accounts)
  : option (string * AccountCredential) * Accounts :=
  match select_ready now db with
  | None => (None, db)
  | Some (id, r) => (Some (id, cred r), mark_leased id db)
  end.

(** [acquire]: [now] is read once, before the first attempt, and the
    second attempt (after [asyncio.sleep(1.0)]) reuses it. [during_sleep]
    is what the other tasks and processes do to the table during that
    sleep. The lease records the clock at its creation. The result also
    carries the clock at return; [inl] is the [RuntimeError] of the
    second miss. *)
Definition acquire (now : Q) (during_sleep : Accounts -> Accounts) (db : Accounts)
  : (string + AccountLease) * Accounts * Q :=
  let mk row db' t :=
    (inr {| account := snd row; account_id := fst row; acquired_at := t |}, db', t) in
  match _select_and_mark now db with
  | (Some row, db1) => mk row db1 now
  | (None, db1) =>
      let later := (now + 1)%Q in
      match _select_and_mark now (during_sleep db1) with
      | (Some row, db2) => mk row db2 later
      | (None, db2) => (inl "No ready Reddit accounts available for leasing", db2, later)
      end
  end.

Definition release_row (cooldown_seconds : Z) (success : bool) (now : Q) (r : Account) : Account :=
  if success then
    {| cred := cred r; status := Ready;
       cooldown_until := Some (now + inject_Z (Z.max 0 (cooldown_seconds / 4)))%Q;
       fail_count := Z.max (fail_count r - 1) 0;
       last_error := last_error r; proxy_id := proxy_id r |}
  else
    {| cred := cred r; status := Ready;
       cooldown_until := Some (now + inject_Z cooldown_seconds)%Q;
       fail_count := fail_count r + 1;
       last_error := last_error r; proxy_id := proxy_id r |}.

(** [AccountPool.release]: one of the two
    [UPDATE accounts SET status='ready', cooldown_until=?, fail_count=...
     WHERE account_id=?]. [cooldown_seconds] is the pool's constructor
    argument (default 60). *)
Definition release (cooldown_seconds : Z) (lease : AccountLease) (success : bool)
    (now : Q) (db : Accounts) : Accounts :=
  alter (release_row cooldown_seconds success now) (account_id lease) db.

Definition cooldown_row (until : Q) (reason : option string) (r : Account) : Account :=
  {| cred := cred r; status := Ready; cooldown_until := Some until;
     fail_count := fail_count r; last_error := reason; proxy_id := proxy_id r |}.

(** [AccountPool.cooldown]:
    [UPDATE accounts SET status='ready', cooldown_until=?, last_error=?
     WHERE account_id=?] with [until = time.time() + seconds]. *)
Definition cooldown (lease : AccountLease) (seconds : Z) (reason : option string)
    (now : Q) (db : Accounts) : Accounts :=
  alter (cooldown_row (now + inject_Z seconds)%Q reason) (account_id lease) db.

Definition quarantine_row (reason : string) (r : Account) : Account :=
  {| cred := cred r; status := Quarantine; cooldown_until := cooldown_until r;
     fail_count := fail_count r; last_error := Some reason; proxy_id := proxy_id r |}.

(** [AccountPool.quarantine]:
    [UPDATE accounts SET status='quarantine', last_error=? WHERE account_id=?] *)
Definition quarantine (lease : AccountLease) (reason : string) (db : Accounts) : Accounts :=
  alter (quarantine_row reason) (account_id lease) db.

(** [AccountLease.release]: [pool.release] and then the close of the
    remote client, which touches no row. *)
Definition lease_release (cooldown_seconds : Z) (lease : AccountLease) (success : bool)
    (now : Q) (db : Accounts) : Accounts :=
  release cooldown_seconds lease success now db.

(** [SELECT status, COUNT( * ) FROM accounts GROUP BY status] as the dict
    [{status: count}]: a status with no row has no key. *)
Definition count_status (s : Status) (db : Accounts) : nat :=
  length (filter (fun kv => status (snd kv) = s) (map_to_list db)).

Definition health_report (db : Accounts) : Status -> option nat :=
  fun s => let n := count_status s db in if (n =? 0)%nat then None else Some n.

End Pool.

(** ** The health manager (scripts/account_pool_manager.py) *)

Module Manager.
Import Pool.

Record Config := mkConfig {
  COOLDOWN_BAD : Z;       (* ACCOUNT_MANAGER_COOLDOWN_BAD, default 60 *)
  COOLDOWN_RATE : Z;      (* ACCOUNT_MANAGER_COOLDOWN_RATE, default 120 *)
  QUARANTINE_FAILS : Z    (* ACCOUNT_MANAGER_QUARANTINE_FAILS, default 5 *)
}.

Definition default_config : Config :=
  {| COOLDOWN_BAD := 60; COOLDOWN_RATE := 120; QUARANTINE_FAILS := 5 |}.

(** [SELECT ... FROM accounts WHERE status IN ('ready','leased','quarantine')]:
    every row, with its key. *)
Definition _fetch_accounts (db : Accounts) : list (string * Account) :=
  map_to_list db.

Definition success_row (now : Q) (r : Account) : Account :=
  {| cred := cred r; status := Ready;
     (* MAX(0, MIN(cooldown_until, ?)): NULL when cooldown_until is NULL *)
     cooldown_until := (fun c => Qmax 0 (Qmin c now)) <$> cooldown_until r;
     fail_count := if (fail_count r >? 0)%Z then fail_count r - 1 else 0;
     last_error := None; proxy_id := proxy_id r |}.

(** [_update_on_success]: [UPDATE accounts SET status='ready',
    cooldown_until=MAX(0, MIN(cooldown_until, ?)),
    fail_count=CASE WHEN fail_count > 0 THEN fail_count - 1 ELSE 0 END,
    last_error=NULL WHERE account_id=?] *)
Definition _update_on_success (now : Q) (id : string) (db : Accounts) : Accounts :=
  alter (success_row now) id db.

Definition cooldown_row (until : Q) (reason : string) (r : Account) : Account :=
  {| cred := cred r; status := Ready; cooldown_until := Some until;
     fail_count := fail_count r + 1; last_error := Some reason;
     proxy_id := proxy_id r |}.

(** [_cooldown]: [until = time.time() + max(1, seconds)], then
    [UPDATE accounts SET status='ready', cooldown_until=?,
     fail_count=fail_count+1, last_error=? WHERE account_id=?] *)
Definition _cooldown (now : Q) (id : string) (seconds : Z) (reason : string)
    (db : Accounts) : Accounts :=
  alter (cooldown_row (now + inject_Z (Z.max 1 seconds))%Q reason) id db.

(** [_quarantine]: [UPDATE accounts SET status='quarantine', last_error=?
    WHERE account_id=?] *)
Definition _quarantine (id : string) (reason : string) (db : Accounts) : Accounts :=
  alter (quarantine_row reason) id db.

(** [float(r["cooldown_until"] or 0)] *)
Definition cooldown_or_0 (r : Account) : Q := default 0%Q (cooldown_until r).

(** The filter of [to_check]: ready and not cooling, read off the snapshot. *)
Definition to_check_row (now : Q) (r : Account) : bool :=
  bool_decide (status r = Ready) && Qle_bool (cooldown_or_0 r) now.

Definition to_check (now : Q) (rows : list (string * Account)) : list (string * Account) :=
  List.filter (fun kv => to_check_row now (snd kv)) rows.

(** [_classify_counts]: (ready, leased, quarantine, cooling). *)
Definition _classify_counts (now : Q) (rows : list (string * Account)) : nat * nat * nat * nat :=
  fold_left
    (fun '(ready, leased, quarantine, cooling) kv =>
       match status (snd kv) with
       | Ready =>
           if Qle_bool (cooldown_or_0 (snd kv)) now
           then (S ready, leased, quarantine, cooling)
           else (ready, leased, quarantine, S cooling)
       | Leased => (ready, S leased, quarantine, cooling)
       | Quarantine => (ready, leased, S quarantine, cooling)
       end)
    rows (0, 0, 0, 0)%nat.

(** [_check_one]: [snap] is the row of the snapshot taken at the start of
    the cycle, [outcome] what the probe met, [now] the clock when the
    write is issued, [db] the table at that moment. *)
Definition _check_one (cfg : Config) (snap : string * Account) (outcome : option string)
    (now : Q) (db : Accounts) : Accounts :=
  let '(ok, reason) := Manager_classify._health_probe outcome in
  let id := fst snap in
  if ok then _update_on_success now id db
  else
    let fails := (fail_count (snd snap) + 1)%Z in
    if String.eqb reason "rate-limit" then _cooldown now id (COOLDOWN_RATE cfg) "rate-limit" db
    else if String.eqb reason "auth" then _quarantine id "auth" db
    else if (fails >=? QUARANTINE_FAILS cfg)%Z then _quarantine id "repeated-failures" db
    else _cooldown now id (COOLDOWN_BAD cfg) "network" db.

End Manager.

(** ** The accounts database file and the worker-checkpoint store
    (session_pool.py, worker_checkpoint_store.py)

  A database file holds the tables that some [CREATE TABLE] made; a
  statement on a table that was never created raises
  [sqlite3.OperationalError]. *)

Module Store.
Import Pool.

Record ProxyConfig := mkProxy {
  http : option string; https : option string;
  tag : option string; provider : option string
}.

Record WorkerCheckpoint := mkCheckpoint {
  ck_account_id : option string;
  last_subreddit : option string;
  last_post_id : option string;
  last_comment_id : option string;
  updated_at : Q
}.

Record AccountsDb := mkDb {
  tbl_accounts : option (gmap string Account);
  tbl_proxies : option (gmap string ProxyConfig);
  tbl_checkpoints : option (gmap string WorkerCheckpoint)
}.

(** A database file that does not exist yet. *)
Definition fresh_db : AccountsDb :=
  {| tbl_accounts := None; tbl_proxies := None; tbl_checkpoints := None |}.

(** [AccountPool._init_schema]: [CREATE TABLE IF NOT EXISTS accounts],
    [CREATE TABLE IF NOT EXISTS proxies], and nothing else. *)
Definition _init_schema (db : AccountsDb) : AccountsDb :=
  {| tbl_accounts := Some (default ∅ (tbl_accounts db));
     tbl_proxies := Some (default ∅ (tbl_proxies db));
     tbl_checkpoints := tbl_checkpoints db |}.

Inductive SqlError := NoSuchTable (name : string).

(** [WorkerCheckpointStore.upsert]: [INSERT INTO checkpoints(...) VALUES(...)
    ON CONFLICT(worker_id) DO UPDATE SET ...] replaces every column of the
    row; [updated_at] defaults to the clock. *)
Definition upsert (worker_id : string) (acct sub post comment : option string)
    (updated : option Q) (now : Q) (db : AccountsDb) : SqlError + AccountsDb :=
  let ts := default now updated in
  match tbl_checkpoints db with
  | None => inl (NoSuchTable "checkpoints")
  | Some t =>
      inr {| tbl_accounts := tbl_accounts db; tbl_proxies := tbl_proxies db;
             tbl_checkpoints :=
               Some (<[worker_id := {| ck_account_id := acct; last_subreddit := sub;
                                       last_post_id := post; last_comment_id := comment;
                                       updated_at := ts |}]> t) |}
  end.

(** [WorkerCheckpointStore.get] *)
Definition get (worker_id : string) (db : AccountsDb) : SqlError + option WorkerCheckpoint :=
  match tbl_checkpoints db with
  | None => inl (NoSuchTable "checkpoints")
  | Some t => inr (t !! worker_id)
  end.

End Store.

(** ** The token-bucket rate limiter (scraping/reddit/rate_limiter.py)

  Table [buckets(bucket TEXT PRIMARY KEY, capacity REAL, tokens REAL,
  refill_rate REAL, updated_at REAL)], all NOT NULL. *)

Module Limiter.

Record Bucket := mkBucket {
  capacity : Q;
  tokens : Q;
  refill_rate : Q;
  updated_at : Q
}.

Abbreviation Buckets := (gmap string Bucket).

(** [ensure_bucket]: insert a full bucket when the row is absent. *)
Definition ensure_bucket (name : string) (cap refill : Q) (now : Q) (db : Buckets) : Buckets :=
  match db !! name with
  | Some _ => db
  | None => <[name := {| capacity := cap; tokens := cap;
                         refill_rate := refill; updated_at := now |}]> db
  end.

(** The row [_op] works on: the stored one, or the default
    [(5.0, 5.0, 5.0, now)] that it inserts when the bucket is missing. *)
Definition default_bucket (now : Q) : Bucket :=
  {| capacity := 5; tokens := 5; refill_rate := 5; updated_at := now |}.

Definition read_or_default (name : string) (now : Q) (db : Buckets) : Bucket * Buckets :=
  match db !! name with
  | Some r => (r, db)
  | None => (default_bucket now, <[name := default_bucket now]> db)
  end.

(** [elapsed = max(0.0, now - updated_at)];
    [current = min(capacity, current + refill * elapsed)].
    The REAL columns are exact rationals here; what is proved of them
    below are order facts (bounds, monotonicity, the cap at the
    capacity), which rounding keeps. *)
Definition refilled (now : Q) (r : Bucket) : Q :=
  let elapsed := Qmax 0 (now - updated_at r) in
  Qmin (capacity r) (tokens r + refill_rate r * elapsed).

(** [UPDATE buckets SET tokens=?, updated_at=? WHERE bucket=?] *)
Definition set_tokens (current now : Q) (r : Bucket) : Bucket :=
  {| capacity := capacity r; tokens := current;
     refill_rate := refill_rate r; updated_at := now |}.

(** [_try_acquire_once] (the closure [_op]). *)
Definition _try_acquire_once (name : string) (req : Q) (now : Q) (db : Buckets)
  : bool * Buckets :=
  let '(r, db1) := read_or_default name now db in
  let current := refilled now r in
  if Qle_bool req current
  then (true, alter (set_tokens (current - req) now) name db1)
  else (false, alter (set_tokens current now) name db1).

(** The statements that callers of the limiter run on the store:
    [ensure_bucket] and the single attempt of [acquire]. *)
Inductive Op :=
| Ensure (name : string) (cap refill now : Q)
| TryAcquire (name : string) (req now : Q).

Definition apply_op (db : Buckets) (o : Op) : Buckets :=
  match o with
  | Ensure name cap refill now => ensure_bucket name cap refill now db
  | TryAcquire name req now => snd (_try_acquire_once name req now db)
  end.

(** What one round of the loop of [acquire] meets from outside: the
    statements that other tasks and processes have run on the store
    since this call last touched it, the clock as [_try_acquire_once]
    reads it once it holds the lock ([now = time.time()]), and the
    clock as the deadline test reads it after a refused attempt
    ([time.time() >= deadline]). Nothing is assumed about the readings:
    waiting for the lock, the store access and the sleep take the time
    they take. *)
Record Round := mkRound {
  others : list Op;
  t_attempt : Q;
  t_check : Q
}.

(** What [acquire] does, in order: an attempt at its clock reading, or
    a sleep of [asyncio.sleep(0.1)] started after the check that read
    [at_time]. *)
Inductive Event :=
| Attempt (at_time : Q) (acquired : bool)
| Sleep (at_time : Q).

(** What a call returns, the store it leaves and what it did, most
    recent first. *)
Record Returned := mkReturned {
  acquired : bool;
  buckets : Buckets;
  trace : list Event
}.

(** [await self._try_acquire_once(name, tokens)] of one round. *)
Definition attempt (name : string) (req : Q) (rd : Round) (db : Buckets) : bool * Buckets :=
  _try_acquire_once name req (t_attempt rd) (fold_left apply_op (others rd) db).

(** [deadline is not None and time.time() >= deadline] *)
Definition timed_out (deadline : option Q) (now : Q) : bool :=
  match deadline with
  | Some d => Qle_bool d now
  | None => false
  end.

(** The [while True] of [acquire], one round of the environment per
    pass; [None] when the rounds run out before the call returns. *)
Fixpoint acquire_loop (name : string) (req : Q) (deadline : option Q)
    (rounds : list Round) (db : Buckets) (tr : list Event) : option Returned :=
  match rounds with
  | [] => None
  | rd :: rest =>
      let '(ok, db') := attempt name req rd db in
      let tr1 := Attempt (t_attempt rd) ok :: tr in
      if ok then Some {| acquired := true; buckets := db'; trace := tr1 |}
      else if timed_out deadline (t_check rd)
      then Some {| acquired := false; buckets := db'; trace := tr1 |}
      else acquire_loop name req deadline rest db' (Sleep (t_check rd) :: tr1)
  end.

(** [acquire(name, tokens, timeout)]:
    [deadline = None if timeout is None else time.time() + timeout],
    with [t0] the clock as that line reads it. *)
Definition acquire (name : string) (req : Q) (timeout : option Q) (t0 : Q)
    (rounds : list Round) (db : Buckets) : option Returned :=
  acquire_loop name req ((fun t => t0 + t)%Q <$> timeout) rounds db [].



End Limiter.

(** ** The JSON job queue (scraping/reddit/job_queue.py) *)

Module JobQueue.

(** A job as it sits in the file; [job.get("attempts", 0)] allows the
    key to be missing. The payload is opaque. *)
Record JobDict := mkJob {
  id : string;
  weight : Q;
  payload : string;
  attempts : option Z;
  enqueued_at : option Q
}.

(** The parsed file: the two top-level keys, either of which may be
    missing from a file written by someone else. *)
Record Data := mkData {
  queue : option (list JobDict);
  inflight : option (gmap string JobDict)
}.

(** The file on disk: what it holds and how many times it was written. *)
Record File := mkFile {
  content : Data;
  writes : nat
}.

Inductive PyError := KeyError (key : string).

Definition _load (f : File) : Data := content f.

Definition _save (d : Data) (f : File) : File :=
  {| content := d; writes := S (writes f) |}.

(** [_ensure_file] on a path with no file. *)
Definition initial_file : File :=
  {| content := {| queue := Some []; inflight := Some ∅ |}; writes := 1 |}.

(** [data.get("inflight", {})] *)
Definition inflight_or_empty (d : Data) : gmap string JobDict :=
  default ∅ (inflight d).

(** [enqueue] (the job's [to_dict()], stamped with the clock). *)
Definition enqueue (j : JobDict) (now : Q) (f : File) : PyError + File :=
  let d := _load f in
  match queue d with
  | None => inl (KeyError "queue")
  | Some q =>
      let j' := {| id := id j; weight := weight j; payload := payload j;
                   attempts := attempts j; enqueued_at := Some now |} in
      inr (_save {| queue := Some (q ++ [j'])%list; inflight := inflight d |} f)
  end.

(** [ack] *)
Definition ack (job_id : string) (f : File) : (PyError + bool) * File :=
  let d := _load f in
  match inflight_or_empty d !! job_id with
  | Some _ =>
      (* [del data["inflight"][job_id]]: the key is there, so
         [data["inflight"]] is *)
      (inr true, _save {| queue := queue d;
                          inflight := Some (delete job_id (inflight_or_empty d)) |} f)
  | None => (inr false, f)
  end.

(** [nack] *)
Definition nack (job_id : string) (requeue : bool) (backoff_seconds : Z) (now : Q)
    (f : File) : (PyError + bool) * File :=
  let d := _load f in
  let infl := inflight_or_empty d in
  match infl !! job_id with
  | None => (inr false, f)
  | Some job =>
      let infl' := delete job_id infl in
      if requeue then
        let job' := {| id := id job; weight := weight job; payload := payload job;
                       attempts := Some (default 0%Z (attempts job) + 1)%Z;
                       enqueued_at := Some (now + inject_Z (Z.max 0 backoff_seconds))%Q |} in
        match queue d with
        | None => (inl (KeyError "queue"), f)
        | Some q => (inr true, _save {| queue := Some (q ++ [job'])%list; inflight := Some infl' |} f)
        end
      else (inr true, _save {| queue := queue d; inflight := Some infl' |} f)
  end.

(** [size] *)
Definition size (f : File) : nat * nat :=
  let d := _load f in
  (length (default [] (queue d)), base.size (inflight_or_empty d)).

End JobQueue.

(** ** Scrape options and the planner (scraping/reddit/options.py,
    scraping/reddit/planner.py) *)

Module Planner.

Inductive ListingType := L_NEW | L_HOT | L_TOP | L_RISING | L_CONTROVERSIAL | L_SEARCH.
Inductive TimeFilter := HOUR | DAY | WEEK | MONTH | YEAR | ALL.
Inductive SortMode := RELEVANCE | S_HOT | S_TOP | S_NEW | COMMENTS.
Inductive CommentHarvestMode := POST_ONLY | TOP_LEVEL_ONLY | ALL_COMMENTS.

#[global] Instance ListingType_eq_dec : EqDecision ListingType.
Proof. solve_decision. Defined.

(** The fields of [RedditScrapeOptions] that the validators and the
    planner read. *)
Record RedditScrapeOptions := mkOptions {
  listing_types : list ListingType;
  time_filters : option (list TimeFilter);
  search_queries : option (list string);
  search_sort : option SortMode;
  user_timelines : option (list string);
  pagination_target : option Z;
  per_listing_limit : Z
}.

(** The defaults of the model: [[NEW, HOT, TOP]], no filters, no
    queries, [search_sort = NEW], limit 100. *)
Definition default_options : RedditScrapeOptions :=
  {| listing_types := [L_NEW; L_HOT; L_TOP]; time_filters := None;
     search_queries := None; search_sort := Some S_NEW;
     user_timelines := None; pagination_target := None;
     per_listing_limit := 100 |}.

(** [x or []] on an optional list: [None] and [[]] are both falsy. *)
Definition or_empty {A} (x : option (list A)) : list A := default [] x.

Definition has_search (ls : list ListingType) : bool :=
  bool_decide (L_SEARCH ∈ ls).

(** The four validators; each gives the message of its [ValueError]. *)
Definition _positive_limit (o : RedditScrapeOptions) : option string :=
  if (per_listing_limit o <=? 0)%Z then Some "per_listing_limit must be positive" else None.

Definition _non_negative_target (o : RedditScrapeOptions) : option string :=
  match pagination_target o with
  | Some v => if (v <=? 0)%Z then Some "pagination_target must be positive if provided"
              else None
  | None => None
  end.

Definition _non_empty_listing_types (o : RedditScrapeOptions) : option string :=
  match listing_types o with
  | [] => Some "listing_types cannot be empty"
  | _ :: _ => None
  end.

Definition _search_requires_queries (o : RedditScrapeOptions) : option string :=
  if has_search (listing_types o) && bool_decide (or_empty (search_queries o) = [])
  then Some "SEARCH listing requires non-empty search_queries"
  else None.

(** Construction of the model: the errors the validators raise, in field
    order; the object exists when there is none. *)
Definition validation_errors (o : RedditScrapeOptions) : list string :=
  omap (fun v => v o)
    [_non_empty_listing_types; _search_requires_queries;
     _non_negative_target; _positive_limit].

Definition valid (o : RedditScrapeOptions) : bool :=
  bool_decide (validation_errors o = []).

Inductive Surface := Submissions | Comments.

Inductive Target :=
| SubmissionsTarget (subreddit : string) (listing : ListingType)
    (time_filter : option TimeFilter) (sort : option SortMode) (limit : Z)
| SearchTarget (subreddit : string) (query : string) (sort : SortMode)
    (time_filter : option TimeFilter) (limit : Z)
| UserTimelineTarget (username : string) (surface : Surface) (sort : SortMode) (limit : Z)
| CommentsTarget (submission_id : string) (harvest_mode : CommentHarvestMode)
    (depth_limit : option Z).

(** [options.time_filters or [None]] *)
Definition tfs_or_none (o : RedditScrapeOptions) : list (option TimeFilter) :=
  match or_empty (time_filters o) with
  | [] => [None]
  | tfs => List.map Some tfs
  end.

(** The targets of one listing of the first loop. *)
Definition listing_targets (subreddit : string) (o : RedditScrapeOptions)
    (listing : ListingType) : list Target :=
  match listing with
  | L_SEARCH => []
  | L_TOP | L_CONTROVERSIAL =>
      List.map (fun tf => SubmissionsTarget subreddit listing tf None (per_listing_limit o))
               (tfs_or_none o)
  | _ => [SubmissionsTarget subreddit listing None None (per_listing_limit o)]
  end.

Definition search_targets (subreddit : string) (o : RedditScrapeOptions) : list Target :=
  match or_empty (search_queries o) with
  | [] => []
  | qs =>
      if has_search (listing_types o) then
        flat_map (fun q =>
                    List.map (fun tf => SearchTarget subreddit q
                                          (default S_NEW (search_sort o)) tf
                                          (per_listing_limit o))
                             (tfs_or_none o))
                 qs
      else []
  end.

Definition timeline_targets (o : RedditScrapeOptions) : list Target :=
  flat_map (fun username =>
              [UserTimelineTarget username Submissions S_NEW (per_listing_limit o);
               UserTimelineTarget username Comments S_NEW (per_listing_limit o)])
           (or_empty (user_timelines o)).

(** [build_plan(...).computed_targets], which [expand_to_targets] copies. *)
Definition build_plan (subreddit : string) (o : RedditScrapeOptions) : list Target :=
  (flat_map (listing_targets subreddit o) (listing_types o)
   ++ search_targets subreddit o ++ timeline_targets o)%list.

Definition expand_to_targets (computed_targets : list Target) : list Target :=
  computed_targets.

Definition target_limit (t : Target) : option Z :=
  match t with
  | SubmissionsTarget _ _ _ _ l => Some l
  | SearchTarget _ _ _ _ l => Some l
  | UserTimelineTarget _ _ _ l => Some l
  | CommentsTarget _ _ _ => None
  end.

(** [listing in (ListingType.TOP, ListingType.CONTROVERSIAL)] *)
Definition takes_time_filter (l : ListingType) : bool :=
  match l with L_TOP | L_CONTROVERSIAL => true | _ => false end.

(** How many targets the first loop appends for one listing. *)
Definition listing_count (o : RedditScrapeOptions) (l : ListingType) : nat :=
  match l with
  | L_SEARCH => 0
  | L_TOP | L_CONTROVERSIAL => Nat.max 1 (length (or_empty (time_filters o)))
  | _ => 1
  end.

End Planner.

(** ** The orchestrator (scraping/reddit/worker_orchestrator.py) *)

Module Orchestrator.
Import Pool.

Record Config := mkConfig {
  POLL_SECONDS : Z;          (* ORCH_POLL_SECONDS, default 60 *)
  IDLE_SLEEP : Z;            (* ORCH_IDLE_SLEEP, default 300 *)
  JOB_COOLDOWN_MIN : Z;      (* ORCH_JOB_COOLDOWN_MIN, default 1200 *)
  JOB_COOLDOWN_MAX : Z;      (* ORCH_JOB_COOLDOWN_MAX, default 1800 *)
  ENTITY_LIMIT : Z;          (* ORCH_ENTITY_LIMIT, default 200 *)
  pool_cooldown_seconds : Z  (* AccountPool(cooldown_seconds=60) *)
}.

Definition default_config : Config :=
  {| POLL_SECONDS := 60; IDLE_SLEEP := 300; JOB_COOLDOWN_MIN := 1200;
     JOB_COOLDOWN_MAX := 1800; ENTITY_LIMIT := 200; pool_cooldown_seconds := 60 |}.

(** *** Files *)

(** A [pathlib.Path], split the way [with_suffix] looks at it. *)
Record Path := mkPath {
  parent : string;
  stem : string;
  suffix : string
}.

#[global] Instance Path_eq_dec : EqDecision Path.
Proof. solve_decision. Defined.

Definition with_suffix (p : Path) (s : string) : Path :=
  {| parent := parent p; stem := stem p; suffix := s |}.

(** The per-job runtime entry [{last_run_ts, next_eligible_ts}]; a key
    that is not in the dict is [None]. *)
Record JobRt := mkJobRt {
  last_run_ts : option Q;
  next_eligible_ts : option Q
}.

Abbreviation JobState := (gmap string JobRt).

(** The file system, as far as the job-state files go: each file holds
    the JSON text of a job-state dict ([json.dumps] and [json.loads] are
    taken as inverse to each other). *)
Definition FS := Path -> option JobState.

Definition write_text (p : Path) (data : JobState) (fs : FS) : FS :=
  fun q => if decide (q = p) then Some data else fs q.

(** [src.replace(dst)]: rename over the target. *)
Definition replace (src dst : Path) (fs : FS) : FS :=
  fun q => if decide (q = dst) then fs src
           else if decide (q = src) then None
           else fs q.

(** [_load_json] *)
Definition _load_json (path : Path) (dflt : JobState) (fs : FS) : JobState :=
  default dflt (fs path).

(** [_save_json], step by step: the file system after [tmp.write_text]
    and after [tmp.replace(path)]. *)
Definition _save_json_steps (path : Path) (data : JobState) (fs : FS) : FS * FS :=
  let tmp := with_suffix path ".tmp" in
  let fs1 := write_text tmp data fs in
  (fs1, replace tmp path fs1).

Definition _save_json (path : Path) (data : JobState) (fs : FS) : FS :=
  snd (_save_json_steps path data fs).

(** *** Job cooldown *)

(** [random.randint(a, b)]: [draw] is the entropy consumed; an empty
    range raises [ValueError] ([None]). *)
Definition randint (a b : Z) (draw : Z) : option Z :=
  if (a <=? b)%Z then Some (a + draw mod (b - a + 1))%Z else None.

Definition _job_cooldown_window (cfg : Config) (draw : Z) : option Z :=
  randint (JOB_COOLDOWN_MIN cfg) (JOB_COOLDOWN_MAX cfg) draw.

(** A job of the catalog: its id and the [label] of its params. *)
Record Job := mkJob {
  job_id : string;
  job_label : option string
}.

(** [state.get(jid) or {}] *)
Definition rt_or_empty (state : JobState) (jid : string) : JobRt :=
  default {| last_run_ts := None; next_eligible_ts := None |} (state !! jid).

(** [_job_ready]: [time.time() >= float(next_ts or 0)] *)
Definition _job_ready (job : Job) (state : JobState) (now : Q) : bool :=
  Qle_bool (default 0%Q (next_eligible_ts (rt_or_empty state (job_id job)))) now.

Definition is_empty_rt (st : JobRt) : bool :=
  match last_run_ts st, next_eligible_ts st with
  | None, None => true
  | _, _ => false
  end.

(** [_mark_job_cooldown]. With a window the entry becomes
    [{last_run_ts: now, next_eligible_ts: now + window}]. When
    [randint] raises, [st["last_run_ts"]] has already been assigned: if
    [state.get(jid)] was a non-empty dict, [st] is that very dict and
    the entry of [state] has changed; otherwise [st] was a fresh dict
    and [state] has not. The boolean tells whether the call returned. *)
Definition _mark_job_cooldown (cfg : Config) (job : Job) (state : JobState)
    (now : Q) (draw : Z) : bool * JobState :=
  let jid := job_id job in
  match _job_cooldown_window cfg draw with
  | Some w =>
      (true, <[jid := {| last_run_ts := Some now;
                         next_eligible_ts := Some (now + inject_Z w)%Q |}]> state)
  | None =>
      (false,
       alter (fun st => if is_empty_rt st then st
                        else {| last_run_ts := Some now;
                                next_eligible_ts := next_eligible_ts st |})
             jid state)
  end.

(** *** Worker checkpoints *)

(** A scraped entity as [_extract_last_ids] sees it: [None] when
    [RedditContent.from_data_entity] raises, else [rc.id or ""]. *)
Definition Entity := option string.

Definition _extract_last_ids (entities : list Entity) : option string * option string :=
  fold_left
    (fun '(last_post_id, last_comment_id) e =>
       match e with
       | Some rid =>
           if PyStr.startswith rid "t3_" then (Some rid, last_comment_id)
           else if PyStr.startswith rid "t1_" then (last_post_id, Some rid)
           else (last_post_id, last_comment_id)
       | None => (last_post_id, last_comment_id)
       end)
    entities (None, None).


(** *** The worker *)

(** What one worker holds and touches: the accounts database (shared),
    its own in-memory [job_state] dict, the files, and the clock. *)
Record World := mkWorld {
  db : Store.AccountsDb;
  job_state : JobState;
  fs : FS;
  clock : Q
}.

Definition set_db (d : Store.AccountsDb) (w : World) : World :=
  {| db := d; job_state := job_state w; fs := fs w; clock := clock w |}.

Definition sleep (seconds : Q) (w : World) : World :=
  {| db := db w; job_state := job_state w; fs := fs w; clock := (clock w + seconds)%Q |}.

(** A pool statement on the accounts table. The pool's constructor has
    created the table, so it is there whenever a lease is held. *)
Definition on_accounts (f : Accounts -> Accounts) (w : World) : World :=
  set_db {| Store.tbl_accounts := f <$> Store.tbl_accounts (db w);
            Store.tbl_proxies := Store.tbl_proxies (db w);
            Store.tbl_checkpoints := Store.tbl_checkpoints (db w) |} w.

(** [await pool.acquire()] from the worker; without the accounts table
    the [SELECT] raises, which the worker treats like any other failure
    to acquire. *)
Definition pool_acquire (during_sleep : Accounts -> Accounts) (w : World)
  : (string + AccountLease) * World :=
  match Store.tbl_accounts (db w) with
  | None => (inl "no such table: accounts", w)
  | Some t =>
      let '(res, t', later) := Pool.acquire (clock w) during_sleep t in
      (res,
       {| db := {| Store.tbl_accounts := Some t';
                   Store.tbl_proxies := Store.tbl_proxies (db w);
                   Store.tbl_checkpoints := Store.tbl_checkpoints (db w) |};
          job_state := job_state w; fs := fs w; clock := later |})
  end.

(** [try: await store.upsert(...) except Exception: pass] *)
Definition try_upsert (worker_id : string) (acct sub post comment : option string)
    (w : World) : World :=
  match Store.upsert worker_id acct sub post comment None (clock w) (db w) with
  | inr d => set_db d w
  | inl _ => w
  end.

(** The [except Exception as e] branch of the scrape, up to the error
    checkpoint: the dispatch on the message, on the accounts table. *)
Definition on_scrape_error (cfg : Config) (lease : AccountLease) (msg : string)
    (now : Q) (t : Accounts) : Accounts :=
  let cs := pool_cooldown_seconds cfg in
  if Orchestrator_classify._looks_rate_limited msg then
    lease_release cs lease false now (cooldown lease 120 (Some "rate-limit") now t)
  else if Orchestrator_classify._looks_auth_ban msg then
    lease_release cs lease false now (quarantine lease "auth" t)
  else
    lease_release cs lease false now t.

(** [_build_options]: [RedditScrapeOptions(pagination_target=ENTITY_LIMIT,
    ...)] with the defaults for the fields the planner reads (the
    keywords [listing], [time_filter] and [sort] name no field of the
    model); [None] when a validator raises. *)
Definition _build_options (cfg : Config) : option Planner.RedditScrapeOptions :=
  let o := {| Planner.listing_types := Planner.listing_types Planner.default_options;
              Planner.time_filters := None;
              Planner.search_queries := None;
              Planner.search_sort := Planner.search_sort Planner.default_options;
              Planner.user_timelines := None;
              Planner.pagination_target := Some (ENTITY_LIMIT cfg);
              Planner.per_listing_limit :=
                Planner.per_listing_limit Planner.default_options |} in
  if Planner.valid o then Some o else None.

(** [scrape_config.labels[0].value if scrape_config.labels else "all"],
    with [labels = [DataLabel(value=label)] if label else None];
    [label_value l] is what [labels[0].value] reads on a config built
    with label [l] ([DataLabel] and [ScrapeConfig] are not part of these
    sources). *)
Definition last_subreddit_of (job : Job) (label_value : string -> string) : string :=
  match job_label job with
  | Some l => if String.eqb l "" then "all" else label_value l
  | None => "all"
  end.

(** How [await scraper.scrape_advanced(...)] ends: it returns the
    entities, raises an [Exception] whose [str(e)] is [msg], or the
    worker's task is cancelled while it waits there. *)
Inductive ScrapeOutcome :=
| Scraped (entities : list Entity)
| Raised (msg : string)
| Cancelled.

(** What one pass of the loop meets from outside. [build] is how
    [_build_scrape_config(job)] ends, which rests on [DateRange],
    [DataLabel] and [ScrapeConfig]: it raises ([None]), or returns a
    config, with the [label_value] above. *)
Record IterInput := mkInput {
  job : Job;                                (* the weighted choice *)
  during_acquire : Accounts -> Accounts;    (* others, during acquire's sleep *)
  build : option (string -> string);
  during_scrape : Accounts -> Accounts;     (* the scraper and others, on the pool *)
  scrape_seconds : Q;
  outcome : ScrapeOutcome;
  draw : Z;                                 (* entropy of random.randint *)
  randint_error : string                    (* text of its ValueError *)
}.

(** The error path of the worker: dispatch, error checkpoint, 10 s sleep. *)
Definition error_path (cfg : Config) (worker_id : string) (lease : AccountLease)
    (sub : string) (msg : string) (w : World) : World :=
  let w1 := on_accounts (on_scrape_error cfg lease msg (clock w)) w in
  let w2 := try_upsert worker_id (Some (account_id lease)) (Some sub) None None w1 in
  sleep 10 w2.

(** One pass of the [while not _shutdown] loop of [worker_task], from
    the acquisition of the lease on, for the job that was chosen.
    [_build_scrape_config] and [_build_options] run with the lease held
    and outside the inner [try]: when one of them raises, the outer
    [except Exception] prints, sleeps 5 s and the loop goes round, with
    nothing released and no checkpoint written. When the task is
    cancelled during the scrape, [except asyncio.CancelledError: break]
    leaves the loop as things are, the lease still held. The other
    awaits of the pass are taken to complete. *)
Definition worker_iteration (cfg : Config) (worker_id : string) (job_state_path : Path)
    (inp : IterInput) (w : World) : World :=
  match pool_acquire (during_acquire inp) w with
  | (inl _, w1) => sleep 10 w1
  | (inr lease, w1) =>
      match build inp, _build_options cfg with
      | Some label_value, Some _ =>
          let sub := last_subreddit_of (job inp) label_value in
          let w2 := try_upsert worker_id (Some (account_id lease)) (Some sub) None None w1 in
          let w3 := sleep (scrape_seconds inp) (on_accounts (during_scrape inp) w2) in
          match outcome inp with
          | Scraped entities =>
              match _mark_job_cooldown cfg (job inp) (job_state w3) (clock w3) (draw inp) with
              | (true, st) =>
                  let w4 := {| db := db w3; job_state := st;
                               fs := _save_json job_state_path st (fs w3);
                               clock := clock w3 |} in
                  let '(lp, lc) := _extract_last_ids entities in
                  let w5 := try_upsert worker_id (Some (account_id lease)) (Some sub)
                              lp lc w4 in
                  on_accounts
                    (lease_release (pool_cooldown_seconds cfg) lease true (clock w5)) w5
              | (false, st) =>
                  error_path cfg worker_id lease sub (randint_error inp)
                    {| db := db w3; job_state := st; fs := fs w3; clock := clock w3 |}
              end
          | Raised msg => error_path cfg worker_id lease sub msg w3
          | Cancelled => w3
          end
      | _, _ => sleep 5 w1
      end
  end.

(** *** The supervisor *)

(** [int(x)] of a number: truncation towards zero. *)
Definition py_int (x : Q) : Z := Z.quot (Qnum x) (Zpos (Qden x)).

(** [max(0, int(ready * 0.75))] *)
Definition target_workers (ready : Z) : Z :=
  Z.max 0 (py_int (inject_Z ready * (3 # 4))).

(** The registry [workers: Dict[int, Task]]: its keys, in insertion
    order; the counter [next_worker_id]; and whether the
    [while not _shutdown] loop is still going round ([running]), or has
    been left through [except asyncio.CancelledError: break]. *)
Record Supervisor := mkSupervisor {
  workers : list Z;
  next_worker_id : Z;
  running : bool
}.

Definition initial_supervisor : Supervisor :=
  {| workers := []; next_worker_id := 0; running := true |}.

(** [workers[wid] = task] *)
Definition dict_set (wid : Z) (ws : list Z) : list Z :=
  if bool_decide (wid ∈ ws) then ws else (ws ++ [wid])%list.

(** [workers.pop(wid, None)] *)
Definition dict_pop (wid : Z) (ws : list Z) : list Z :=
  List.filter (fun w => negb (Z.eqb w wid)) ws.

(** [for _ in range(add)]: spawn a worker under the next id. *)
Fixpoint spawn (add : nat) (s : Supervisor) : Supervisor :=
  match add with
  | O => s
  | S add' =>
      spawn add' {| workers := dict_set (next_worker_id s) (workers s);
                    next_worker_id := next_worker_id s + 1;
                    running := running s |}
  end.

(** [for wid, task in list(workers.items())]: cancel, await and pop
    until [to_cancel] reaches 0. [await_returns wid] tells how
    [await task] ends for worker [wid] once it is cancelled: it returns,
    or raises an [Exception] that [except Exception: pass] swallows (the
    worker took the cancellation in its [try] and left its loop, or had
    ended already), or else it raises [CancelledError] (the worker was
    in the [sleep(5)] of its outer [except Exception] handler, where
    nothing catches the cancellation, and its task ends cancelled).
    [CancelledError] is no [Exception]: it passes [except Exception],
    the worker is not popped, and the supervisor's own
    [except asyncio.CancelledError: break] ends the loop. The result is
    the registry and whether the loop went through. *)
Fixpoint cancel_loop (await_returns : Z -> bool) (snapshot : list Z) (to_cancel : Z)
    (ws : list Z) : list Z * bool :=
  match snapshot with
  | [] => (ws, true)
  | wid :: rest =>
      if (to_cancel <=? 0)%Z then (ws, true)
      else if await_returns wid
      then cancel_loop await_returns rest (to_cancel - 1) (dict_pop wid ws)
      else (ws, false)
  end.

(** [health.get(key, 0)] on the report, [{}] when reading it raised. *)
Definition health_get (health : option (Status -> option nat)) (s : Status) : Z :=
  match health with
  | Some h => Z.of_nat (default 0%nat (h s))
  | None => 0
  end.

(** The scaling part of one tick: target, scale up, scale down. Both
    tests read [current_workers], taken before either. *)
Definition scale (health : option (Status -> option nat)) (await_returns : Z -> bool)
    (s : Supervisor) : Supervisor :=
  let ready := health_get health Ready in
  let target := target_workers ready in
  let current := Z.of_nat (length (workers s)) in
  let s1 := if (current <? target)%Z then spawn (Z.to_nat (target - current)) s else s in
  if (target <? current)%Z
  then let '(ws, went_through) :=
         cancel_loop await_returns (workers s1) (current - target) (workers s1) in
       {| workers := ws; next_worker_id := next_worker_id s1;
          running := running s1 && went_through |}
  else s1.

(** [Reap dead tasks]: drop every worker whose task is done. *)
Definition reap (done : Z -> bool) (s : Supervisor) : Supervisor :=
  {| workers := fold_left (fun ws wid => if done wid then dict_pop wid ws else ws)
                          (workers s) (workers s);
     next_worker_id := next_worker_id s;
     running := running s |}.

(** What one tick meets from outside: the health report ([None] when
    reading it raised), how awaiting each worker ends if it is
    cancelled, and which tasks are done at the reap. *)
Record TickInput := mkTick {
  tick_health : option (Status -> option nat);
  tick_await_returns : Z -> bool;
  tick_done : Z -> bool
}.

(** One tick of [orchestrate]: scale, then reap unless the scaling left
    the loop; and a run of ticks from the start, which stops changing
    once the loop is left. *)
Definition tick (s : Supervisor) (inp : TickInput) : Supervisor :=
  if running s then
    let s1 := scale (tick_health inp) (tick_await_returns inp) s in
    if running s1 then reap (tick_done inp) s1 else s1
  else s.

Definition run_ticks (inps : list TickInput) : Supervisor :=
  fold_left tick inps initial_supervisor.

End Orchestrator.

(** ** What the specification asks of the rate limiter and the supervisor *)

Module Spec_model.

(** The bucket invariant [0 <= tokens <= capacity], with the refill rate
    that keeps it. *)
Definition row_ok (r : Limiter.Bucket) : Prop :=
  (0 <= Limiter.tokens r /\ Limiter.tokens r <= Limiter.capacity r
   /\ 0 <= Limiter.refill_rate r)%Q.

Definition table_ok (db : gmap string Limiter.Bucket) : Prop :=
  forall name r, db !! name = Some r -> row_ok r.

(** A history of operations on the bucket store, from the empty store. *)
Definition run_ops (ops : list Limiter.Op) : gmap string Limiter.Bucket :=
  fold_left Limiter.apply_op ops ∅.

(** Capacities, refill rates and requested amounts that are not negative. *)
Definition op_ok (o : Limiter.Op) : Prop :=
  match o with
  | Limiter.Ensure _ cap refill _ => (0 <= cap /\ 0 <= refill)%Q
  | Limiter.TryAcquire _ req _ => (0 <= req)%Q
  end.

(** An operation of another caller that does not create the bucket
    [name] with a capacity of [req] or more. *)
Definition keeps_below (name : string) (req : Q) (o : Limiter.Op) : Prop :=
  match o with
  | Limiter.Ensure n cap _ _ => n = name -> (cap < req)%Q
  | Limiter.TryAcquire _ _ _ => True
  end.

(** The number of eligible accounts of the specification: status ready
    and [cooldown_until <= now]. *)
Definition eligible_count (now : Q) (db : gmap string Pool.Account) : nat :=
  length (List.filter (fun kv => Pool.eligible now (snd kv)) (map_to_list db)).

(** [floor(0.75 * n)] *)
Definition floor_three_quarters (n : nat) : Z :=
  Qfloor (inject_Z (Z.of_nat n) * (3 # 4)).

Definition spec_target (now : Q) (db : gmap string Pool.Account) : Z :=
  floor_three_quarters (eligible_count now db).

(** The registry holds distinct ids, all below the next id to hand out. *)
Definition registry_ok (s : Orchestrator.Supervisor) : Prop :=
  NoDup (Orchestrator.workers s)
  /\ forall wid, wid ∈ Orchestrator.workers s -> (wid < Orchestrator.next_worker_id s)%Z.

End Spec_model.

(** ** Concrete states used in the examples *)

Module Samples.
Import Pool.

Definition dummy_cred : AccountCredential :=
  mkCred "dummy_client_id" "dummy_client_secret" "dummy_user" "dummy_pass".

(** An account that was quarantined after three failures. *)
Definition seeded_row : Account :=
  {| cred := dummy_cred; status := Quarantine;
     cooldown_until := Some (30 # 1); fail_count := 3;
     last_error := Some "auth"; proxy_id := None |}.

Definition seeded_db : Accounts := {[ "acct-1" := seeded_row ]}.

(** A freshly seeded account, ready and out of cooldown. *)
Definition ready_row : Account :=
  {| cred := dummy_cred; status := Ready;
     cooldown_until := Some 0%Q; fail_count := 0;
     last_error := None; proxy_id := None |}.

Definition ready_db : Accounts := {[ "acct-1" := ready_row ]}.

(** The same account while a worker holds its lease. *)
Definition leased_row : Account :=
  {| cred := dummy_cred; status := Leased;
     cooldown_until := Some 0%Q; fail_count := 0;
     last_error := None; proxy_id := None |}.

Definition leased_db : Accounts := {[ "acct-1" := leased_row ]}.

Definition lease_1 : AccountLease :=
  {| account := dummy_cred; account_id := "acct-1"; acquired_at := 100 # 1 |}.

(** Eight ready accounts, all cooling until t = 1000. *)
Definition cooling_row : Account :=
  {| cred := dummy_cred; status := Ready;
     cooldown_until := Some (1000 # 1); fail_count := 0;
     last_error := None; proxy_id := None |}.

Definition eight_cooling : Accounts :=
  list_to_map (List.map (fun id => (id, cooling_row))
    ["a1"; "a2"; "a3"; "a4"; "a5"; "a6"; "a7"; "a8"]).

(** A bucket that is full: capacity 5, one token per second. *)
Definition full_bucket : Limiter.Bucket :=
  {| Limiter.capacity := 5; Limiter.tokens := 5;
     Limiter.refill_rate := 1; Limiter.updated_at := 0 |}.

(** A bucket that is empty: capacity 2, one token per second. *)
Definition empty_bucket : Limiter.Bucket :=
  {| Limiter.capacity := 2; Limiter.tokens := 0;
     Limiter.refill_rate := 1; Limiter.updated_at := 0 |}.

Definition limiter_0 : gmap string Limiter.Bucket := {[ "test" := empty_bucket ]}.


Definition job_state_path : Orchestrator.Path :=
  {| Orchestrator.parent := "storage/reddit"; Orchestrator.stem := "job_state";
     Orchestrator.suffix := ".json" |}.

Definition job_1 : Orchestrator.Job :=
  {| Orchestrator.job_id := "job-1"; Orchestrator.job_label := Some "r/bittensor_" |}.

(** The world of a worker right after the pool was built on a new
    database file and one account was seeded. *)
Definition world_0 : Orchestrator.World :=
  {| Orchestrator.db :=
       {| Store.tbl_accounts := Some ready_db; Store.tbl_proxies := Some ∅;
          Store.tbl_checkpoints := None |};
     Orchestrator.job_state := ∅;
     Orchestrator.fs := fun _ => None;
     Orchestrator.clock := 100 # 1 |}.

Definition input_of (o : Orchestrator.ScrapeOutcome) : Orchestrator.IterInput :=
  {| Orchestrator.job := job_1;
     Orchestrator.during_acquire := fun t => t;
     Orchestrator.build := Some (fun l => l);
     Orchestrator.during_scrape := fun t => t;
     Orchestrator.scrape_seconds := 7 # 1;
     Orchestrator.outcome := o;
     Orchestrator.draw := 250;
     Orchestrator.randint_error := "empty range for randrange()" |}.

End Samples.

(** ** The proxy rotation (scraping/reddit/session_pool.py, [ProxyPool]) *)

Module ProxyPool.

#[global] Instance ProxyConfig_eq_dec : EqDecision Store.ProxyConfig.
Proof. solve_decision. Defined.

(** [self._proxies], [self._idx] and the in-memory failure counters
    [self._failures: Dict[int, int]]. *)
Record State := mkState {
  proxies : list Store.ProxyConfig;
  idx : nat;
  failures : gmap nat Z
}.

(** [ProxyPool(proxies)] *)
Definition init (ps : list Store.ProxyConfig) : State :=
  {| proxies := ps; idx := 0; failures := ∅ |}.

(** [acquire]: the loop body returns in its first round, so the call
    hands out [proxies[idx]] and moves [idx] one place on, modulo the
    length. *)
Definition acquire (s : State) : option Store.ProxyConfig * State :=
  match proxies s with
  | [] => (None, s)
  | _ :: _ =>
      (proxies s !! idx s,
       {| proxies := proxies s;
          idx := (idx s + 1) mod length (proxies s);
          failures := failures s |})
  end.

(** [n] calls of [acquire] in a row, with what each returned. *)
Fixpoint acquire_many (n : nat) (s : State) : list (option Store.ProxyConfig) * State :=
  match n with
  | O => ([], s)
  | S n' =>
      let '(p, s1) := acquire s in
      let '(ps, s2) := acquire_many n' s1 in
      (p :: ps, s2)
  end.

(** [self._proxies.index(proxy)]: the first position that holds an equal
    proxy, [None] for the [ValueError]. *)
Fixpoint index (p : Store.ProxyConfig) (ps : list Store.ProxyConfig) : option nat :=
  match ps with
  | [] => None
  | q :: ps' => if decide (q = p) then Some 0%nat else S <$> index p ps'
  end.

(** [self._failures.get(idx, 0)] *)
Definition failures_get (s : State) (i : nat) : Z := default 0%Z (failures s !! i).

(** [report_failure] *)
Definition report_failure (p : Store.ProxyConfig) (s : State) : State :=
  match index p (proxies s) with
  | None => s
  | Some i =>
      {| proxies := proxies s; idx := idx s;
         failures := <[i := (failures_get s i + 1)%Z]> (failures s) |}
  end.

(** [report_success]: decay, never below zero. *)
Definition report_success (p : Store.ProxyConfig) (s : State) : State :=
  match index p (proxies s) with
  | None => s
  | Some i =>
      let cur := failures_get s i in
      if (0 <? cur)%Z
      then {| proxies := proxies s; idx := idx s;
              failures := <[i := (cur - 1)%Z]> (failures s) |}
      else s
  end.

End ProxyPool.

(** ** The rest of the job queue (scraping/reddit/job_queue.py) *)

Module JobQueueOps.
Import JobQueue.

(** The dataclass [Job]. *)
Record Job := mkJobObj {
  job_id : string;
  job_weight : Q;
  job_payload : string;
  job_attempts : Z;
  job_enqueued_at : Q
}.

(** [Job.to_dict] *)
Definition to_dict (j : Job) : JobDict :=
  {| id := job_id j; weight := job_weight j; payload := job_payload j;
     attempts := Some (job_attempts j); enqueued_at := Some (job_enqueued_at j) |}.

(** [Job.from_dict]: [attempts] defaults to 0 and [enqueued_at] to 0.0.
    (The weight is always there in a file that [to_dict] wrote.) *)
Definition from_dict (d : JobDict) : Job :=
  {| job_id := id d; job_weight := weight d; job_payload := payload d;
     job_attempts := default 0%Z (attempts d);
     job_enqueued_at := default 0%Q (enqueued_at d) |}.

(** The score of one job in [_weighted_pick_index]:
    [age = max(1.0, (now - enqueued_at) / 60.0)] with [enqueued_at]
    defaulting to [now], and [score = max(0.0, w * age)]. *)
Definition score (now : Q) (j : JobDict) : Q :=
  let age := Qmax 1 ((now - default now (enqueued_at j)) / 60) in
  Qmax 0 (weight j * age).

Definition total_score (now : Q) (jobs : list JobDict) : Q :=
  fold_left (fun total j => (total + score now j)%Q) jobs 0%Q.

(** The scan [for idx, w in enumerate(weights)]: the first index whose
    running sum reaches [r]. *)
Fixpoint scan (weights : list Q) (r upto : Q) (i : nat) : option nat :=
  match weights with
  | [] => None
  | w :: rest =>
      if Qle_bool r (upto + w) then Some i
      else scan rest r (upto + w)%Q (S i)
  end.

(** [_weighted_pick_index]; [r] is what [random.uniform(0, total)]
    returned. *)
Definition _weighted_pick_index (jobs : list JobDict) (now : Q) (r : Q) : Z :=
  match jobs with
  | [] => (-1)%Z
  | _ :: _ =>
      let weights := List.map (score now) jobs in
      if Qle_bool (total_score now jobs) 0 then 0%Z
      else match scan weights r 0 0 with
           | Some i => Z.of_nat i
           | None => (Z.of_nat (length jobs) - 1)%Z
           end
  end.

Inductive Dequeued :=
| NoJob                  (* [return None] *)
| Got (j : Job)
| IndexError.            (* [q.pop(idx)] out of range *)

(** [dequeue]: [q = data.get("queue", [])]; the picked dict is popped
    from the queue and its [Job.to_dict()] stored under the job's id in
    [inflight]. *)
Definition dequeue (now : Q) (r : Q) (f : File) : Dequeued * File :=
  let d := _load f in
  match default [] (queue d) with
  | [] => (NoJob, f)
  | (_ :: _) as q =>
      let i := Z.to_nat (_weighted_pick_index q now r) in
      match q !! i with
      | None => (IndexError, f)
      | Some job_dict =>
          let job := from_dict job_dict in
          (Got job,
           _save {| queue := Some (delete i q);
                    inflight := Some (<[job_id job := to_dict job]> (inflight_or_empty d)) |} f)
      end
  end.

(** [j["weight"] = float(new_weight)] on the first queued job with the id. *)
Fixpoint set_first_weight (job_id : string) (w : Q) (q : list JobDict) : option (list JobDict) :=
  match q with
  | [] => None
  | j :: rest =>
      if String.eqb (id j) job_id
      then Some ({| id := id j; weight := w; payload := payload j;
                    attempts := attempts j; enqueued_at := enqueued_at j |} :: rest)
      else cons j <$> set_first_weight job_id w rest
  end.

(** [reprioritize] *)
Definition reprioritize (job_id : string) (new_weight : Q) (f : File)
  : (PyError + bool) * File :=
  let d := _load f in
  match queue d with
  | None => (inl (KeyError "queue"), f)
  | Some q =>
      match set_first_weight job_id new_weight q with
      | Some q' => (inr true, _save {| queue := Some q'; inflight := inflight d |} f)
      | None =>
          match inflight_or_empty d !! job_id with
          | Some j =>
              (inr true,
               _save {| queue := Some q;
                        inflight :=
                          Some (<[job_id := {| id := id j; weight := new_weight;
                                               payload := payload j;
                                               attempts := attempts j;
                                               enqueued_at := enqueued_at j |}]>
                                  (inflight_or_empty d)) |} f)
          | None => (inr false, f)
          end
      end
  end.

End JobQueueOps.

(** ** Histories of account operations *)

Module AccountOps.
Import Pool.

(** Every statement of the pool and of the health manager that writes an
    account row. *)
Inductive Op :=
| AddAccount (id : string) (c : AccountCredential)
| Acquire (now : Q)
| Release (cooldown_seconds : Z) (lease : AccountLease) (success : bool) (now : Q)
| Cooldown (lease : AccountLease) (seconds : Z) (reason : option string) (now : Q)
| Quarantine (lease : AccountLease) (reason : string)
| Check (cfg : Manager.Config) (snap : string * Account) (outcome : option string) (now : Q).

Definition apply_op (db : Accounts) (o : Op) : Accounts :=
  match o with
  | AddAccount id c => add_account id c db
  | Acquire now => snd (_select_and_mark now db)
  | Release cs lease success now => release cs lease success now db
  | Cooldown lease seconds reason now => cooldown lease seconds reason now db
  | Quarantine lease reason => quarantine lease reason db
  | Check cfg snap outcome now => Manager._check_one cfg snap outcome now db
  end.

(** A history from the empty table. *)
Definition run_ops (ops : list Op) : Accounts := fold_left apply_op ops ∅.

End AccountOps.

(** ** The job catalog (scraping/reddit/worker_orchestrator.py) *)

Module Catalog.

(** [ready_jobs = [j for j in all_jobs if _job_ready(j, job_state)]];
    [now] is the clock, read at each test. *)
Definition ready_jobs (all_jobs : list Orchestrator.Job)
    (state : gmap string Orchestrator.JobRt) (now : Q) : list Orchestrator.Job :=
  List.filter (fun j => Orchestrator._job_ready j state now) all_jobs.

End Catalog.

(** ** Histories of proxy reports *)

Module ProxyHistory.
Import ProxyPool.

Inductive Call :=
| CallAcquire
| CallFailure (p : Store.ProxyConfig)
| CallSuccess (p : Store.ProxyConfig).

Definition apply_call (s : State) (c : Call) : State :=
  match c with
  | CallAcquire => snd (acquire s)
  | CallFailure p => report_failure p s
  | CallSuccess p => report_success p s
  end.

(** A history of calls on a pool built from [ps]. *)
Definition run_calls (ps : list Store.ProxyConfig) (calls : list Call) : State :=
  fold_left apply_call calls (init ps).

End ProxyHistory.

(** * Properties *)

(** ** Strings *)

Lemma startswith_lower s p :
  PyStr.startswith s p = true -> PyStr.startswith (PyStr.lower s) (PyStr.lower p) = true.
Proof.
  revert s. induction p as [|a p IH]; intros s; simpl; [done|].
  destruct s as [|b s]; simpl; [done|].
  intros [Hab Hs]%andb_prop. apply Ascii.eqb_eq in Hab as ->.
  rewrite Ascii.eqb_refl. simpl. by apply IH.
Qed.

Lemma contains_lower p s :
  PyStr.contains p s = true -> PyStr.contains (PyStr.lower p) (PyStr.lower s) = true.
Proof.
  induction s as [|b s IH].
  - cbn [PyStr.contains PyStr.lower]. rewrite !orb_false_r.
    apply (startswith_lower "" p).
  - cbn [PyStr.contains PyStr.lower]. intros [H|H]%orb_prop.
    + apply orb_true_iff. left. by apply (startswith_lower (String b s) p).
    + apply orb_true_iff. right. by apply IH.
Qed.

(** ** Error classification (C5) *)

Section Classification.
Import PyStr Orchestrator_classify Manager_classify Spec_classify.

Ltac lower_hyp H :=
  apply contains_lower in H;
  match type of H with
  | contains (lower ?p) _ = true =>
      let p' := eval vm_compute in (lower p) in change (lower p) with p' in H
  end.

Lemma worker_classify_spec msg : worker_classify msg = spec_classify msg.
Proof.
  unfold worker_classify, spec_classify, _looks_rate_limited, _looks_auth_ban,
    matches_rate, matches_auth. cbv zeta.
  repeat match goal with
         | |- context [contains ?p ?s] => destruct (contains p s)
         end; reflexivity.
Qed.

Lemma probe_rate_limit_worker msg :
  probe_classify msg = RateLimit -> _looks_rate_limited msg = true.
Proof.
  unfold probe_classify, _health_probe, _looks_rate_limited. cbv zeta.
  destruct (contains "Too Many Requests" msg) eqn:H1.
  { lower_hyp H1. rewrite H1. reflexivity. }
  destruct (contains "RATELIMIT" msg) eqn:H2.
  { lower_hyp H2. rewrite H2.
    intros _. by rewrite orb_true_r. }
  destruct (contains "429" msg) eqn:H3.
  { lower_hyp H3. rewrite H3.
    intros _. by rewrite orb_true_r. }
  cbn [orb].
  destruct (contains "401" msg || contains "403" msg || contains "invalid_grant" msg
            || contains "Forbidden" msg || contains "Unauthorized" msg); discriminate.
Qed.

Lemma probe_auth_worker msg :
  probe_classify msg = Auth -> _looks_auth_ban msg = true.
Proof.
  unfold probe_classify, _health_probe, _looks_auth_ban. cbv zeta.
  destruct (contains "Too Many Requests" msg || contains "RATELIMIT" msg
            || contains "429" msg); [discriminate|].
  destruct (contains "401" msg) eqn:H1.
  { lower_hyp H1. rewrite H1.
    intros _. by rewrite !orb_true_r. }
  destruct (contains "403" msg) eqn:H2.
  { lower_hyp H2. rewrite H2.
    intros _. by rewrite !orb_true_r. }
  destruct (contains "invalid_grant" msg) eqn:H3.
  { lower_hyp H3. rewrite H3.
    intros _. by rewrite !orb_true_r. }
  destruct (contains "Forbidden" msg) eqn:H4.
  { lower_hyp H4. rewrite H4.
    intros _. by rewrite !orb_true_r. }
  destruct (contains "Unauthorized" msg) eqn:H5.
  { lower_hyp H5. rewrite H5. reflexivity. }
  discriminate.
Qed.

Lemma worker_classify_cases msg :
  let s := lower msg in
  let rate := contains "too many requests" s || contains "ratelimit" s
              || contains "429" s in
  let auth := contains "unauthorized" s || contains "forbidden" s || contains "403" s
              || contains "401" s || contains "invalid_grant" s in
  (worker_classify msg = RateLimit <-> rate = true)
  /\ (worker_classify msg = Auth <-> rate = false /\ auth = true)
  /\ (worker_classify msg = Network <-> rate = false /\ auth = false).
Proof.
  unfold worker_classify, _looks_rate_limited, _looks_auth_ban. cbv zeta.
  destruct (contains "too many requests" (lower msg) || contains "ratelimit" (lower msg)
            || contains "429" (lower msg));
    [|destruct (contains "unauthorized" (lower msg) || contains "forbidden" (lower msg)
               || contains "403" (lower msg) || contains "401" (lower msg)
               || contains "invalid_grant" (lower msg))];
    repeat split; try discriminate; try done; by intros [? ?].
Qed.

Lemma probe_classify_cases msg :
  let rate := contains "Too Many Requests" msg || contains "RATELIMIT" msg
              || contains "429" msg in
  let auth := contains "401" msg || contains "403" msg || contains "invalid_grant" msg
              || contains "Forbidden" msg || contains "Unauthorized" msg in
  (probe_classify msg = RateLimit <-> rate = true)
  /\ (probe_classify msg = Auth <-> rate = false /\ auth = true)
  /\ (probe_classify msg = Network <-> rate = false /\ auth = false).
Proof.
  unfold probe_classify, _health_probe. cbv zeta.
  destruct (contains "Too Many Requests" msg || contains "RATELIMIT" msg
            || contains "429" msg);
    [|destruct (contains "401" msg || contains "403" msg || contains "invalid_grant" msg
               || contains "Forbidden" msg || contains "Unauthorized" msg)];
    cbn; repeat split; try discriminate; try done; by intros [? ?].
Qed.

(** C5, as the code has it. The worker classifies on the lower-cased
    message, as the specification words it: rate-limit exactly when it
    contains "too many requests", "ratelimit" or "429"; otherwise auth
    exactly when it contains "unauthorized", "forbidden", "403", "401"
    or "invalid_grant"; otherwise network. The health manager classifies
    on the message as it is: rate-limit exactly when it contains
    "Too Many Requests", "RATELIMIT" or "429"; otherwise auth exactly
    when it contains "401", "403", "invalid_grant", "Forbidden" or
    "Unauthorized"; otherwise network. What the manager calls rate-limit
    the worker calls rate-limit, what the manager calls auth the worker
    calls rate-limit or auth, and what the worker calls network the
    manager calls network. *)
Theorem classifiers_related msg :
  let s := lower msg in
  let w_rate := contains "too many requests" s || contains "ratelimit" s
                || contains "429" s in
  let w_auth := contains "unauthorized" s || contains "forbidden" s || contains "403" s
                || contains "401" s || contains "invalid_grant" s in
  let m_rate := contains "Too Many Requests" msg || contains "RATELIMIT" msg
                || contains "429" msg in
  let m_auth := contains "401" msg || contains "403" msg || contains "invalid_grant" msg
                || contains "Forbidden" msg || contains "Unauthorized" msg in
  worker_classify msg = spec_classify msg
  /\ (worker_classify msg = RateLimit <-> w_rate = true)
  /\ (worker_classify msg = Auth <-> w_rate = false /\ w_auth = true)
  /\ (worker_classify msg = Network <-> w_rate = false /\ w_auth = false)
  /\ (probe_classify msg = RateLimit <-> m_rate = true)
  /\ (probe_classify msg = Auth <-> m_rate = false /\ m_auth = true)
  /\ (probe_classify msg = Network <-> m_rate = false /\ m_auth = false)
  /\ (probe_classify msg = RateLimit -> worker_classify msg = RateLimit)
  /\ (probe_classify msg = Auth -> worker_classify msg <> Network)
  /\ (worker_classify msg = Network -> probe_classify msg = Network).
Proof.
  cbv zeta.
  split; [apply worker_classify_spec|].
  destruct (worker_classify_cases msg) as (W1 & W2 & W3).
  destruct (probe_classify_cases msg) as (M1 & M2 & M3).
  do 3 (split; [assumption|]). do 3 (split; [assumption|]).
  assert (Hr : probe_classify msg = RateLimit -> worker_classify msg = RateLimit).
  { intros H%probe_rate_limit_worker. unfold worker_classify. by rewrite H. }
  assert (Ha : probe_classify msg = Auth -> worker_classify msg <> Network).
  { intros H%probe_auth_worker. unfold worker_classify. rewrite H.
    destruct (_looks_rate_limited msg); discriminate. }
  split; [exact Hr|]. split; [exact Ha|].
  intros Hw. destruct (probe_classify msg) eqn:Hp; [| |reflexivity].
  - rewrite Hr in Hw; [discriminate|reflexivity].
  - exfalso. by apply Ha.
Qed.

(** C5 as stated fails: a lower-case "too many requests" matches the
    rate-limit expression, the worker classifies it as rate-limit, the
    health manager as network. *)
Lemma classifiers_disagree :
  matches_rate "too many requests" = true
  /\ worker_classify "too many requests" = RateLimit
  /\ probe_classify "too many requests" = Network.
Proof. repeat split; vm_compute; reflexivity. Qed.

End Classification.

(** ** The job queue (C10) *)

Section JobQueueFacts.
Import JobQueue.

(** C10: for a [job_id] that is not in the inflight map, [ack] and
    [nack] return [False] and leave the file as it was: same content,
    and no write. *)
Theorem ack_nack_unknown_job (job_id : string) (requeue : bool) (backoff_seconds : Z)
    (now : Q) (f : File) :
  inflight_or_empty (_load f) !! job_id = None ->
  ack job_id f = (inr false, f)
  /\ nack job_id requeue backoff_seconds now f = (inr false, f).
Proof.
  intros H. unfold ack, nack. cbv zeta. rewrite H. done.
Qed.

Lemma ack_nack_unknown_job_witness :
  ack "j-1" initial_file = (inr false, initial_file)
  /\ nack "j-1" true 5 (100 # 1) initial_file = (inr false, initial_file).
Proof.
  apply (ack_nack_unknown_job "j-1" true 5 (100 # 1) initial_file).
  reflexivity.
Defined.

End JobQueueFacts.

(** ** Rows of the accounts table *)

Section AccountRows.
Import Pool.

(** A property of rows that every row update keeps is kept by the
    table. *)
Lemma alter_keeps (P : Account -> Prop) (f : Account -> Account) id (db : Accounts) :
  (forall r, P r -> P (f r)) ->
  map_Forall (fun _ r => P r) db -> map_Forall (fun _ r => P r) (alter f id db).
Proof.
  intros Hf Hdb k r. destruct (decide (id = k)) as [<-|Hne].
  - rewrite lookup_alter_eq. destruct (db !! id) as [r0|] eqn:E; [|discriminate].
    intros [= <-]. apply Hf. by apply (Hdb id).
  - rewrite lookup_alter_ne by done. apply Hdb.
Qed.

Lemma check_one_keeps (P : Account -> Prop) cfg snap outcome now (db : Accounts) :
  (forall r, P r -> P (Manager.success_row now r)) ->
  (forall r until reason, P r -> P (Manager.cooldown_row until reason r)) ->
  (forall r reason, P r -> P (quarantine_row reason r)) ->
  map_Forall (fun _ r => P r) db ->
  map_Forall (fun _ r => P r) (Manager._check_one cfg snap outcome now db).
Proof.
  intros Hs Hc Hq Hdb. unfold Manager._check_one.
  destruct (Manager_classify._health_probe outcome) as [ok reason].
  destruct ok; [by apply alter_keeps|].
  unfold Manager._cooldown, Manager._quarantine.
  repeat match goal with
         | |- context [if ?b then _ else _] => destruct b
         end; apply alter_keeps; auto.
Qed.

(** No statement of the pool or of the health manager stores a NULL
    [cooldown_until]: along every history from the empty table, every
    row has one. *)
Lemma run_ops_cooldown_set (ops : list AccountOps.Op) :
  map_Forall (fun _ r => cooldown_until r <> None) (AccountOps.run_ops ops).
Proof.
  unfold AccountOps.run_ops.
  assert (H0 : map_Forall (fun (_ : string) r => cooldown_until r <> None)
                          (∅ : Accounts)) by apply map_Forall_empty.
  revert H0. generalize (∅ : Accounts).
  induction ops as [|o ops IH]; intros db Hdb; cbn [fold_left]; [exact Hdb|].
  apply IH. destruct o as [id c|now|cs l success now|l seconds reason now
                          |l reason|cfg snap outcome now]; cbn [AccountOps.apply_op].
  - unfold add_account. cbv zeta. by apply map_Forall_insert_2.
  - unfold _select_and_mark. destruct (select_ready now db) as [[id r]|]; [|exact Hdb].
    cbn. by apply (alter_keeps (fun r => cooldown_until r <> None)).
  - apply (alter_keeps (fun r => cooldown_until r <> None)); [|exact Hdb].
    intros r _. unfold release_row. by destruct success.
  - by apply (alter_keeps (fun r => cooldown_until r <> None)).
  - by apply (alter_keeps (fun r => cooldown_until r <> None)).
  - apply (check_one_keeps (fun r => cooldown_until r <> None)); [| | |exact Hdb].
    + intros r H. cbn. by destruct (cooldown_until r).
    + done.
    + done.
Qed.

End AccountRows.

(** ** Seeding accounts (C9) *)

Section AddAccount.
Import Pool.

Lemma add_account_other id id' c (db : Accounts) :
  id <> id' -> add_account id c db !! id' = db !! id'.
Proof. intros H. unfold add_account. by rewrite lookup_insert_ne. Qed.

Lemma add_account_idempotent id c (db : Accounts) :
  add_account id c (add_account id c db) = add_account id c db.
Proof.
  unfold add_account. cbv zeta. rewrite lookup_insert_eq.
  rewrite insert_insert_eq. reflexivity.
Qed.

Lemma add_account_row id c (db : Accounts) r :
  db !! id = Some r ->
  add_account id c db !! id =
    Some {| cred := c; status := status r;
            cooldown_until := Some (default 0%Q (cooldown_until r));
            fail_count := fail_count r; last_error := last_error r;
            proxy_id := proxy_id r |}.
Proof. intros H. unfold add_account. cbv zeta. by rewrite lookup_insert_eq, H. Qed.

Lemma add_account_keeps_row id c (db : Accounts) r :
  db !! id = Some r -> cooldown_until r <> None ->
  add_account id c db !! id =
    Some {| cred := c; status := status r; cooldown_until := cooldown_until r;
            fail_count := fail_count r; last_error := last_error r;
            proxy_id := proxy_id r |}.
Proof.
  intros H Hc. rewrite (add_account_row _ _ _ _ H).
  destruct (cooldown_until r); [reflexivity|done].
Qed.

(** C9: [add_account] on an id that has a row replaces the credential
    and keeps [status], [cooldown_until], [fail_count], [last_error] and
    [proxy_id] as they are. This holds for the row that a first
    [add_account] left, on whatever table that call was made, and for
    every row of every table that the statements of the pool and of the
    health manager can produce, whatever happened to the row since it was
    added. No other row is touched, and calling [add_account] twice with
    the same arguments gives the same table as calling it once. *)
Theorem add_account_existing id c :
  (forall c1 (db : Accounts),
     exists r, add_account id c1 db !! id = Some r
       /\ add_account id c (add_account id c1 db) !! id
          = Some {| cred := c; status := status r; cooldown_until := cooldown_until r;
                    fail_count := fail_count r; last_error := last_error r;
                    proxy_id := proxy_id r |})
  /\ (forall ops r, AccountOps.run_ops ops !! id = Some r ->
        add_account id c (AccountOps.run_ops ops) !! id
        = Some {| cred := c; status := status r; cooldown_until := cooldown_until r;
                  fail_count := fail_count r; last_error := last_error r;
                  proxy_id := proxy_id r |})
  /\ (forall (db : Accounts) id', id <> id' -> add_account id c db !! id' = db !! id')
  /\ (forall db : Accounts, add_account id c (add_account id c db) = add_account id c db).
Proof.
  split; [|split; [|split]].
  - intros c1 db.
    assert (H1 : exists r, add_account id c1 db !! id = Some r /\ cooldown_until r <> None).
    { unfold add_account. cbv zeta. rewrite lookup_insert_eq. eexists. by split. }
    destruct H1 as (r & Hr & Hc). exists r. split; [exact Hr|].
    by apply add_account_keeps_row.
  - intros ops r Hr. apply add_account_keeps_row; [exact Hr|].
    exact (run_ops_cooldown_set ops id r Hr).
  - intros db id'. apply add_account_other.
  - intros db. apply add_account_idempotent.
Qed.

Lemma add_account_existing_witness :
  add_account "acct-1" (mkCred "cid2" "secret2" "user2" "pass2")
    (AccountOps.run_ops
       [AccountOps.AddAccount "acct-1" Samples.dummy_cred;
        AccountOps.Acquire 10;
        AccountOps.Quarantine Samples.lease_1 "auth";
        AccountOps.Release 60 Samples.lease_1 false 20]) !! "acct-1"
  = Some {| cred := mkCred "cid2" "secret2" "user2" "pass2"; status := Ready;
            cooldown_until := Some (20 + inject_Z 60)%Q; fail_count := 1;
            last_error := Some "auth"; proxy_id := None |}.
Proof.
  apply (proj1 (proj2 (add_account_existing "acct-1"
                         (mkCred "cid2" "secret2" "user2" "pass2")))
           [AccountOps.AddAccount "acct-1" Samples.dummy_cred;
            AccountOps.Acquire 10;
            AccountOps.Quarantine Samples.lease_1 "auth";
            AccountOps.Release 60 Samples.lease_1 false 20]
           {| cred := Samples.dummy_cred; status := Ready;
              cooldown_until := Some (20 + inject_Z 60)%Q; fail_count := 1;
              last_error := Some "auth"; proxy_id := None |}).
  vm_compute. reflexivity.
Defined.

End AddAccount.

(** ** The rate limiter (C7, C8) *)

Section LimiterFacts.
Import Limiter Spec_model.

Lemma refilled_le_capacity now r : (refilled now r <= capacity r)%Q.
Proof. unfold refilled. apply Q.le_min_l. Qed.

Lemma refilled_nonneg now r : row_ok r -> (0 <= refilled now r)%Q.
Proof.
  intros (Ht & Hc & Hr). unfold refilled. cbv zeta. apply Q.min_glb.
  - lra.
  - assert (0 <= Qmax 0 (now - updated_at r))%Q by apply Q.le_max_l.
    assert (0 <= refill_rate r * Qmax 0 (now - updated_at r))%Q
      by (apply Qmult_le_0_compat; assumption).
    lra.
Qed.

Lemma default_bucket_ok now : row_ok (default_bucket now).
Proof. unfold row_ok, default_bucket; cbn. lra. Qed.

(** What one attempt returns and stores. *)
Lemma try_acquire_once_result name req now (db : Buckets) :
  let r0 := fst (read_or_default name now db) in
  let current := refilled now r0 in
  fst (_try_acquire_once name req now db) = Qle_bool req current
  /\ snd (_try_acquire_once name req now db) !! name
     = Some (set_tokens (if Qle_bool req current then (current - req)%Q else current) now r0)
  /\ (forall other, name <> other ->
        snd (_try_acquire_once name req now db) !! other = db !! other).
Proof.
  unfold _try_acquire_once, read_or_default.
  destruct (db !! name) as [r|] eqn:E; cbn [fst snd];
    destruct (Qle_bool req _) eqn:Hq; cbn [fst snd];
    rewrite ?lookup_alter_eq, ?lookup_insert_eq, ?E; cbn;
    (split; [reflexivity|split; [reflexivity|]]);
    intros other Hne; rewrite lookup_alter_ne by done;
    rewrite ?lookup_insert_ne by done; reflexivity.
Qed.

Lemma read_or_default_ok name now (db : Buckets) :
  table_ok db -> row_ok (fst (read_or_default name now db)).
Proof.
  intros Hdb. unfold read_or_default.
  destruct (db !! name) as [r|] eqn:E; cbn.
  - by apply (Hdb name).
  - apply default_bucket_ok.
Qed.

Lemma table_ok_try name req now (db : Buckets) :
  (0 <= req)%Q -> table_ok db -> table_ok (snd (_try_acquire_once name req now db)).
Proof.
  intros Hreq Hdb other r.
  destruct (try_acquire_once_result name req now db) as (_ & Hrow & Hother).
  destruct (decide (name = other)) as [<-|Hne].
  - rewrite Hrow. intros [= <-].
    pose proof (read_or_default_ok name now db Hdb) as Hok.
    pose proof (refilled_nonneg now _ Hok) as H0.
    pose proof (refilled_le_capacity now (fst (read_or_default name now db))) as Hc.
    destruct Hok as (_ & _ & Hr).
    unfold row_ok, set_tokens; cbn.
    destruct (Qle_bool req _) eqn:Hq.
    + apply Qle_bool_iff in Hq. repeat split; [lra|lra|exact Hr].
    + repeat split; [lra|lra|exact Hr].
  - rewrite Hother by done. apply Hdb.
Qed.

Lemma table_ok_ensure name cap refill now (db : Buckets) :
  (0 <= cap)%Q -> (0 <= refill)%Q -> table_ok db ->
  table_ok (ensure_bucket name cap refill now db).
Proof.
  intros Hc Hr Hdb. unfold ensure_bucket.
  destruct (db !! name) as [r|] eqn:E; [exact Hdb|].
  intros other r. destruct (decide (name = other)) as [<-|Hne].
  - rewrite lookup_insert_eq. intros [= <-]. unfold row_ok; cbn.
    repeat split; [lra|lra|lra].
  - rewrite lookup_insert_ne by done. apply Hdb.
Qed.

Lemma table_ok_apply (db : Buckets) o : op_ok o -> table_ok db -> table_ok (apply_op db o).
Proof.
  destruct o as [name cap refill now|name req now]; cbn.
  - intros [Hc Hr]. by apply table_ok_ensure.
  - intros Hreq. by apply table_ok_try.
Qed.

Lemma table_ok_fold ops : forall db : Buckets,
  Forall op_ok ops -> table_ok db -> table_ok (fold_left apply_op ops db).
Proof.
  induction ops as [|o ops IH]; intros db Hops Hdb; cbn; [exact Hdb|].
  apply Forall_cons in Hops as [Ho Hops].
  apply IH; [exact Hops|]. by apply table_ok_apply.
Qed.

Lemma table_ok_run ops : Forall op_ok ops -> table_ok (run_ops ops).
Proof.
  intros Hops. apply table_ok_fold; [exact Hops|].
  intros name r. rewrite lookup_empty. discriminate.
Qed.

(** C7, as the code has it: along any history of [ensure_bucket] and
    acquire attempts whose capacities, refill rates and requested
    amounts are not negative, every stored row keeps
    [0 <= tokens <= capacity]; and an attempt first refills to
    [min(capacity, tokens + refill_rate * max(0, now - updated_at))],
    succeeds exactly when that covers the request, and stores the
    refilled amount, less the request when it succeeds, with
    [updated_at = now]. *)
Theorem bucket_invariant (ops : list Op) (name : string) (req now : Q) :
  Forall op_ok ops -> (0 <= req)%Q ->
  let db := run_ops ops in
  let r0 := fst (read_or_default name now db) in
  let current :=
    Qmin (capacity r0) (tokens r0 + refill_rate r0 * Qmax 0 (now - updated_at r0)) in
  table_ok db
  /\ table_ok (snd (_try_acquire_once name req now db))
  /\ fst (_try_acquire_once name req now db) = Qle_bool req current
  /\ snd (_try_acquire_once name req now db) !! name
     = Some {| capacity := capacity r0;
               tokens := if Qle_bool req current then (current - req)%Q else current;
               refill_rate := refill_rate r0;
               updated_at := now |}.
Proof.
  intros Hops Hreq db r0 current.
  pose proof (table_ok_run ops Hops) as Hdb.
  destruct (try_acquire_once_result name req now db) as (Hfst & Hrow & _).
  split; [exact Hdb|]. split; [by apply table_ok_try|].
  split; [exact Hfst|exact Hrow].
Qed.

Lemma bucket_invariant_witness :
  table_ok (run_ops [Ensure "test" 2 1 0; TryAcquire "test" 1 0; TryAcquire "test" 1 0])
  /\ fst (_try_acquire_once "test" 1 (1 # 20)
           (run_ops [Ensure "test" 2 1 0; TryAcquire "test" 1 0; TryAcquire "test" 1 0]))
     = false.
Proof.
  pose proof (bucket_invariant
                [Ensure "test" 2 1 0; TryAcquire "test" 1 0; TryAcquire "test" 1 0]
                "test" 1 (1 # 20)) as H.
  cbv zeta in H.
  destruct H as (Hdb & _ & Hfst & _).
  - repeat constructor; cbn; lra.
  - lra.
  - split; [exact Hdb|]. rewrite Hfst. vm_compute. reflexivity.
Defined.

(** C7 as stated fails for a negative request: on a full bucket of
    capacity 5 an attempt for -1 tokens succeeds and stores 6 tokens. *)
Lemma negative_request_overfills :
  let db : Buckets := {[ "test" := Samples.full_bucket ]} in
  row_ok Samples.full_bucket
  /\ fst (_try_acquire_once "test" (-1) 0 db) = true
  /\ exists r, snd (_try_acquire_once "test" (-1) 0 db) !! "test" = Some r
               /\ (capacity r < tokens r)%Q.
Proof.
  cbv zeta. split; [unfold row_ok; cbn; lra|].
  split; [vm_compute; reflexivity|].
  eexists. split; [vm_compute; reflexivity|]. vm_compute. reflexivity.
Qed.






End LimiterFacts.

(** ** The account rows (C1, C3) *)

Section AccountFacts.
Import Pool.

Lemma select_ready_fold now (l : list (string * Account)) kv :
  foldr (fun kv best => if eligible now (snd kv) then pick_least kv best else best)
        None l = Some kv ->
  kv ∈ l /\ eligible now (snd kv) = true.
Proof.
  induction l as [|x l IH]; cbn [foldr]; [discriminate|].
  destruct (eligible now (snd x)) eqn:Hx.
  - unfold pick_least.
    destruct (foldr _ None l) as [b|] eqn:Hb.
    + destruct (fail_count (snd x) <=? fail_count (snd b))%Z.
      * intros [= <-]. split; [apply list_elem_of_here|exact Hx].
      * intros [= <-]. destruct (IH eq_refl) as [Hin He].
        split; [by apply list_elem_of_further|exact He].
    + intros [= <-]. split; [apply list_elem_of_here|exact Hx].
  - intros H. destruct (IH H) as [Hin He].
    split; [by apply list_elem_of_further|exact He].
Qed.

(** The row that [acquire] selects is ready and out of cooldown. *)
Lemma select_ready_eligible now (db : Accounts) id r :
  select_ready now db = Some (id, r) ->
  db !! id = Some r /\ status r = Ready
  /\ exists c, cooldown_until r = Some c /\ (c <= now)%Q.
Proof.
  intros H. apply select_ready_fold in H as [Hin He]. cbn in He.
  apply elem_of_map_to_list in Hin. split; [exact Hin|].
  unfold eligible in He. apply andb_prop in He as [Hs Hc].
  apply bool_decide_eq_true in Hs. split; [exact Hs|].
  destruct (cooldown_until r) as [c|]; [|discriminate].
  exists c. split; [reflexivity|]. by apply Qle_bool_iff.
Qed.

Lemma to_check_rows now (db : Accounts) kv :
  kv ∈ Manager.to_check now (Manager._fetch_accounts db) ->
  db !! fst kv = Some (snd kv) /\ status (snd kv) = Ready
  /\ (Manager.cooldown_or_0 (snd kv) <= now)%Q.
Proof.
  unfold Manager.to_check, Manager._fetch_accounts. intros H.
  apply list_elem_of_In, filter_In in H as [Hin Hf].
  apply list_elem_of_In in Hin. destruct kv as [id r].
  apply elem_of_map_to_list in Hin. split; [exact Hin|].
  unfold Manager.to_check_row in Hf. apply andb_prop in Hf as [Hs Hc].
  apply bool_decide_eq_true in Hs. split; [exact Hs|]. by apply Qle_bool_iff.
Qed.

(** C3, as the code has it: the health manager's three writes and the
    pool's flip to 'leased' are each [UPDATE ... WHERE account_id=?].
    They rewrite the row with that id whatever its status and touch no
    other row. The manager issues them for rows that its snapshot showed
    ready and out of cooldown, and [acquire] flips the row that its
    SELECT found ready and out of cooldown. *)
Theorem account_writes_keyed_by_id now id seconds reason (db : Accounts) :
  Manager._update_on_success now id db !! id = Manager.success_row now <$> db !! id
  /\ Manager._cooldown now id seconds reason db !! id
     = Manager.cooldown_row (now + inject_Z (Z.max 1 seconds))%Q reason <$> db !! id
  /\ Manager._quarantine id reason db !! id = quarantine_row reason <$> db !! id
  /\ mark_leased id db !! id = set_leased <$> db !! id
  /\ (forall other, id <> other ->
        Manager._update_on_success now id db !! other = db !! other
        /\ Manager._cooldown now id seconds reason db !! other = db !! other
        /\ Manager._quarantine id reason db !! other = db !! other
        /\ mark_leased id db !! other = db !! other)
  /\ (forall kv, kv ∈ Manager.to_check now (Manager._fetch_accounts db) ->
        db !! fst kv = Some (snd kv) /\ status (snd kv) = Ready
        /\ (Manager.cooldown_or_0 (snd kv) <= now)%Q)
  /\ (forall sel db', _select_and_mark now db = (Some sel, db') ->
        db' = mark_leased (fst sel) db
        /\ exists r, db !! fst sel = Some r /\ cred r = snd sel /\ status r = Ready
                     /\ exists c, cooldown_until r = Some c /\ (c <= now)%Q).
Proof.
  unfold Manager._update_on_success, Manager._cooldown, Manager._quarantine, mark_leased.
  rewrite !lookup_alter_eq.
  split; [reflexivity|]. split; [reflexivity|]. split; [reflexivity|].
  split; [reflexivity|]. split.
  { intros other Hne. rewrite !lookup_alter_ne by done. done. }
  split; [apply to_check_rows|].
  intros sel db'. unfold _select_and_mark.
  destruct (select_ready now db) as [[sid r]|] eqn:Hsel; [|discriminate].
  intros [= <- <-]. cbn. split; [reflexivity|].
  apply select_ready_eligible in Hsel as (Hr & Hs & Hc).
  exists r. done.
Qed.

(** C3 as stated fails. The manager snapshots acct-1 while it is ready;
    a worker then leases it; the manager's success write, issued on the
    leased row, sets it back to 'ready'. And the flip of [acquire],
    applied to a quarantined row, makes it 'leased'. *)
Lemma leased_row_overwritten :
  let snapshot := Manager._fetch_accounts Samples.ready_db in
  let db1 := snd (_select_and_mark (10 # 1) Samples.ready_db) in
  let db2 := Manager._check_one Manager.default_config ("acct-1", Samples.ready_row)
               None (20 # 1) db1 in
  ("acct-1", Samples.ready_row) ∈ Manager.to_check (5 # 1) snapshot
  /\ status <$> db1 !! "acct-1" = Some Leased
  /\ status <$> db2 !! "acct-1" = Some Ready
  /\ status <$> Samples.seeded_db !! "acct-1" = Some Quarantine
  /\ status <$> mark_leased "acct-1" Samples.seeded_db !! "acct-1" = Some Leased.
Proof.
  cbv zeta. split.
  { apply list_elem_of_In. vm_compute. left. reflexivity. }
  repeat split; vm_compute; reflexivity.
Qed.

Lemma alter_alter_eq (f g : Account -> Account) id (db : Accounts) :
  alter f id (alter g id db) !! id = (fun r => f (g r)) <$> db !! id.
Proof. rewrite !lookup_alter_eq. by destruct (db !! id). Qed.

(** C1: the code breaks it. After a scrape that failed with an
    auth-classified message the worker quarantines the account and then
    releases the lease, and the release sets the row back to 'ready'
    (with [last_error = 'auth'], one more failure and the pool's
    cooldown). *)
Theorem auth_failure_leaves_row_ready cfg lease msg now (t : Accounts) r :
  t !! account_id lease = Some r ->
  Orchestrator_classify._looks_rate_limited msg = false ->
  Orchestrator_classify._looks_auth_ban msg = true ->
  Orchestrator.on_scrape_error cfg lease msg now t !! account_id lease
  = Some {| cred := cred r; status := Ready;
            cooldown_until :=
              Some (now + inject_Z (Orchestrator.pool_cooldown_seconds cfg))%Q;
            fail_count := fail_count r + 1;
            last_error := Some "auth"; proxy_id := proxy_id r |}.
Proof.
  intros Hr Hrate Hauth. unfold Orchestrator.on_scrape_error. cbv zeta.
  rewrite Hrate, Hauth. unfold lease_release, release, quarantine.
  rewrite alter_alter_eq, Hr. reflexivity.
Qed.

Lemma auth_failure_leaves_row_ready_witness :
  Orchestrator.on_scrape_error Orchestrator.default_config Samples.lease_1
    "received 401 HTTP response" (200 # 1) Samples.leased_db !! "acct-1"
  = Some {| cred := Samples.dummy_cred; status := Ready;
            cooldown_until := Some ((200 # 1) + inject_Z 60)%Q;
            fail_count := 0 + 1;
            last_error := Some "auth"; proxy_id := None |}.
Proof.
  apply (auth_failure_leaves_row_ready Orchestrator.default_config Samples.lease_1
           "received 401 HTTP response" (200 # 1) Samples.leased_db Samples.leased_row).
  - reflexivity.
  - vm_compute. reflexivity.
  - vm_compute. reflexivity.
Defined.

(** A second release of the same lease is not a no-op either: it counts
    one more failure. *)
Lemma double_release_counts_twice cs lease now now' (t : Accounts) r :
  t !! account_id lease = Some r ->
  fail_count <$> release cs lease false now' (release cs lease false now t)
                 !! account_id lease
  = Some (fail_count r + 1 + 1)%Z.
Proof.
  intros Hr. unfold release. rewrite alter_alter_eq, Hr. reflexivity.
Qed.

(** The rate-limit branch has the same shape: the 120 s cooldown is
    overwritten by the pool's own cooldown of the release that follows. *)
Lemma rate_limit_cooldown_overwritten cfg lease msg now (t : Accounts) r :
  t !! account_id lease = Some r ->
  Orchestrator_classify._looks_rate_limited msg = true ->
  cooldown_until <$> Orchestrator.on_scrape_error cfg lease msg now t !! account_id lease
  = Some (Some (now + inject_Z (Orchestrator.pool_cooldown_seconds cfg))%Q).
Proof.
  intros Hr Hrate. unfold Orchestrator.on_scrape_error. cbv zeta.
  rewrite Hrate. unfold lease_release, release, cooldown.
  rewrite alter_alter_eq, Hr. reflexivity.
Qed.

End AccountFacts.

(** ** The worker: checkpoints and job cooldown (C4, C2) *)

Section WorkerFacts.
Import Pool Orchestrator.

(** What the steps of an iteration leave alone. *)
Lemma try_upsert_frame wid acct sub post comment w :
  job_state (try_upsert wid acct sub post comment w) = job_state w
  /\ fs (try_upsert wid acct sub post comment w) = fs w
  /\ clock (try_upsert wid acct sub post comment w) = clock w
  /\ (Store.tbl_checkpoints (db w) = None ->
      try_upsert wid acct sub post comment w = w).
Proof.
  unfold try_upsert, Store.upsert.
  destruct (Store.tbl_checkpoints (db w)); cbn; done.
Qed.

Lemma pool_acquire_frame during w res w1 :
  pool_acquire during w = (res, w1) ->
  job_state w1 = job_state w /\ fs w1 = fs w
  /\ Store.tbl_checkpoints (db w1) = Store.tbl_checkpoints (db w).
Proof.
  unfold pool_acquire. destruct (Store.tbl_accounts (db w)) as [t|].
  - destruct (Pool.acquire (clock w) during t) as [[r t'] later].
    intros [= <- <-]. done.
  - intros [= <- <-]. done.
Qed.

Lemma error_path_frame cfg wid lease sub msg w :
  job_state (error_path cfg wid lease sub msg w) = job_state w
  /\ fs (error_path cfg wid lease sub msg w) = fs w
  /\ Store.tbl_checkpoints (db (error_path cfg wid lease sub msg w))
     = Store.tbl_checkpoints
         (db (try_upsert wid (Some (account_id lease)) (Some sub) None None
                (on_accounts (on_scrape_error cfg lease msg (clock w)) w))).
Proof.
  unfold error_path. cbv zeta. cbn [sleep job_state fs db].
  pose proof (try_upsert_frame wid (Some (account_id lease)) (Some sub) None None
                (on_accounts (on_scrape_error cfg lease msg (clock w)) w))
    as (Hj & Hf & _ & _).
  rewrite Hj, Hf. done.
Qed.

Lemma no_checkpoints_error_path cfg wid lease sub msg w :
  Store.tbl_checkpoints (db w) = None ->
  Store.tbl_checkpoints (db (error_path cfg wid lease sub msg w)) = None.
Proof.
  intros H. destruct (error_path_frame cfg wid lease sub msg w) as (_ & _ & ->).
  rewrite (proj2 (proj2 (proj2 (try_upsert_frame _ _ _ _ _ _)))); cbn; exact H.
Qed.

Lemma no_checkpoints_iteration cfg wid path inp w :
  Store.tbl_checkpoints (db w) = None ->
  Store.tbl_checkpoints (db (worker_iteration cfg wid path inp w)) = None.
Proof.
  intros H. unfold worker_iteration.
  destruct (pool_acquire (during_acquire inp) w) as [[e|lease] w1] eqn:Hacq;
    apply pool_acquire_frame in Hacq as (_ & _ & Hck); rewrite H in Hck.
  - exact Hck.
  - destruct (build inp) as [label_value|]; [|exact Hck].
    destruct (_build_options cfg) as [options|]; [|exact Hck].
    cbv zeta.
    rewrite (proj2 (proj2 (proj2 (try_upsert_frame wid _ _ None None w1)))) by exact Hck.
    destruct (outcome inp) as [entities|msg|].
    + destruct (_mark_job_cooldown _ _ _ _ _) as [[|] st].
      * destruct (_extract_last_ids entities) as [lp lc].
        rewrite (proj2 (proj2 (proj2 (try_upsert_frame wid _ _ lp lc _))));
          cbn; exact Hck.
      * apply no_checkpoints_error_path. cbn. exact Hck.
    + apply no_checkpoints_error_path. cbn. exact Hck.
    + cbn. exact Hck.
Qed.

(** C4: the code breaks it. [AccountPool._init_schema] creates the
    tables accounts and proxies only; nothing creates the table
    checkpoints that [WorkerCheckpointStore] writes to. On the database
    that the pool sets up, every [upsert] and every [get] raises
    "no such table", the worker swallows the error, and after any
    iteration there still is no checkpoint table, hence no row to read. *)
Theorem worker_checkpoints_never_stored cfg wid path inp
    (accounts : option (gmap string Account)) proxies
    (js : JobState) (files : FS) (t : Q) :
  let created := Store._init_schema Store.fresh_db in
  let w := {| db := {| Store.tbl_accounts := accounts; Store.tbl_proxies := proxies;
                       Store.tbl_checkpoints := Store.tbl_checkpoints created |};
              job_state := js; fs := files; clock := t |} in
  (forall acct sub post comment updated now,
      Store.upsert wid acct sub post comment updated now created
      = inl (Store.NoSuchTable "checkpoints"))
  /\ Store.get wid created = inl (Store.NoSuchTable "checkpoints")
  /\ Store.get wid (db (worker_iteration cfg wid path inp w))
     = inl (Store.NoSuchTable "checkpoints").
Proof.
  cbv zeta. split; [reflexivity|]. split; [reflexivity|].
  unfold Store.get. rewrite no_checkpoints_iteration; reflexivity.
Qed.

(** The whole iteration on the sample world, with a scrape that returns
    a post and a comment: no checkpoint can be read afterwards. *)
Lemma checkpoint_lost_on_success :
  Store.get "0"
    (db (worker_iteration default_config "0" Samples.job_state_path
           (Samples.input_of (Scraped [Some "t3_abc"; Some "t1_def"])) Samples.world_0))
  = inl (Store.NoSuchTable "checkpoints")
  /\ _extract_last_ids [Some "t3_abc"; Some "t1_def"] = (Some "t3_abc", Some "t1_def").
Proof. split; vm_compute; reflexivity. Qed.

(** The whole iteration on the sample world, with a scrape that raises
    an auth error: the account ends 'ready'. *)
Lemma iteration_auth_failure_row_ready :
  (fun r => (status r, last_error r, fail_count r))
    <$> (Store.tbl_accounts
           (db (worker_iteration default_config "0" Samples.job_state_path
                  (Samples.input_of (Raised "received 401 HTTP response"))
                  Samples.world_0))
         ≫= (fun t => t !! "acct-1"))
  = Some (Ready, Some "auth", 1%Z).
Proof. vm_compute. reflexivity. Qed.

(** [random.randint(a, b)] stays in [a, b], and every value of the
    range can be drawn. *)
Lemma randint_range a b d u : randint a b d = Some u -> (a <= u <= b)%Z.
Proof.
  unfold randint. destruct (a <=? b)%Z eqn:Hab; [|discriminate].
  apply Z.leb_le in Hab. intros [= <-].
  pose proof (Z.mod_pos_bound d (b - a + 1)). lia.
Qed.

Lemma randint_onto a b u : (a <= u <= b)%Z -> randint a b (u - a) = Some u.
Proof.
  intros H. unfold randint.
  destruct (a <=? b)%Z eqn:Hab; [|apply Z.leb_gt in Hab; lia].
  rewrite Z.mod_small by lia. f_equal. lia.
Qed.

(** Write-then-rename: while the temp file is written the target keeps
    its old content, and after the rename it holds the new content and
    the temp file is gone. *)
Lemma save_json_atomic path data (files : FS) :
  with_suffix path ".tmp" <> path ->
  let '(fs1, fs2) := _save_json_steps path data files in
  fs1 path = files path
  /\ fs1 (with_suffix path ".tmp") = Some data
  /\ fs2 path = Some data
  /\ fs2 (with_suffix path ".tmp") = None
  /\ (forall q, q <> path -> q <> with_suffix path ".tmp" -> fs2 q = files q).
Proof.
  intros Hne. unfold _save_json_steps, replace, write_text. cbv zeta.
  repeat split.
  - destruct (decide (path = with_suffix path ".tmp")); [congruence|reflexivity].
  - destruct (decide (with_suffix path ".tmp" = with_suffix path ".tmp")); done.
  - destruct (decide (path = path)); [|done].
    destruct (decide (with_suffix path ".tmp" = with_suffix path ".tmp")); done.
  - destruct (decide (with_suffix path ".tmp" = path)); [done|].
    destruct (decide (with_suffix path ".tmp" = with_suffix path ".tmp")); done.
  - intros q Hq1 Hq2.
    destruct (decide (q = path)); [done|].
    destruct (decide (q = with_suffix path ".tmp")); done.
Qed.

Lemma save_json_target path data (files : FS) :
  _save_json path data files path = Some data.
Proof.
  unfold _save_json, _save_json_steps, replace, write_text. cbn.
  destruct (decide (path = path)); [|done].
  destruct (decide (with_suffix path ".tmp" = with_suffix path ".tmp")); done.
Qed.

Lemma build_options_limit cfg :
  (_build_options cfg = None <-> (ENTITY_LIMIT cfg <= 0)%Z)
  /\ ((0 < ENTITY_LIMIT cfg)%Z -> exists o, _build_options cfg = Some o).
Proof.
  unfold _build_options, Planner.valid, Planner.validation_errors. cbv zeta.
  cbn [omap list_omap Planner._non_empty_listing_types Planner._search_requires_queries
       Planner._non_negative_target Planner._positive_limit
       Planner.listing_types Planner.search_queries Planner.pagination_target
       Planner.per_listing_limit Planner.default_options Planner.has_search
       Planner.or_empty default].
  destruct (Z.leb_spec (ENTITY_LIMIT cfg) 0) as [H|H].
  - split; [split; [intros _; lia|reflexivity]|lia].
  - split; [split; [vm_compute; discriminate|lia]|]. intros _. eexists. vm_compute.
    reflexivity.
Qed.

(** C2, as the code has it: when a worker holds a lease, has built its
    configuration and the scrape returns, the job's entry becomes
    [last_run_ts = now], [next_eligible_ts = now + u], where [u] is the
    value that [random.randint(JOB_COOLDOWN_MIN, JOB_COOLDOWN_MAX)]
    returns for the draw of this run, a value of that range (and any
    value of the range can come out); [randint] returns whenever
    [JOB_COOLDOWN_MIN <= JOB_COOLDOWN_MAX]. The state is saved by writing
    the temp file and renaming it over the state file, which keeps its
    old content until the rename. When the scrape raises or is
    cancelled, the job state and the state file are left as they were.
    [now] is the clock when the scrape ends. *)
Theorem job_cooldown_after_run cfg wid path inp w lease w1 label_value :
  pool_acquire (during_acquire inp) w = (inr lease, w1) ->
  build inp = Some label_value ->
  (0 < ENTITY_LIMIT cfg)%Z ->
  let w' := worker_iteration cfg wid path inp w in
  let now := (clock w1 + scrape_seconds inp)%Q in
  (forall entities u,
     outcome inp = Scraped entities ->
     _job_cooldown_window cfg (draw inp) = Some u ->
     (JOB_COOLDOWN_MIN cfg <= u <= JOB_COOLDOWN_MAX cfg)%Z
     /\ job_state w'
        = <[job_id (job inp) :=
              {| last_run_ts := Some now;
                 next_eligible_ts := Some (now + inject_Z u)%Q |}]> (job_state w)
     /\ fs w' = snd (_save_json_steps path (job_state w') (fs w))
     /\ fs w' path = Some (job_state w')
     /\ (with_suffix path ".tmp" <> path ->
         fst (_save_json_steps path (job_state w') (fs w)) path = fs w path
         /\ fs w' (with_suffix path ".tmp") = None))
  /\ ((JOB_COOLDOWN_MIN cfg <= JOB_COOLDOWN_MAX cfg)%Z ->
      _job_cooldown_window cfg (draw inp)
      = Some (JOB_COOLDOWN_MIN cfg
              + draw inp mod (JOB_COOLDOWN_MAX cfg - JOB_COOLDOWN_MIN cfg + 1))%Z)
  /\ (forall msg, outcome inp = Raised msg ->
        job_state w' = job_state w /\ fs w' = fs w)
  /\ (outcome inp = Cancelled -> job_state w' = job_state w /\ fs w' = fs w)
  /\ (forall u, (JOB_COOLDOWN_MIN cfg <= u <= JOB_COOLDOWN_MAX cfg)%Z ->
        exists d, _job_cooldown_window cfg d = Some u).
Proof.
  intros Hacq Hbuild Hlimit w' now.
  pose proof (pool_acquire_frame _ _ _ _ Hacq) as (Hj1 & Hf1 & _).
  destruct (proj2 (build_options_limit cfg) Hlimit) as [options Hopt].
  assert (Hw' : w' = worker_iteration cfg wid path inp w) by reflexivity.
  unfold worker_iteration in Hw'. rewrite Hacq, Hbuild, Hopt in Hw'. cbv zeta in Hw'.
  split; [|split; [|split; [|split]]].
  - intros entities u Hout Hu.
    rewrite Hout in Hw'. unfold _mark_job_cooldown in Hw'. cbv zeta in Hw'.
    rewrite Hu in Hw'.
    split; [by apply randint_range in Hu|].
    destruct (_extract_last_ids entities) as [lp lc].
    cbn [on_accounts set_db job_state fs] in Hw'.
    assert (Hjs : job_state w'
                  = <[job_id (job inp) :=
                        {| last_run_ts := Some now;
                           next_eligible_ts := Some (now + inject_Z u)%Q |}]>
                      (job_state w)
                  /\ fs w' = _save_json path (job_state w') (fs w)).
    { rewrite Hw'. cbn [job_state fs db clock set_db on_accounts].
      match goal with
      | |- context [try_upsert ?a ?b ?c lp lc ?x] =>
          pose proof (try_upsert_frame a b c lp lc x) as (Hj5 & Hf5 & _ & _)
      end.
      rewrite Hj5, Hf5. cbn [job_state fs sleep on_accounts set_db clock].
      match goal with
      | |- context [try_upsert ?a ?b ?c None None w1] =>
          pose proof (try_upsert_frame a b c None None w1) as (Hj2 & Hf2 & Hc2 & _)
      end.
      rewrite Hj2, Hf2, Hc2, Hj1, Hf1. split; reflexivity. }
    destruct Hjs as [Hjs Hfs]. split; [exact Hjs|].
    split; [exact Hfs|]. split; [rewrite Hfs; apply save_json_target|].
    intros Hne.
    pose proof (save_json_atomic path (job_state w') (fs w) Hne) as Hat.
    rewrite Hfs. unfold _save_json.
    destruct (_save_json_steps path (job_state w') (fs w)) as [fs1 fs2].
    cbn [fst snd]. destruct Hat as (H1 & _ & _ & H4 & _). by split.
  - intros Hcfg. unfold _job_cooldown_window, randint.
    apply Z.leb_le in Hcfg. by rewrite Hcfg.
  - intros msg Hout. rewrite Hout in Hw'. rewrite Hw'.
    match goal with
    | |- context [error_path ?c ?i ?l ?s ?m ?x] =>
        pose proof (error_path_frame c i l s m x) as (Hj & Hf & _)
    end.
    rewrite Hj, Hf. cbn [job_state fs sleep on_accounts set_db].
    match goal with
    | |- context [try_upsert ?a ?b ?c None None w1] =>
        pose proof (try_upsert_frame a b c None None w1) as (Hj2 & Hf2 & _ & _)
    end.
    rewrite Hj2, Hf2, Hj1, Hf1. done.
  - intros Hout. rewrite Hout in Hw'. rewrite Hw'.
    cbn [job_state fs sleep on_accounts set_db].
    match goal with
    | |- context [try_upsert ?a ?b ?c None None w1] =>
        pose proof (try_upsert_frame a b c None None w1) as (Hj2 & Hf2 & _ & _)
    end.
    rewrite Hj2, Hf2, Hj1, Hf1. done.
  - intros u Hu. exists (u - JOB_COOLDOWN_MIN cfg)%Z. by apply randint_onto.
Qed.

Lemma job_cooldown_after_run_witness :
  job_state (worker_iteration default_config "0" Samples.job_state_path
               (Samples.input_of (Scraped [Some "t3_abc"])) Samples.world_0)
  = {[ "job-1" := {| last_run_ts := Some ((100 # 1) + (7 # 1))%Q;
                     next_eligible_ts :=
                       Some ((100 # 1) + (7 # 1) + inject_Z 1450)%Q |} ]}.
Proof.
  destruct (job_cooldown_after_run default_config "0" Samples.job_state_path
              (Samples.input_of (Scraped [Some "t3_abc"])) Samples.world_0
              Samples.lease_1
              {| db := {| Store.tbl_accounts := Some Samples.leased_db;
                          Store.tbl_proxies := Some ∅;
                          Store.tbl_checkpoints := None |};
                 job_state := ∅; fs := fun _ => None; clock := 100 # 1 |}
              (fun l => l))
    as (Hok & _).
  - reflexivity.
  - reflexivity.
  - reflexivity.
  - destruct (Hok [Some "t3_abc"] 1450%Z eq_refl eq_refl) as (_ & Hjs & _).
    rewrite Hjs. reflexivity.
Defined.

(** C2 as stated fails for a run that raises: the lease is taken, the
    scrape fails, and the job has no runtime entry and the state file
    does not exist afterwards: the job stays ready. *)
Lemma failed_run_not_cooled_down :
  let inp := Samples.input_of (Raised "connection reset by peer") in
  let w' := worker_iteration default_config "0" Samples.job_state_path inp Samples.world_0 in
  fst (pool_acquire (during_acquire inp) Samples.world_0) = inr Samples.lease_1
  /\ job_state w' !! "job-1" = None
  /\ fs w' Samples.job_state_path = None
  /\ _job_ready Samples.job_1 (job_state w') (clock w') = true.
Proof. cbv zeta. repeat split; vm_compute; reflexivity. Qed.

End WorkerFacts.

(** ** The supervisor (C6) *)

Section SupervisorFacts.
Import Pool Orchestrator Spec_model.

Lemma spawn_ok add : forall s,
  registry_ok s ->
  registry_ok (spawn add s)
  /\ length (workers (spawn add s)) = (length (workers s) + add)%nat.
Proof.
  induction add as [|add IH]; intros s [Hnd Hlt]; cbn [spawn].
  - split; [done|lia].
  - assert (Hfresh : next_worker_id s ∉ workers s).
    { intros Hin. apply Hlt in Hin. lia. }
    destruct (IH {| workers := dict_set (next_worker_id s) (workers s);
                    next_worker_id := next_worker_id s + 1;
                    running := running s |}) as [Hok Hlen].
    + unfold dict_set. rewrite bool_decide_eq_false_2 by exact Hfresh. cbn. split.
      * apply NoDup_app. split; [exact Hnd|]. split; [|apply NoDup_singleton].
        intros x Hx Hx'. apply list_elem_of_singleton in Hx' as ->. done.
      * intros wid Hin. apply elem_of_app in Hin as [Hin|Hin].
        -- apply Hlt in Hin. cbn. lia.
        -- apply list_elem_of_singleton in Hin as ->. cbn. lia.
    + split; [exact Hok|]. rewrite Hlen. cbn. unfold dict_set.
      rewrite bool_decide_eq_false_2 by exact Hfresh.
      rewrite length_app. cbn. lia.
Qed.

Lemma dict_pop_head wid (ws : list Z) : wid ∉ ws -> dict_pop wid (wid :: ws) = ws.
Proof.
  intros Hnin. unfold dict_pop. cbn. rewrite Z.eqb_refl. cbn.
  induction ws as [|x ws IH]; cbn; [reflexivity|].
  apply not_elem_of_cons in Hnin as [Hne Hnin].
  destruct (Z.eqb_spec x wid) as [->|_]; [done|]. cbn. f_equal. by apply IH.
Qed.

Lemma spawn_running add : forall s, running (spawn add s) = running s.
Proof. induction add as [|add IH]; intros s; cbn [spawn]; [reflexivity|by rewrite IH]. Qed.

(** The cancel loop when every awaited worker returns: the first
    [to_cancel] workers of the registry go. *)
Lemma cancel_loop_through (returns : Z -> bool) (ws : list Z) : forall k,
  NoDup ws ->
  (forall wid, wid ∈ take (Z.to_nat k) ws -> returns wid = true) ->
  cancel_loop returns ws k ws = (drop (Z.to_nat k) ws, true).
Proof.
  induction ws as [|wid ws IH]; intros k Hnd Hret; cbn [cancel_loop].
  - by rewrite drop_nil.
  - apply NoDup_cons in Hnd as [Hnin Hnd].
    destruct (Z.leb_spec k 0) as [Hk|Hk].
    + replace (Z.to_nat k) with 0%nat by lia. reflexivity.
    + replace (Z.to_nat k) with (S (Z.to_nat (k - 1))) in * by lia.
      cbn [take drop] in *.
      rewrite (Hret wid) by apply list_elem_of_here.
      rewrite dict_pop_head by exact Hnin. apply IH; [exact Hnd|].
      intros w Hw. apply Hret. by apply list_elem_of_further.
Qed.

(** The cancel loop when the await of worker number [j] raises
    [CancelledError]: the [j] workers before it go, it stays, and the
    loop is left. *)
Lemma cancel_loop_stops (returns : Z -> bool) (ws : list Z) : forall k j wid,
  NoDup ws -> (j < Z.to_nat k)%nat -> ws !! j = Some wid -> returns wid = false ->
  (forall w, w ∈ take j ws -> returns w = true) ->
  cancel_loop returns ws k ws = (drop j ws, false).
Proof.
  induction ws as [|x ws IH]; intros k j wid Hnd Hj Hlook Hwid Hret; [done|].
  cbn [cancel_loop]. apply NoDup_cons in Hnd as [Hnin Hnd].
  destruct (Z.leb_spec k 0) as [Hk|Hk]; [lia|].
  destruct j as [|j]; cbn [lookup list_lookup take drop] in *.
  - injection Hlook as ->. by rewrite Hwid.
  - rewrite (Hret x) by apply list_elem_of_here.
    rewrite dict_pop_head by exact Hnin.
    apply (IH (k - 1)%Z j wid); [exact Hnd|lia|exact Hlook|exact Hwid|].
    intros w Hw. apply Hret. by apply list_elem_of_further.
Qed.

Lemma cancel_loop_suffix (returns : Z -> bool) (ws : list Z) : forall k,
  NoDup ws -> exists j, fst (cancel_loop returns ws k ws) = drop j ws.
Proof.
  induction ws as [|x ws IH]; intros k Hnd; cbn [cancel_loop]; [by exists 0%nat|].
  apply NoDup_cons in Hnd as [Hnin Hnd].
  destruct (k <=? 0)%Z; [by exists 0%nat|].
  destruct (returns x); [|by exists 0%nat].
  rewrite dict_pop_head by exact Hnin.
  destruct (IH (k - 1)%Z Hnd) as [j Hj]. by exists (S j).
Qed.

Lemma dict_pop_sub wid (ws : list Z) x : x ∈ dict_pop wid ws -> x ∈ ws.
Proof.
  unfold dict_pop. intros H. apply list_elem_of_In, filter_In in H as [H _].
  by apply list_elem_of_In.
Qed.

Lemma dict_pop_NoDup wid (ws : list Z) : NoDup ws -> NoDup (dict_pop wid ws).
Proof.
  induction 1 as [|x l Hx Hnd IH]; unfold dict_pop in *; cbn; [constructor|].
  destruct (negb (x =? wid)%Z); [|exact IH].
  constructor; [|exact IH]. intros Hin. apply Hx. by apply (dict_pop_sub wid).
Qed.

Lemma reap_fold_ok (done : Z -> bool) (snapshot : list Z) : forall ws : list Z,
  NoDup ws ->
  NoDup (fold_left (fun ws wid => if done wid then dict_pop wid ws else ws) snapshot ws)
  /\ forall x,
       x ∈ fold_left (fun ws wid => if done wid then dict_pop wid ws else ws) snapshot ws ->
       x ∈ ws.
Proof.
  induction snapshot as [|wid snapshot IH]; intros ws Hnd; cbn [fold_left]; [done|].
  destruct (done wid).
  - destruct (IH (dict_pop wid ws) (dict_pop_NoDup wid ws Hnd)) as [H1 H2].
    split; [exact H1|]. intros x Hx. eapply dict_pop_sub. by apply H2.
  - by apply IH.
Qed.

Lemma scale_ok health returns s : registry_ok s -> registry_ok (scale health returns s).
Proof.
  intros Hok. unfold scale. cbv zeta.
  set (target := target_workers (health_get health Ready)).
  set (current := Z.of_nat (length (workers s))).
  destruct (Z.ltb_spec current target) as [Hup|Hup].
  - destruct (Z.ltb_spec target current); [lia|]. by apply spawn_ok.
  - destruct (Z.ltb_spec target current) as [Hdown|Hdown]; [|exact Hok].
    destruct Hok as [Hnd Hlt].
    destruct (cancel_loop_suffix returns (workers s) (current - target) Hnd) as [j Hj].
    destruct (cancel_loop returns (workers s) (current - target) (workers s))
      as [ws through]. cbn [fst] in Hj. subst ws. split; cbn.
    + eapply sublist_NoDup; [exact Hnd|apply sublist_drop].
    + intros wid Hin. apply Hlt. eapply elem_of_sublist; [exact Hin|apply sublist_drop].
Qed.

Lemma tick_ok s inp : registry_ok s -> registry_ok (tick s inp).
Proof.
  intros Hok. unfold tick. destruct (running s); [|exact Hok]. cbv zeta.
  apply (scale_ok (tick_health inp) (tick_await_returns inp)) in Hok.
  destruct (running (scale _ _ s)); [|exact Hok]. destruct Hok as [Hnd Hlt].
  unfold reap.
  destruct (reap_fold_ok (tick_done inp)
              (workers (scale (tick_health inp) (tick_await_returns inp) s))
              (workers (scale (tick_health inp) (tick_await_returns inp) s)) Hnd)
    as [H1 H2].
  split; cbn; [exact H1|]. intros wid Hin. apply Hlt. by apply H2.
Qed.

Lemma run_ticks_ok inps : registry_ok (run_ticks inps).
Proof.
  unfold run_ticks.
  assert (H0 : registry_ok initial_supervisor).
  { split; cbn; [apply NoDup_nil_2|]. intros wid Hin. by apply elem_of_nil in Hin. }
  revert H0. generalize initial_supervisor.
  induction inps as [|inp inps IH]; intros s Hs; cbn [fold_left]; [exact Hs|].
  apply IH. by apply tick_ok.
Qed.

(** After the scaling step the registry holds exactly [target] workers,
    when awaiting every worker that is cancelled returns. *)
Lemma scale_reaches_target health returns s :
  registry_ok s ->
  let target := target_workers (health_get health Ready) in
  let current := Z.of_nat (length (workers s)) in
  (forall wid, wid ∈ take (Z.to_nat (current - target)) (workers s) ->
     returns wid = true) ->
  Z.of_nat (length (workers (scale health returns s))) = target
  /\ running (scale health returns s) = running s.
Proof.
  intros Hok target current Hret. unfold scale. cbv zeta.
  fold target. fold current.
  assert (Ht : (0 <= target)%Z) by (unfold target, target_workers; lia).
  destruct (Z.ltb_spec current target) as [Hup|Hup].
  - destruct (Z.ltb_spec target current); [lia|].
    destruct (spawn_ok (Z.to_nat (target - current)) s Hok) as [_ ->].
    split; [lia|apply spawn_running].
  - destruct (Z.ltb_spec target current) as [Hdown|Hdown]; [|split; [lia|reflexivity]].
    destruct Hok as [Hnd _].
    rewrite (cancel_loop_through returns (workers s) (current - target) Hnd Hret).
    cbn. rewrite length_drop, andb_true_r. split; [lia|reflexivity].
Qed.

Lemma health_get_ready (db : Accounts) :
  health_get (Some (health_report db)) Ready = Z.of_nat (count_status Ready db).
Proof.
  unfold health_get, health_report. cbv zeta.
  destruct (Nat.eqb_spec (count_status Ready db) 0) as [->|_]; reflexivity.
Qed.

Lemma target_workers_floor (n : nat) :
  target_workers (Z.of_nat n) = floor_three_quarters n.
Proof.
  unfold target_workers, floor_three_quarters, py_int, Qfloor.
  cbn [Qmult inject_Z Qnum Qden]. rewrite Z.quot_div_nonneg by lia.
  apply Z.max_r. apply Z.div_pos; lia.
Qed.

(** C6, as the code has it: on every tick the target is
    floor(0.75 * n) where n is the number of rows whose status is
    'ready', cooling or not ([health_report] groups by status only), and
    0 when reading the report raised; the scaling step of the tick
    brings the registry to exactly that many workers, by spawning or by
    cancelling the surplus, when awaiting each worker that it cancels
    returns, and the loop then goes on as before; eight ready rows give
    a target of 6. *)
Theorem supervisor_target inps health await_returns (db : Accounts) :
  let s := run_ticks inps in
  let target := target_workers (health_get health Ready) in
  let current := Z.of_nat (length (workers s)) in
  (health = Some (health_report db) ->
     target = floor_three_quarters (count_status Ready db))
  /\ (health = None -> target = 0%Z)
  /\ ((forall wid, wid ∈ take (Z.to_nat (current - target)) (workers s) ->
         await_returns wid = true) ->
      Z.of_nat (length (workers (scale health await_returns s))) = target
      /\ running (scale health await_returns s) = running s)
  /\ floor_three_quarters 8 = 6%Z.
Proof.
  cbv zeta. split; [|split; [|split]].
  - intros ->. rewrite health_get_ready. apply target_workers_floor.
  - intros ->. reflexivity.
  - apply scale_reaches_target, run_ticks_ok.
  - reflexivity.
Qed.

Lemma supervisor_target_witness :
  let inps := [ {| tick_health := Some (health_report Samples.eight_cooling);
                   tick_await_returns := fun _ => true;
                   tick_done := fun wid => (wid =? 4)%Z |} ] in
  workers (run_ticks inps) = [0; 1; 2; 3; 5]%Z
  /\ Z.of_nat (length (workers (scale (Some (health_report Samples.ready_db))
                                      (fun wid => negb (wid =? 9)%Z) (run_ticks inps))))
     = 0%Z
  /\ running (scale (Some (health_report Samples.ready_db))
                 (fun wid => negb (wid =? 9)%Z) (run_ticks inps)) = true.
Proof.
  cbv zeta. split; [vm_compute; reflexivity|].
  apply (proj1 (proj2 (proj2
           (supervisor_target
              [ {| tick_health := Some (health_report Samples.eight_cooling);
                   tick_await_returns := fun _ => true;
                   tick_done := fun wid => (wid =? 4)%Z |} ]
              (Some (health_report Samples.ready_db))
              (fun wid => negb (wid =? 9)%Z) Samples.ready_db)))).
  intros wid Hin. vm_compute in Hin.
  destruct (Z.eqb_spec wid 9) as [->|_]; [|reflexivity].
  repeat (apply elem_of_cons in Hin as [Hin|Hin]; [discriminate|]).
  by apply elem_of_nil in Hin.
Defined.

(** C6 as stated fails: with eight ready accounts that are all cooling
    until t = 1000, no account is eligible at t = 0, so the target of
    the specification is 0, while the supervisor starts six workers. *)
Lemma cooling_accounts_counted :
  eligible_count 0 Samples.eight_cooling = 0%nat
  /\ spec_target 0 Samples.eight_cooling = 0%Z
  /\ count_status Ready Samples.eight_cooling = 8%nat
  /\ workers (scale (Some (health_report Samples.eight_cooling)) (fun _ => true)
                initial_supervisor)
     = [0; 1; 2; 3; 4; 5]%Z.
Proof. repeat split; vm_compute; reflexivity. Qed.

End SupervisorFacts.

(** * Further properties of the code *)

(** ** The rate limiter, continued *)

Section LimiterMore.
Import Limiter Spec_model.

(** [ensure_bucket] does not retune: a second call, with whatever
    capacity and rate, changes nothing; a first call on a missing name
    stores a full bucket; other buckets are never touched. *)
Theorem ensure_bucket_once name c1 r1 t1 c2 r2 t2 (db : Buckets) :
  ensure_bucket name c2 r2 t2 (ensure_bucket name c1 r1 t1 db)
  = ensure_bucket name c1 r1 t1 db
  /\ (db !! name = None ->
      ensure_bucket name c1 r1 t1 db !! name
      = Some {| capacity := c1; tokens := c1; refill_rate := r1; updated_at := t1 |})
  /\ (forall r, db !! name = Some r -> ensure_bucket name c1 r1 t1 db = db)
  /\ (forall other, name <> other -> ensure_bucket name c1 r1 t1 db !! other = db !! other).
Proof.
  unfold ensure_bucket. destruct (db !! name) as [r|] eqn:E.
  - rewrite E. repeat split; try done.
  - rewrite lookup_insert_eq. repeat split; try done.
    intros other Hne. by rewrite lookup_insert_ne.
Qed.

Lemma Qle_bool_false_of_lt (a b : Q) : (b < a)%Q -> Qle_bool a b = false.
Proof.
  intros H. destruct (Qle_bool a b) eqn:E; [|reflexivity].
  apply Qle_bool_iff in E. lra.
Qed.

(** The refill does not go down with time: a later reading of the same
    row sees at least as many tokens, and an attempt that is refused
    stores at least the tokens that were there. *)
Theorem refill_monotone (r : Bucket) (t1 t2 : Q) :
  (0 <= refill_rate r)%Q -> (t1 <= t2)%Q ->
  (refilled t1 r <= refilled t2 r)%Q
  /\ ((tokens r <= capacity r)%Q -> (tokens r <= refilled t1 r)%Q).
Proof.
  intros Hr Ht. unfold refilled. cbv zeta.
  assert (H0 : (0 <= Qmax 0 (t1 - updated_at r))%Q) by apply Q.le_max_l.
  assert (Hm : (Qmax 0 (t1 - updated_at r) <= Qmax 0 (t2 - updated_at r))%Q).
  { apply Q.max_le_compat_l. lra. }
  assert (Hp : (refill_rate r * Qmax 0 (t1 - updated_at r)
                <= refill_rate r * Qmax 0 (t2 - updated_at r))%Q).
  { rewrite !(Qmult_comm (refill_rate r)). by apply Qmult_le_compat_r. }
  split.
  - apply Q.min_le_compat_l. lra.
  - intros Hc. apply Q.min_glb; [exact Hc|].
    assert (0 <= refill_rate r * Qmax 0 (t1 - updated_at r))%Q
      by (apply Qmult_le_0_compat; assumption).
    lra.
Qed.

Lemma refill_monotone_witness :
  (refilled 1 Samples.empty_bucket <= refilled 3 Samples.empty_bucket)%Q
  /\ ((tokens Samples.empty_bucket <= capacity Samples.empty_bucket)%Q ->
      (tokens Samples.empty_bucket <= refilled 1 Samples.empty_bucket)%Q).
Proof.
  apply (refill_monotone Samples.empty_bucket 1 3); cbn; lra.
Defined.

(** The row an attempt leaves behind has the capacity and rate it found. *)
Lemma try_acquire_once_keeps_shape name req now (db : Buckets) :
  exists r',
    snd (_try_acquire_once name req now db) !! name = Some r'
    /\ capacity r' = capacity (fst (read_or_default name now db))
    /\ refill_rate r' = refill_rate (fst (read_or_default name now db))
    /\ updated_at r' = now
    /\ tokens r' = (if Qle_bool req (refilled now (fst (read_or_default name now db)))
                    then (refilled now (fst (read_or_default name now db)) - req)%Q
                    else refilled now (fst (read_or_default name now db))).
Proof.
  destruct (try_acquire_once_result name req now db) as (_ & Hrow & _).
  eexists. split; [exact Hrow|]. cbn. done.
Qed.

Lemma read_or_default_present name now (db : Buckets) r :
  db !! name = Some r -> fst (read_or_default name now db) = r.
Proof. intros H. unfold read_or_default. by rewrite H. Qed.

Lemma below_apply_op name req t (db : Buckets) o :
  keeps_below name req o ->
  (capacity (fst (read_or_default name t db)) < req)%Q ->
  (capacity (fst (read_or_default name t (apply_op db o))) < req)%Q.
Proof.
  destruct o as [n cap refill now|n rq now]; cbn [keeps_below apply_op].
  - intros Hk. unfold ensure_bucket, read_or_default.
    destruct (db !! n) as [r0|] eqn:En; [done|].
    destruct (decide (n = name)) as [->|Hne].
    + rewrite En, lookup_insert_eq. cbn. intros _. by apply Hk.
    + rewrite lookup_insert_ne by done. by destruct (db !! name).
  - intros _ H. destruct (decide (n = name)) as [->|Hne].
    + destruct (try_acquire_once_keeps_shape name rq now db) as (r' & Hrow & Hc & _).
      rewrite (read_or_default_present _ _ _ _ Hrow), Hc.
      unfold read_or_default in *. by destruct (db !! name).
    + destruct (try_acquire_once_result n rq now db) as (_ & _ & Hother).
      unfold read_or_default in *. rewrite Hother by done.
      by destruct (db !! name).
Qed.

Lemma below_fold name req t ops : forall db : Buckets,
  Forall (keeps_below name req) ops ->
  (capacity (fst (read_or_default name t db)) < req)%Q ->
  (capacity (fst (read_or_default name t (fold_left apply_op ops db))) < req)%Q.
Proof.
  induction ops as [|o ops IH]; intros db Hops Hdb; cbn [fold_left]; [exact Hdb|].
  apply Forall_cons in Hops as [Ho Hops]. apply IH; [exact Hops|].
  by apply below_apply_op.
Qed.

Lemma read_or_default_capacity name t t' (db : Buckets) :
  capacity (fst (read_or_default name t db)) = capacity (fst (read_or_default name t' db)).
Proof. unfold read_or_default. by destruct (db !! name). Qed.

Lemma acquire_loop_never name req t : forall rounds (db : Buckets) tr,
  Forall (fun rd => Forall (keeps_below name req) (others rd)) rounds ->
  (capacity (fst (read_or_default name t db)) < req)%Q ->
  acquire_loop name req None rounds db tr = None.
Proof.
  induction rounds as [|rd rest IH]; intros db tr Hrs Hcap; cbn [acquire_loop]; [done|].
  apply Forall_cons in Hrs as [Hrd Hrs].
  pose proof (below_fold name req t (others rd) db Hrd Hcap) as Hcap1.
  set (db1 := fold_left apply_op (others rd) db) in *.
  rewrite (read_or_default_capacity name t (t_attempt rd)) in Hcap1.
  unfold attempt. fold db1.
  pose proof (try_acquire_once_result name req (t_attempt rd) db1) as (Hfst & _).
  pose proof (try_acquire_once_keeps_shape name req (t_attempt rd) db1)
    as (r' & Hrow & Hc & _).
  cbv zeta in Hfst.
  pose proof (refilled_le_capacity (t_attempt rd)
                (fst (read_or_default name (t_attempt rd) db1))) as Hle.
  rewrite Qle_bool_false_of_lt in Hfst by lra.
  destruct (_try_acquire_once name req (t_attempt rd) db1) as [ok db'].
  cbn in Hfst, Hrow. subst ok. cbn [timed_out]. apply IH; [exact Hrs|].
  rewrite (read_or_default_present _ _ _ _ Hrow), Hc. exact Hcap1.
Qed.

(** Without a timeout, a request for more than the bucket can hold is
    never granted and the call never returns, however many rounds it is
    given, whatever the clock reads and whatever other callers do with
    [ensure_bucket] and [acquire] in between, as long as none of them
    creates the bucket with a capacity that covers the request: the
    refill stops at the capacity, and no statement changes the capacity
    of a row. The capacity is the stored one, or 5.0 for a bucket that
    is created on the fly. *)
Theorem acquire_beyond_capacity_never_returns name req t0 rounds (db : Buckets) :
  (capacity (fst (read_or_default name t0 db)) < req)%Q ->
  Forall (fun rd => Forall (keeps_below name req) (others rd)) rounds ->
  acquire name req None t0 rounds db = None.
Proof. intros H Hrs. unfold acquire. cbn. by apply (acquire_loop_never name req t0). Qed.

Lemma acquire_beyond_capacity_never_returns_witness :
  acquire "test" 3 None 0
    [ {| others := [TryAcquire "test" 1 0; Ensure "test" 2 1 0; Ensure "other" 10 1 0];
         t_attempt := 1; t_check := 2 |};
      {| others := []; t_attempt := 5; t_check := 5 |};
      {| others := [TryAcquire "test" 2 6]; t_attempt := 7; t_check := 7 |} ]
    Samples.limiter_0 = None.
Proof.
  apply (acquire_beyond_capacity_never_returns "test" 3 0).
  - vm_compute. reflexivity.
  - repeat (apply Forall_cons; split); try apply Forall_nil; cbn;
      first [exact I | intros _; lra | discriminate].
Defined.

End LimiterMore.

(** ** The job queue, continued *)

Section JobQueueMore.
Import JobQueue JobQueueOps.

Lemma scan_bound (ws : list Q) : forall r upto i k,
  scan ws r upto i = Some k -> (i <= k < i + length ws)%nat.
Proof.
  induction ws as [|w ws IH]; intros r upto i k; cbn [scan length]; [discriminate|].
  destruct (Qle_bool r (upto + w)).
  - intros [= <-]. lia.
  - intros H. apply IH in H. lia.
Qed.

Lemma pick_index_bounds (jobs : list JobDict) (now r : Q) :
  jobs <> [] ->
  (0 <= _weighted_pick_index jobs now r < Z.of_nat (length jobs))%Z.
Proof.
  intros Hne. destruct jobs as [|j jobs]; [done|].
  unfold _weighted_pick_index.
  destruct (Qle_bool _ 0); [cbn [length]; lia|].
  destruct (scan _ r 0 0) as [k|] eqn:Hk.
  - apply scan_bound in Hk. rewrite length_map in Hk. lia.
  - cbn [length]. lia.
Qed.

Lemma pick_index_singleton (d : JobDict) (now r : Q) :
  Z.to_nat (_weighted_pick_index [d] now r) = 0%nat.
Proof.
  pose proof (pick_index_bounds [d] now r ltac:(discriminate)) as H.
  cbn [length] in H. lia.
Qed.

(** [_weighted_pick_index] returns -1 on an empty list and otherwise an
    index of the list, whatever the weights, the ages and the draw:
    negative weights, a total of zero and a draw beyond the total
    included. *)
Theorem weighted_pick_index_in_range (jobs : list JobDict) (now r : Q) :
  _weighted_pick_index [] now r = (-1)%Z
  /\ (jobs <> [] ->
      (0 <= _weighted_pick_index jobs now r < Z.of_nat (length jobs))%Z).
Proof. split; [reflexivity|apply pick_index_bounds]. Qed.

Lemma weighted_pick_index_in_range_witness :
  (0 <= _weighted_pick_index [mkJob "a" 1 "{}" (Some 0%Z) (Some 0%Q);
                              mkJob "b" (-5) "{}" None None] 0 7 < 2)%Z.
Proof.
  apply (proj2 (weighted_pick_index_in_range
                  [mkJob "a" 1 "{}" (Some 0%Z) (Some 0%Q);
                   mkJob "b" (-5) "{}" None None] 0 7)).
  discriminate.
Defined.

(** [dequeue] with nothing queued (an empty list, or no "queue" key)
    returns [None] and does not write; otherwise it takes exactly one job
    out of the queue, keeps the order of the others, and files the job
    under its id in [inflight], with [attempts] and [enqueued_at] filled
    in. *)
Theorem dequeue_moves_one_job (now r : Q) (f : File) :
  (default [] (queue (_load f)) = [] -> dequeue now r f = (NoJob, f))
  /\ (default [] (queue (_load f)) <> [] ->
      exists i d,
        default [] (queue (_load f)) !! i = Some d
        /\ dequeue now r f
           = (Got (from_dict d),
              _save {| queue := Some (delete i (default [] (queue (_load f))));
                       inflight :=
                         Some (<[id d := to_dict (from_dict d)]>
                                 (inflight_or_empty (_load f))) |} f)
        /\ fst (size (snd (dequeue now r f)))
           = (fst (size f) - 1)%nat
        /\ inflight_or_empty (_load (snd (dequeue now r f))) !! id d
           = Some (to_dict (from_dict d))).
Proof.
  split.
  - intros H. unfold dequeue. cbv zeta. by rewrite H.
  - intros Hne. unfold dequeue. cbv zeta.
    destruct (default [] (queue (_load f))) as [|j q] eqn:Hq; [done|].
    pose proof (pick_index_bounds (j :: q) now r Hne) as Hrange.
    set (i := Z.to_nat (_weighted_pick_index (j :: q) now r)).
    assert (Hi : (i < length (j :: q))%nat) by (unfold i; lia).
    destruct (lookup_lt_is_Some_2 (j :: q) i Hi) as [d Hd].
    exists i, d. rewrite Hd. split; [reflexivity|]. split; [reflexivity|].
    cbn [snd]. unfold size, _save, _load. cbn [content queue inflight fst default].
    split.
    + unfold _load in Hq. rewrite Hq. unfold Datatypes.id.
      rewrite length_delete by eauto. reflexivity.
    + unfold inflight_or_empty. cbn. apply lookup_insert_eq.
Qed.

Lemma dequeue_moves_one_job_witness :
  let f := _save {| queue := Some [mkJob "a" 1 "{}" (Some 0%Z) (Some 0%Q);
                                   mkJob "b" 3 "{}" None (Some 60%Q)];
                    inflight := Some ∅ |} initial_file in
  exists i d,
    default [] (queue (_load f)) !! i = Some d
    /\ fst (dequeue 120 2 f) = Got (from_dict d)
    /\ size (snd (dequeue 120 2 f)) = (1%nat, 1%nat)
    /\ inflight_or_empty (_load (snd (dequeue 120 2 f))) !! id d
       = Some (to_dict (from_dict d)).
Proof.
  cbv zeta.
  destruct (proj2 (dequeue_moves_one_job 120 2
                     (_save {| queue := Some [mkJob "a" 1 "{}" (Some 0%Z) (Some 0%Q);
                                              mkJob "b" 3 "{}" None (Some 60%Q)];
                               inflight := Some ∅ |} initial_file)))
    as (i & d & H1 & H2 & H3 & H4); [discriminate|].
  exists i, d. split; [exact H1|]. split; [by rewrite H2|].
  split; [|exact H4]. vm_compute. reflexivity.
Defined.

(** From a new queue file, [enqueue(j)], [dequeue()], [ack(j.id)] brings
    the sizes back to (0, 0), whatever the clock and the draw; the job
    comes out with its id, weight and payload and the enqueue time. *)
Theorem enqueue_dequeue_ack (j : JobDict) (t1 t2 r : Q) :
  exists f1 f2 f3,
    enqueue j t1 initial_file = inr f1
    /\ size f1 = (1%nat, 0%nat)
    /\ dequeue t2 r f1
       = (Got {| job_id := id j; job_weight := weight j; job_payload := payload j;
                 job_attempts := default 0%Z (attempts j); job_enqueued_at := t1 |}, f2)
    /\ size f2 = (0%nat, 1%nat)
    /\ ack (id j) f2 = (inr true, f3)
    /\ size f3 = (0%nat, 0%nat).
Proof.
  eexists _, _, _. split; [reflexivity|]. split; [reflexivity|].
  unfold dequeue, enqueue, initial_file, _load, _save.
  cbn [content queue inflight default app]. unfold Datatypes.id. cbv iota.
  rewrite pick_index_singleton.
  cbn [lookup list_lookup delete list_delete from_dict to_dict id weight payload
       attempts enqueued_at default job_id].
  split; [reflexivity|].
  unfold size, ack, inflight_or_empty, _load, _save.
  cbn [content queue inflight default length fst snd job_id].
  unfold Datatypes.id.
  rewrite insert_empty, map_size_singleton, lookup_singleton_eq.
  split; [reflexivity|]. split; [reflexivity|].
  cbn [content queue inflight default length]. unfold Datatypes.id.
  rewrite delete_singleton_eq, map_size_empty. reflexivity.
Qed.

(** [nack] of an inflight job: with [requeue] the job goes to the end of
    the queue with one more attempt and an [enqueued_at] of
    [now + max(0, backoff_seconds)], not before [now]; without, it is
    dropped; either way it is no longer inflight. When the file has no
    "queue" key, a requeue raises [KeyError] before anything is written,
    and the job stays inflight. *)
Theorem nack_requeues_or_drops job_id (backoff : Z) (now : Q) (f : File) job :
  inflight_or_empty (_load f) !! job_id = Some job ->
  (forall q, queue (_load f) = Some q ->
     exists f' job',
       nack job_id true backoff now f = (inr true, f')
       /\ queue (_load f') = Some (q ++ [job'])%list
       /\ id job' = id job /\ weight job' = weight job /\ payload job' = payload job
       /\ attempts job' = Some (default 0 (attempts job) + 1)%Z
       /\ enqueued_at job' = Some (now + inject_Z (Z.max 0 backoff))%Q
       /\ (now <= now + inject_Z (Z.max 0 backoff))%Q
       /\ inflight_or_empty (_load f') !! job_id = None
       /\ writes f' = S (writes f))
  /\ (queue (_load f) = None ->
      nack job_id true backoff now f = (inl (KeyError "queue"), f))
  /\ (exists f',
        nack job_id false backoff now f = (inr true, f')
        /\ queue (_load f') = queue (_load f)
        /\ inflight_or_empty (_load f') !! job_id = None).
Proof.
  intros Hj. unfold nack. cbv zeta. rewrite Hj. split; [|split].
  - intros q Hq. rewrite Hq. eexists _, _. split; [reflexivity|].
    unfold _load, _save, inflight_or_empty. cbn.
    split; [reflexivity|]. do 5 (split; [reflexivity|]).
    split.
    { assert (0 <= inject_Z (Z.max 0 backoff))%Q.
      { change 0%Q with (inject_Z 0). rewrite <- Zle_Qle. lia. }
      lra. }
    split; [apply lookup_delete_eq|reflexivity].
  - intros Hq. by rewrite Hq.
  - eexists. split; [reflexivity|]. unfold _load, _save, inflight_or_empty. cbn.
    split; [reflexivity|apply lookup_delete_eq].
Qed.

Lemma nack_requeues_or_drops_witness :
  exists f1 f2 f' job',
    enqueue (mkJob "a" 1 "{}" None None) 10 initial_file = inr f1
    /\ snd (dequeue 20 0 f1) = f2
    /\ nack "a" true 5 30 f2 = (inr true, f')
    /\ queue (_load f') = Some ([] ++ [job'])%list
    /\ attempts job' = Some 1%Z.
Proof.
  eexists _, _. 
  destruct (nack_requeues_or_drops "a" 5 30
              (snd (dequeue 20 0 (_save {| queue := Some [mkJob "a" 1 "{}" None (Some 10%Q)];
                                           inflight := Some ∅ |} initial_file)))
              (to_dict (from_dict (mkJob "a" 1 "{}" None (Some 10%Q)))))
    as (Hre & _ & _).
  { vm_compute. reflexivity. }
  destruct (Hre [] eq_refl) as (f' & job' & H1 & H2 & _ & _ & _ & H3 & _).
  exists f', job'. split; [reflexivity|]. split; [reflexivity|].
  split; [exact H1|]. split; [exact H2|exact H3].
Defined.

Lemma set_first_weight_spec job_id w (q : list JobDict) :
  match set_first_weight job_id w q with
  | Some q' => length q' = length q /\ List.map id q' = List.map id q
               /\ job_id ∈ List.map id q
  | None => job_id ∉ List.map id q
  end.
Proof.
  induction q as [|j q IH]; cbn [set_first_weight List.map].
  - apply not_elem_of_nil.
  - destruct (String.eqb_spec (id j) job_id) as [<-|Hne].
    + cbn. repeat split. apply list_elem_of_here.
    + destruct (set_first_weight job_id w q) as [q'|]; cbn.
      * destruct IH as (Hl & Hm & Hin). repeat split; [congruence|congruence|].
        by apply list_elem_of_further.
      * intros Hin. apply elem_of_cons in Hin as [->|Hin]; [done|]. by apply IH.
Qed.

(** [reprioritize] never adds, removes or reorders a job: the ids in the
    queue and the two sizes stay as they were. It returns [False], and
    then writes nothing, exactly when the id is neither queued nor
    inflight. *)
Theorem reprioritize_keeps_jobs job_id (w : Q) (f : File) q :
  queue (_load f) = Some q ->
  exists res f',
    reprioritize job_id w f = (inr res, f')
    /\ size f' = size f
    /\ List.map id (default [] (queue (_load f'))) = List.map id q
    /\ (res = false <->
        (job_id ∉ List.map id q) /\ inflight_or_empty (_load f) !! job_id = None)
    /\ (res = false -> f' = f).
Proof.
  intros Hq. unfold reprioritize. cbv zeta. rewrite Hq.
  pose proof (set_first_weight_spec job_id w q) as Hs.
  destruct (set_first_weight job_id w q) as [q'|].
  - destruct Hs as (Hl & Hm & Hin). eexists true, _. split; [reflexivity|].
    unfold size, inflight_or_empty, _load, _save in *. cbn. rewrite Hq. cbn.
    split; [by rewrite Hl|]. split; [exact Hm|]. split; [|discriminate].
    split; [discriminate|]. intros [Hn _]. done.
  - destruct (inflight_or_empty (_load f) !! job_id) as [j|] eqn:Hj.
    + eexists true, _. split; [reflexivity|].
      unfold size, _load, _save in *. cbn. rewrite Hq. cbn.
      split.
      { unfold inflight_or_empty at 1. cbn.
        rewrite map_size_insert_Some by eauto. reflexivity. }
      split; [reflexivity|]. split; [|discriminate].
      split; [discriminate|]. intros [_ Hn]. discriminate.
    + eexists false, _. split; [reflexivity|]. split; [reflexivity|].
      rewrite Hq. cbn. split; [reflexivity|]. split; [|reflexivity].
      split; [intros _; by split|reflexivity].
Qed.

Lemma reprioritize_keeps_jobs_witness :
  let f := _save {| queue := Some [mkJob "a" 1 "{}" (Some 0%Z) (Some 0%Q);
                                   mkJob "b" 3 "{}" None (Some 60%Q)];
                    inflight := Some ∅ |} initial_file in
  exists f',
    reprioritize "b" 9 f = (inr true, f')
    /\ size f' = size f
    /\ List.map id (default [] (queue (_load f'))) = ["a"; "b"].
Proof.
  cbv zeta.
  destruct (reprioritize_keeps_jobs "b" 9
              (_save {| queue := Some [mkJob "a" 1 "{}" (Some 0%Z) (Some 0%Q);
                                       mkJob "b" 3 "{}" None (Some 60%Q)];
                        inflight := Some ∅ |} initial_file)
              [mkJob "a" 1 "{}" (Some 0%Z) (Some 0%Q);
               mkJob "b" 3 "{}" None (Some 60%Q)] eq_refl)
    as (res & f' & H1 & H2 & H3 & H4 & _).
  exists f'. destruct res.
  - split; [exact H1|]. split; [exact H2|exact H3].
  - exfalso. destruct (proj1 H4 eq_refl) as [Hnot _]. apply Hnot.
    cbn. apply list_elem_of_further, list_elem_of_here.
Defined.

End JobQueueMore.

(** ** The account pool and the health manager, continued *)

Section PoolMore.
Import Pool.

Lemma pick_least_some kv best : pick_least kv best <> None.
Proof.
  unfold pick_least. destruct best as [b|]; [|discriminate].
  destruct (_ <=? _)%Z; discriminate.
Qed.

Lemma select_ready_fold_least now (l : list (string * Account)) kv :
  foldr (fun kv best => if eligible now (snd kv) then pick_least kv best else best)
        None l = Some kv ->
  forall x, x ∈ l -> eligible now (snd x) = true ->
            (fail_count (snd kv) <= fail_count (snd x))%Z.
Proof.
  revert kv. induction l as [|y l IH]; intros kv; cbn [foldr]; [discriminate|].
  destruct (eligible now (snd y)) eqn:Hy.
  - unfold pick_least. destruct (foldr _ None l) as [b|] eqn:Hb.
    + destruct (Z.leb_spec (fail_count (snd y)) (fail_count (snd b))) as [Hle|Hgt].
      * intros [= <-] x Hx Hex. apply elem_of_cons in Hx as [->|Hx]; [lia|].
        specialize (IH b eq_refl x Hx Hex). lia.
      * intros [= <-] x Hx Hex. apply elem_of_cons in Hx as [->|Hx]; [lia|].
        by apply IH.
    + intros [= <-] x Hx Hex. apply elem_of_cons in Hx as [->|Hx]; [lia|].
      clear IH. exfalso. induction l as [|z l IHl]; [by apply elem_of_nil in Hx|].
      cbn [foldr] in Hb. apply elem_of_cons in Hx as [->|Hx].
      * rewrite Hex in Hb. by apply pick_least_some in Hb.
      * destruct (eligible now (snd z)); [|by apply IHl].
        by apply pick_least_some in Hb.
  - intros H x Hx Hex. apply elem_of_cons in Hx as [->|Hx]; [congruence|].
    by apply IH.
Qed.

Lemma select_ready_none now (db : Accounts) :
  select_ready now db = None <->
  (forall id r, db !! id = Some r -> eligible now r = false).
Proof.
  unfold select_ready. split.
  - intros H id r Hr. apply elem_of_map_to_list in Hr.
    revert H Hr. generalize (map_to_list db). intros l.
    induction l as [|y l IH]; cbn [foldr]; intros H Hin;
      [by apply elem_of_nil in Hin|].
    destruct (eligible now (snd y)) eqn:Hy.
    + by apply pick_least_some in H.
    + apply elem_of_cons in Hin as [<-|Hin]; [exact Hy|]. by apply IH.
  - intros H.
    assert (Hl : forall x, x ∈ map_to_list db -> eligible now (snd x) = false).
    { intros [id r] Hin. apply elem_of_map_to_list in Hin. by apply (H id). }
    revert Hl. generalize (map_to_list db). intros l Hl.
    induction l as [|y l IH]; cbn [foldr]; [reflexivity|].
    rewrite (Hl y) by apply list_elem_of_here.
    apply IH. intros x Hx. apply Hl. by apply list_elem_of_further.
Qed.

(** The selection policy of [acquire]: the account it leases is ready,
    out of cooldown, and has the least [fail_count] of all the accounts
    that are. *)
Theorem acquire_prefers_fewest_failures now (db : Accounts) sel db' :
  _select_and_mark now db = (Some sel, db') ->
  exists r, db !! fst sel = Some r /\ eligible now r = true
    /\ forall id' r', db !! id' = Some r' -> eligible now r' = true ->
                      (fail_count r <= fail_count r')%Z.
Proof.
  unfold _select_and_mark.
  destruct (select_ready now db) as [[id r]|] eqn:Hsel; [|discriminate].
  intros [= <- <-]. cbn. exists r.
  pose proof Hsel as Hfold. unfold select_ready in Hfold.
  pose proof (select_ready_fold now _ _ Hfold) as [Hin He].
  apply elem_of_map_to_list in Hin. split; [exact Hin|]. split; [exact He|].
  intros id' r' Hr' He'.
  apply (select_ready_fold_least now _ _ Hfold (id', r')); [|exact He'].
  by apply elem_of_map_to_list.
Qed.

Lemma acquire_prefers_fewest_failures_witness :
  let row n := {| cred := Samples.dummy_cred; status := Ready;
                  cooldown_until := Some 0%Q; fail_count := n;
                  last_error := None; proxy_id := None |} in
  let db : Accounts := {[ "acct-1" := row 2%Z; "acct-2" := row 0%Z; "acct-3" := row 1%Z ]} in
  exists r, db !! "acct-2" = Some r /\ eligible 10 r = true
    /\ forall id' r', db !! id' = Some r' -> eligible 10 r' = true ->
                      (fail_count r <= fail_count r')%Z.
Proof.
  cbv zeta.
  apply (acquire_prefers_fewest_failures 10 _
           ("acct-2", Samples.dummy_cred)
           (mark_leased "acct-2"
              {[ "acct-1" := {| cred := Samples.dummy_cred; status := Ready;
                                cooldown_until := Some 0%Q; fail_count := 2;
                                last_error := None; proxy_id := None |};
                 "acct-2" := {| cred := Samples.dummy_cred; status := Ready;
                                cooldown_until := Some 0%Q; fail_count := 0;
                                last_error := None; proxy_id := None |};
                 "acct-3" := {| cred := Samples.dummy_cred; status := Ready;
                                cooldown_until := Some 0%Q; fail_count := 1;
                                last_error := None; proxy_id := None |} ]})).
  vm_compute. reflexivity.
Defined.

(** When no account is ready and out of cooldown, and nothing changes
    during the one-second retry, [acquire] raises its [RuntimeError]
    after that second and leaves the table as it was. *)
Theorem acquire_fails_without_eligible now (db : Accounts) :
  (forall id r, db !! id = Some r -> eligible now r = false) ->
  acquire now (fun t => t) db
  = (inl "No ready Reddit accounts available for leasing", db, (now + 1)%Q).
Proof.
  intros H. apply select_ready_none in H.
  unfold acquire, _select_and_mark. cbv zeta. rewrite H. cbn. rewrite H. reflexivity.
Qed.

Lemma acquire_fails_without_eligible_witness :
  acquire 10 (fun t => t) Samples.seeded_db
  = (inl "No ready Reddit accounts available for leasing", Samples.seeded_db, (10 + 1)%Q).
Proof.
  apply (acquire_fails_without_eligible 10 Samples.seeded_db).
  intros id r Hr. unfold Samples.seeded_db in Hr.
  apply lookup_singleton_Some in Hr as [_ <-]. reflexivity.
Defined.

(** Mutual exclusion: an account that [acquire] has leased is not
    selected again, at any later time, as long as no release, cooldown or
    health write changes its row. *)
Theorem leased_account_not_selected_again now (db : Accounts) sel db' :
  _select_and_mark now db = (Some sel, db') ->
  status <$> db' !! fst sel = Some Leased
  /\ forall now2 sel2 db2,
       _select_and_mark now2 db' = (Some sel2, db2) -> fst sel2 <> fst sel.
Proof.
  unfold _select_and_mark at 1.
  destruct (select_ready now db) as [[id r]|] eqn:Hsel; [|discriminate].
  intros [= <- <-]. cbn [fst].
  apply select_ready_eligible in Hsel as (Hr & _ & _).
  assert (Hst : status <$> mark_leased id db !! id = Some Leased).
  { unfold mark_leased. rewrite lookup_alter_eq, Hr. reflexivity. }
  split; [exact Hst|].
  intros now2 sel2 db2. unfold _select_and_mark.
  destruct (select_ready now2 (mark_leased id db)) as [[id2 r2]|] eqn:Hsel2;
    [|discriminate].
  intros [= <- <-] Heq. cbn in Heq. subst id2.
  apply select_ready_eligible in Hsel2 as (Hr2 & Hs2 & _).
  rewrite Hr2 in Hst. cbn in Hst. congruence.
Qed.

Lemma leased_account_not_selected_again_witness :
  status <$> mark_leased "acct-1" Samples.ready_db !! "acct-1" = Some Leased.
Proof.
  apply (leased_account_not_selected_again 10 Samples.ready_db
           ("acct-1", Samples.dummy_cred) (mark_leased "acct-1" Samples.ready_db)).
  vm_compute. reflexivity.
Defined.

(** Seeding an empty pool with one account and acquiring at a time that
    is not negative gives a lease on that account, with the credential
    that was seeded, and leaves the row leased. *)
Theorem seed_then_acquire id c (now : Q) during :
  (0 <= now)%Q ->
  exists db',
    acquire now during (add_account id c ∅)
    = (inr {| account := c; account_id := id; acquired_at := now |}, db', now)
    /\ status <$> db' !! id = Some Leased.
Proof.
  intros Hnow. unfold acquire, _select_and_mark, select_ready, add_account. cbv zeta.
  rewrite lookup_empty. cbn [fmap option_fmap option_map mbind option_bind default].
  rewrite insert_empty, map_to_list_singleton. cbn [foldr snd].
  unfold eligible. cbn [status cooldown_until].
  rewrite bool_decide_eq_true_2 by reflexivity.
  apply Qle_bool_iff in Hnow. rewrite Hnow. cbn.
  eexists. split; [reflexivity|].
  unfold mark_leased. rewrite lookup_alter_eq, lookup_singleton_eq. reflexivity.
Qed.

Lemma seed_then_acquire_witness :
  exists db',
    acquire 5 (fun t => t) (add_account "acct-1" Samples.dummy_cred ∅)
    = (inr {| account := Samples.dummy_cred; account_id := "acct-1"; acquired_at := 5 |},
       db', 5%Q)
    /\ status <$> db' !! "acct-1" = Some Leased.
Proof.
  apply (seed_then_acquire "acct-1" Samples.dummy_cred 5 (fun t => t)). lra.
Defined.

End PoolMore.

Section AccountInvariants.
Import Pool AccountOps.

(** Along every history of pool and health-manager operations from the
    empty table, no row ever has a negative [fail_count] or a NULL
    [cooldown_until]. *)
Theorem account_rows_well_formed (ops : list Op) :
  map_Forall (fun _ r => (0 <= fail_count r)%Z /\ cooldown_until r <> None)
             (run_ops ops).
Proof.
  unfold run_ops.
  assert (H0 : map_Forall (fun (_ : string) r =>
                             (0 <= fail_count r)%Z /\ cooldown_until r <> None)
                          (∅ : Accounts)) by apply map_Forall_empty.
  revert H0. generalize (∅ : Accounts).
  induction ops as [|o ops IH]; intros db Hdb; cbn [fold_left]; [exact Hdb|].
  apply IH. destruct o as [id c|now|cs l success now|l seconds reason now
                          |l reason|cfg snap outcome now]; cbn [apply_op].
  - unfold add_account. cbv zeta. apply map_Forall_insert_2; [|exact Hdb].
    destruct (db !! id) as [r|] eqn:E; cbn; [|split; [lia|discriminate]].
    split; [by apply (Hdb id r)|discriminate].
  - unfold _select_and_mark. destruct (select_ready now db) as [[id r]|]; [|exact Hdb].
    cbn. apply (alter_keeps (fun r => (0 <= fail_count r)%Z /\ cooldown_until r <> None));
      [|exact Hdb].
    intros r0 [H1 H2]. by split.
  - apply (alter_keeps (fun r => (0 <= fail_count r)%Z /\ cooldown_until r <> None));
      [|exact Hdb].
    intros r [H1 H2]. unfold release_row. destruct success; cbn; split;
      try discriminate; lia.
  - apply (alter_keeps (fun r => (0 <= fail_count r)%Z /\ cooldown_until r <> None));
      [|exact Hdb].
    intros r [H1 H2]. cbn. split; [exact H1|discriminate].
  - apply (alter_keeps (fun r => (0 <= fail_count r)%Z /\ cooldown_until r <> None));
      [|exact Hdb].
    intros r [H1 H2]. by split.
  - apply (check_one_keeps (fun r => (0 <= fail_count r)%Z /\ cooldown_until r <> None));
      [| | |exact Hdb].
    + intros r [H1 H2]. cbn. split.
      * destruct (fail_count r >? 0)%Z eqn:E; lia.
      * destruct (cooldown_until r); [discriminate|done].
    + intros r until reason [H1 H2]. cbn. split; [lia|discriminate].
    + intros r reason [H1 H2]. by split.
Qed.

Lemma count_status_sum (l : list (string * Account)) :
  (length (filter (fun kv => status (snd kv) = Ready) l)
   + length (filter (fun kv => status (snd kv) = Leased) l)
   + length (filter (fun kv => status (snd kv) = Pool.Quarantine) l))%nat
  = length l.
Proof.
  induction l as [|[id r] l IH]; [reflexivity|].
  rewrite !filter_cons. cbn [snd].
  destruct (status r); repeat case_decide; try congruence; cbn [length]; lia.
Qed.

(** [health_report] counts every account exactly once: the counts of the
    three statuses add up to the number of rows, and a status is a key
    of the report exactly when some account has it. *)
Theorem health_report_counts_all (db : Accounts) :
  (count_status Ready db + count_status Leased db + count_status Pool.Quarantine db)%nat
  = size db
  /\ forall s, health_report db s = None <->
               forall id r, db !! id = Some r -> status r <> s.
Proof.
  split.
  - unfold count_status. rewrite count_status_sum. apply length_map_to_list.
  - intros s. unfold health_report, count_status. cbv zeta.
    destruct (Nat.eqb_spec (length (filter (fun kv => status (snd kv) = s)
                                           (map_to_list db))) 0) as [H0|Hn0].
    + split; [intros _|done]. intros id r Hr Hs.
      apply elem_of_map_to_list in Hr.
      assert (Hin : (id, r) ∈ filter (fun kv => status (snd kv) = s) (map_to_list db)).
      { apply list_elem_of_filter. by split. }
      apply length_zero_iff_nil in H0. rewrite H0 in Hin. by apply elem_of_nil in Hin.
    + split; [discriminate|]. intros Hall. exfalso. apply Hn0.
      apply length_zero_iff_nil.
      destruct (filter (fun kv => status (snd kv) = s) (map_to_list db))
        as [|[id r] l] eqn:E; [reflexivity|].
      assert (Hin : (id, r) ∈ filter (fun kv => status (snd kv) = s) (map_to_list db)).
      { rewrite E. apply list_elem_of_here. }
      apply list_elem_of_filter in Hin as [Hs Hin]. cbn in Hs.
      apply elem_of_map_to_list in Hin. by apply (Hall id r) in Hs.
Qed.

End AccountInvariants.

Section ManagerMore.
Import Pool Manager.

Lemma classify_counts_fold now (rows : list (string * Account)) : forall a b c d,
  let '(ready, leased, quarantine, cooling) :=
    fold_left
      (fun '(ready, leased, quarantine, cooling) kv =>
         match status (snd kv) with
         | Ready =>
             if Qle_bool (cooldown_or_0 (snd kv)) now
             then (S ready, leased, quarantine, cooling)
             else (ready, leased, quarantine, S cooling)
         | Leased => (ready, S leased, quarantine, cooling)
         | Quarantine => (ready, leased, S quarantine, cooling)
         end)
      rows (a, b, c, d) in
  (ready + leased + quarantine + cooling = a + b + c + d + length rows)%nat
  /\ ready = (a + length (to_check now rows))%nat.
Proof.
  induction rows as [|[id r] rows IH]; intros a b c d; cbn [fold_left].
  - cbn. lia.
  - unfold to_check. cbn [List.filter length snd]. unfold to_check_row.
    destruct (status r); cbn [bool_decide andb].
    + rewrite bool_decide_eq_true_2 by reflexivity. cbn [andb].
      destruct (Qle_bool (cooldown_or_0 r) now).
      * specialize (IH (S a) b c d). destruct (fold_left _ rows _) as [[[? ?] ?] ?].
        cbn [length]. unfold to_check, to_check_row in IH. lia.
      * specialize (IH a b c (S d)). destruct (fold_left _ rows _) as [[[? ?] ?] ?].
        unfold to_check, to_check_row in IH. lia.
    + rewrite bool_decide_eq_false_2 by discriminate. cbn [andb].
      specialize (IH a (S b) c d). destruct (fold_left _ rows _) as [[[? ?] ?] ?].
      unfold to_check, to_check_row in IH. lia.
    + rewrite bool_decide_eq_false_2 by discriminate. cbn [andb].
      specialize (IH a b (S c) d). destruct (fold_left _ rows _) as [[[? ?] ?] ?].
      unfold to_check, to_check_row in IH. lia.
Qed.

(** [_classify_counts] puts every row of the snapshot in exactly one of
    its four classes, and the rows it counts as ready are the rows that
    the cycle goes on to probe (at the same clock reading). *)
Theorem classify_counts_partition (now : Q) (rows : list (string * Account)) :
  let '(ready, leased, quarantine, cooling) := _classify_counts now rows in
  (ready + leased + quarantine + cooling)%nat = length rows
  /\ ready = length (to_check now rows).
Proof.
  unfold _classify_counts.
  pose proof (classify_counts_fold now rows 0 0 0 0) as H.
  destruct (fold_left _ rows _) as [[[ready leased] quarantine] cooling].
  cbn in H. exact H.
Qed.

(** A probe that goes through makes the account selectable at once: the
    row is 'ready', its cooldown is clamped to the present, its
    [last_error] is cleared and its [fail_count] goes down by one, not
    below zero. *)
Theorem healthy_probe_makes_eligible cfg snap (now : Q) (db : Accounts) r c :
  db !! fst snap = Some r -> cooldown_until r = Some c -> (0 <= now)%Q ->
  exists r',
    _check_one cfg snap None now db !! fst snap = Some r'
    /\ eligible now r' = true
    /\ last_error r' = None
    /\ fail_count r' = Z.max 0 (fail_count r - 1)
    /\ cred r' = cred r.
Proof.
  intros Hr Hc Hnow. unfold _check_one. cbn. unfold _update_on_success.
  rewrite lookup_alter_eq, Hr. cbn. eexists. split; [reflexivity|].
  unfold eligible, success_row. cbn. rewrite Hc. cbn.
  split.
  { apply Qle_bool_iff. apply Q.max_lub; [exact Hnow|apply Q.le_min_r]. }
  split; [reflexivity|]. split; [|reflexivity].
  destruct (Z.gtb_spec (fail_count r) 0); lia.
Qed.

Lemma healthy_probe_makes_eligible_witness :
  exists r',
    _check_one default_config ("acct-1", Samples.cooling_row) None 50
      {[ "acct-1" := Samples.cooling_row ]} !! "acct-1" = Some r'
    /\ eligible 50 r' = true
    /\ last_error r' = None
    /\ fail_count r' = Z.max 0 (fail_count Samples.cooling_row - 1)
    /\ cred r' = cred Samples.cooling_row.
Proof.
  apply (healthy_probe_makes_eligible default_config ("acct-1", Samples.cooling_row) 50
           {[ "acct-1" := Samples.cooling_row ]} Samples.cooling_row (1000 # 1)).
  - reflexivity.
  - reflexivity.
  - lra.
Defined.

(** The health manager never leases: whatever the probe met, the row it
    writes ends 'ready' or 'quarantine' and no other row changes. For a
    failure that is neither rate-limit nor auth, it is quarantined
    exactly when the snapshot's [fail_count] plus one reaches
    [QUARANTINE_FAILS]. *)
Theorem check_one_never_leases cfg snap outcome (now : Q) (db : Accounts) r :
  db !! fst snap = Some r ->
  (forall other, fst snap <> other ->
     _check_one cfg snap outcome now db !! other = db !! other)
  /\ exists r',
      _check_one cfg snap outcome now db !! fst snap = Some r'
      /\ status r' <> Leased
      /\ (forall msg, outcome = Some msg ->
            Manager_classify.probe_classify msg = Network ->
            (status r' = Quarantine <->
             (QUARANTINE_FAILS cfg <= fail_count (snd snap) + 1)%Z)).
Proof.
  intros Hr. unfold _check_one.
  destruct outcome as [msg|]; cbn [Manager_classify._health_probe].
  2:{ unfold _update_on_success. split.
      - intros other Hne. by rewrite lookup_alter_ne.
      - rewrite lookup_alter_eq, Hr. eexists. split; [reflexivity|].
        split; [discriminate|]. intros msg [=]. }
  destruct (PyStr.contains "Too Many Requests" msg || PyStr.contains "RATELIMIT" msg
            || PyStr.contains "429" msg) eqn:E1.
  { cbn. unfold _cooldown. split.
    - intros other Hne. by rewrite lookup_alter_ne.
    - rewrite lookup_alter_eq, Hr. eexists. split; [reflexivity|].
      split; [discriminate|]. intros m [= <-] Hnet.
      unfold Manager_classify.probe_classify, Manager_classify._health_probe in Hnet.
      rewrite E1 in Hnet. discriminate. }
  destruct (PyStr.contains "401" msg || PyStr.contains "403" msg
            || PyStr.contains "invalid_grant" msg || PyStr.contains "Forbidden" msg
            || PyStr.contains "Unauthorized" msg) eqn:E2.
  { cbn. unfold _quarantine. split.
    - intros other Hne. by rewrite lookup_alter_ne.
    - rewrite lookup_alter_eq, Hr. eexists. split; [reflexivity|].
      split; [discriminate|]. intros m [= <-] Hnet.
      unfold Manager_classify.probe_classify, Manager_classify._health_probe in Hnet.
      rewrite E1, E2 in Hnet. discriminate. }
  cbn. destruct (Z.geb_spec (fail_count (snd snap) + 1) (QUARANTINE_FAILS cfg)) as [Hge|Hlt].
  - unfold _quarantine. split.
    + intros other Hne. by rewrite lookup_alter_ne.
    + rewrite lookup_alter_eq, Hr. eexists. split; [reflexivity|].
      split; [discriminate|]. intros m _ _. cbn. split; [lia|reflexivity].
  - unfold _cooldown. split.
    + intros other Hne. by rewrite lookup_alter_ne.
    + rewrite lookup_alter_eq, Hr. eexists. split; [reflexivity|].
      split; [discriminate|]. intros m _ _. cbn. split; [discriminate|lia].
Qed.

Lemma check_one_never_leases_witness :
  exists r',
    _check_one default_config ("acct-1", Samples.ready_row) (Some "connection reset")
      20 Samples.ready_db !! "acct-1" = Some r'
    /\ status r' <> Leased.
Proof.
  destruct (check_one_never_leases default_config ("acct-1", Samples.ready_row)
              (Some "connection reset") 20 Samples.ready_db Samples.ready_row)
    as (_ & r' & H1 & H2 & _).
  - reflexivity.
  - exists r'. split; [exact H1|exact H2].
Defined.

End ManagerMore.

(** ** The worker-checkpoint store, continued *)

Section StoreMore.
Import Store.

(** When the checkpoints table exists, [upsert] followed by [get] reads
    back what was written, with the clock as [updated_at] unless one was
    given; the write replaces every column of the worker's row (ids of
    an earlier checkpoint do not survive a write with null ids) and
    touches no other worker's row and no other table. *)
Theorem checkpoint_round_trip wid acct sub post comment updated (now : Q)
    (db : AccountsDb) t :
  tbl_checkpoints db = Some t ->
  exists db',
    upsert wid acct sub post comment updated now db = inr db'
    /\ get wid db'
       = inr (Some {| ck_account_id := acct; last_subreddit := sub;
                      last_post_id := post; last_comment_id := comment;
                      updated_at := default now updated |})
    /\ (forall other, wid <> other -> get other db' = get other db)
    /\ tbl_accounts db' = tbl_accounts db /\ tbl_proxies db' = tbl_proxies db.
Proof.
  intros Ht. unfold upsert, get. cbv zeta. rewrite Ht.
  eexists. split; [reflexivity|]. cbn. rewrite lookup_insert_eq.
  split; [reflexivity|]. split; [|done].
  intros other Hne. by rewrite lookup_insert_ne.
Qed.

Lemma checkpoint_round_trip_witness :
  exists db',
    upsert "0" (Some "acct-1") (Some "all") None None None 7
      {| tbl_accounts := Some ∅; tbl_proxies := Some ∅; tbl_checkpoints := Some ∅ |}
    = inr db'
    /\ get "0" db'
       = inr (Some {| ck_account_id := Some "acct-1"; last_subreddit := Some "all";
                      last_post_id := None; last_comment_id := None;
                      updated_at := 7 |}).
Proof.
  destruct (checkpoint_round_trip "0" (Some "acct-1") (Some "all") None None None 7
              {| tbl_accounts := Some ∅; tbl_proxies := Some ∅;
                 tbl_checkpoints := Some ∅ |} ∅ eq_refl)
    as (db' & H1 & H2 & _).
  exists db'. split; [exact H1|exact H2].
Defined.

End StoreMore.

(** ** The proxy rotation *)

Section ProxyFacts.
Import ProxyPool ProxyHistory.

Lemma acquire_many_spec n : forall s : State,
  (idx s < length (proxies s))%nat ->
  acquire_many n s
  = ((fun k => proxies s !! ((idx s + k) mod length (proxies s))%nat) <$> seq 0 n,
     {| proxies := proxies s; idx := ((idx s + n) mod length (proxies s))%nat;
        failures := failures s |}).
Proof.
  induction n as [|n IH]; intros [ps i fl] Hi; cbn [proxies idx failures] in *.
  - cbn. rewrite Nat.add_0_r, Nat.mod_small by exact Hi. reflexivity.
  - cbn [acquire_many]. unfold acquire. cbn [proxies idx failures].
    destruct ps as [|p ps]; [cbn in Hi; lia|].
    set (L := length (p :: ps)) in *.
    assert (HL : L <> 0%nat) by (unfold L; cbn; lia).
    rewrite IH by (cbn [proxies idx]; by apply Nat.mod_upper_bound).
    cbn [proxies idx failures]. f_equal.
    + cbn [seq fmap list_fmap]. rewrite Nat.add_0_r, (Nat.mod_small i L) by exact Hi.
      f_equal. rewrite <- seq_shift, <- list_fmap_compose.
      apply list_fmap_ext. intros _ k _. unfold compose.
      rewrite Nat.Div0.add_mod_idemp_l. do 2 f_equal. lia.
    + f_equal. rewrite Nat.Div0.add_mod_idemp_l. f_equal. lia.
Qed.

(** Round robin: from a new pool, as many [acquire] calls as there are
    proxies hand out every proxy once, in list order, and leave the pool
    where it started; with no proxies, [acquire] returns [None]. *)
Theorem proxy_rotation_is_fair (ps : list Store.ProxyConfig) :
  acquire_many (length ps) (init ps) = (Some <$> ps, init ps)
  /\ acquire (init []) = (None, init []).
Proof.
  split; [|reflexivity].
  destruct ps as [|p ps]; [reflexivity|].
  rewrite acquire_many_spec by (cbn; lia).
  cbn [init proxies idx failures]. rewrite Nat.add_0_l, Nat.Div0.mod_same.
  f_equal. apply list_eq. intros i.
  rewrite !list_lookup_fmap.
  destruct (decide (i < length (p :: ps))%nat) as [Hlt|Hge].
  - rewrite lookup_seq_lt by exact Hlt. cbn [fmap option_fmap option_map].
    rewrite !Nat.add_0_l, Nat.mod_small by exact Hlt.
    destruct (lookup_lt_is_Some_2 (p :: ps) i Hlt) as [x Hx]. rewrite Hx. reflexivity.
  - rewrite lookup_seq_ge by lia. rewrite lookup_ge_None_2 by lia. reflexivity.
Qed.

Lemma run_calls_ok ps calls :
  proxies (run_calls ps calls) = ps
  /\ map_Forall (fun _ n => (0 <= n)%Z) (failures (run_calls ps calls)).
Proof.
  unfold run_calls.
  assert (H0 : proxies (init ps) = ps
               /\ map_Forall (fun (_ : nat) n => (0 <= n)%Z) (failures (init ps))).
  { split; [reflexivity|apply map_Forall_empty]. }
  revert H0. generalize (init ps).
  induction calls as [|c calls IH]; intros s Hs; cbn [fold_left]; [exact Hs|].
  apply IH. destruct Hs as [Hp Hf]. destruct c as [|p|p]; cbn [apply_call].
  - unfold acquire. destruct (proxies s) eqn:E; cbn; [by rewrite E|].
    split; [congruence|exact Hf].
  - unfold report_failure. destruct (index p (proxies s)) as [i|]; [|done].
    cbn. split; [exact Hp|]. apply map_Forall_insert_2; [|exact Hf].
    unfold failures_get. destruct (failures s !! i) as [n|] eqn:E; cbn; [|lia].
    specialize (Hf i n E). cbn in Hf. lia.
  - unfold report_success. destruct (index p (proxies s)) as [i|]; [|done].
    destruct (Z.ltb_spec 0 (failures_get s i)); [|done].
    cbn. split; [exact Hp|]. apply map_Forall_insert_2; [lia|exact Hf].
Qed.

(** The failure counters of the proxies never go below zero, the list of
    proxies never changes, and a success reported right after a failure
    of the same proxy puts every counter back where it was. *)
Theorem proxy_failures_decay ps calls :
  let s := run_calls ps calls in
  proxies s = ps
  /\ (forall i, (0 <= failures_get s i)%Z)
  /\ forall p i, failures_get (report_success p (report_failure p s)) i
                 = failures_get s i.
Proof.
  cbv zeta. destruct (run_calls_ok ps calls) as [Hp Hf].
  set (s := run_calls ps calls) in *.
  assert (Hget : forall i, (0 <= failures_get s i)%Z).
  { intros i. unfold failures_get. destruct (failures s !! i) as [n|] eqn:E; cbn; [|lia].
    by apply (Hf i n). }
  split; [exact Hp|]. split; [exact Hget|].
  intros p i. unfold report_failure.
  destruct (index p (proxies s)) as [j|] eqn:Hj.
  - set (s1 := {| proxies := proxies s; idx := idx s;
                  failures := <[j := (failures_get s j + 1)%Z]> (failures s) |}).
    assert (Hcur : failures_get s1 j = (failures_get s j + 1)%Z).
    { unfold failures_get at 1. unfold s1. cbn [failures].
      by rewrite lookup_insert_eq. }
    pose proof (Hget j) as Hj0.
    unfold report_success. change (proxies s1) with (proxies s). rewrite Hj.
    cbv zeta. rewrite Hcur.
    destruct (Z.ltb_spec 0 (failures_get s j + 1)); [|lia].
    unfold failures_get at 1. cbn [failures]. unfold s1 at 1. cbn [failures].
    rewrite insert_insert_eq.
    destruct (decide (j = i)) as [->|Hne].
    + rewrite lookup_insert_eq. cbn. lia.
    + rewrite lookup_insert_ne by done. reflexivity.
  - unfold report_success. rewrite Hj. reflexivity.
Qed.

End ProxyFacts.

(** ** The orchestrator, continued *)

Section OrchestratorMore.
Import Pool Orchestrator Spec_model.

Lemma t3_is_not_t1 rid :
  PyStr.startswith rid "t3_" = true -> PyStr.startswith rid "t1_" = false.
Proof.
  destruct rid as [|a [|b rid]]; cbn [PyStr.startswith]; try discriminate.
  - rewrite andb_false_r. discriminate.
  - intros [_ [Hb _]%andb_prop]%andb_prop.
    apply Ascii.eqb_eq in Hb as <-.
    change (Ascii.eqb "1" "3") with false. by rewrite andb_false_r.
Qed.

Lemma extract_last_ids_snoc es e :
  _extract_last_ids (es ++ [e])
  = match e with
    | Some rid =>
        if PyStr.startswith rid "t3_" then (Some rid, snd (_extract_last_ids es))
        else if PyStr.startswith rid "t1_" then (fst (_extract_last_ids es), Some rid)
        else _extract_last_ids es
    | None => _extract_last_ids es
    end.
Proof.
  unfold _extract_last_ids at 1. rewrite fold_left_app. cbn [fold_left].
  change (fold_left _ es (None, None)) with (_extract_last_ids es).
  destruct (_extract_last_ids es) as [lp lc]. cbn [fst snd].
  destruct e as [rid|]; [|reflexivity].
  destruct (PyStr.startswith rid "t3_"); [reflexivity|].
  destruct (PyStr.startswith rid "t1_"); reflexivity.
Qed.

(** [_extract_last_ids] returns the last id that starts with "t3_" and
    the last id that starts with "t1_" among the entities that decode,
    each [None] when there is no such id; entities that fail to decode
    are skipped. *)
Theorem extract_last_ids_are_last (es : list Entity) :
  _extract_last_ids es
  = (last (filter (fun rid => PyStr.startswith rid "t3_" = true) (omap (fun e => e) es)),
     last (filter (fun rid => PyStr.startswith rid "t1_" = true) (omap (fun e => e) es))).
Proof.
  induction es as [|e es IH] using rev_ind; [reflexivity|].
  rewrite extract_last_ids_snoc, IH, omap_app, !filter_app. cbn [fst snd].
  destruct e as [rid|]; cbn [omap list_omap].
  - rewrite !filter_cons, !filter_nil.
    destruct (PyStr.startswith rid "t3_") eqn:H3.
    + rewrite (t3_is_not_t1 rid H3).
      rewrite decide_True by reflexivity. rewrite decide_False by discriminate.
      by rewrite last_snoc, app_nil_r.
    + rewrite decide_False by discriminate. rewrite app_nil_r.
      destruct (PyStr.startswith rid "t1_") eqn:H1.
      * rewrite decide_True by reflexivity. by rewrite last_snoc.
      * rewrite decide_False by discriminate. by rewrite app_nil_r.
  - by rewrite !filter_nil, !app_nil_r.
Qed.

(** A job that was just run is out of the ready set for at least
    [JOB_COOLDOWN_MIN] seconds and back in it after [JOB_COOLDOWN_MAX]
    at the latest; marking it does not change the readiness of any
    other job. *)
Theorem job_cooldown_honoured cfg job0 (state : JobState) (now : Q) d st' :
  _mark_job_cooldown cfg job0 state now d = (true, st') ->
  (forall t, (t < now + inject_Z (JOB_COOLDOWN_MIN cfg))%Q ->
     _job_ready job0 st' t = false
     /\ forall all_jobs, job0 ∉ Catalog.ready_jobs all_jobs st' t)
  /\ (forall t, (now + inject_Z (JOB_COOLDOWN_MAX cfg) <= t)%Q ->
        _job_ready job0 st' t = true)
  /\ (forall other t, job_id other <> job_id job0 ->
        _job_ready other st' t = _job_ready other state t).
Proof.
  unfold _mark_job_cooldown. cbv zeta.
  destruct (_job_cooldown_window cfg d) as [u|] eqn:Hu; [|discriminate].
  intros [= <-]. apply randint_range in Hu as [Hlo Hhi].
  rewrite Zle_Qle in Hlo, Hhi.
  assert (Hrt : forall t, _job_ready job0
                   (<[job_id job0 := {| last_run_ts := Some now;
                                        next_eligible_ts := Some (now + inject_Z u)%Q |}]>
                      state) t
                 = Qle_bool (now + inject_Z u) t).
  { intros t. unfold _job_ready, rt_or_empty. by rewrite lookup_insert_eq. }
  split; [|split].
  - intros t Ht.
    assert (Hf : _job_ready job0
                   (<[job_id job0 := {| last_run_ts := Some now;
                                        next_eligible_ts := Some (now + inject_Z u)%Q |}]>
                      state) t = false).
    { rewrite Hrt. apply Qle_bool_false_of_lt. lra. }
    split; [exact Hf|]. intros all_jobs Hin.
    unfold Catalog.ready_jobs in Hin.
    apply list_elem_of_In, filter_In in Hin as [_ Hin]. congruence.
  - intros t Ht. rewrite Hrt. apply Qle_bool_iff. lra.
  - intros other t Hne. unfold _job_ready, rt_or_empty.
    by rewrite lookup_insert_ne.
Qed.

Lemma job_cooldown_honoured_witness :
  _job_ready Samples.job_1
    (<[ "job-1" := {| last_run_ts := Some 100%Q;
                      next_eligible_ts := Some (100 + inject_Z (1200 + 250 mod 601))%Q |}]> ∅)
    (100 + inject_Z 1800) = true.
Proof.
  apply (job_cooldown_honoured default_config Samples.job_1 ∅ 100 250
           (<[ "job-1" := {| last_run_ts := Some 100%Q;
                             next_eligible_ts :=
                               Some (100 + inject_Z (1200 + 250 mod 601))%Q |}]> ∅)).
  - reflexivity.
  - cbn. lra.
Defined.

(** [_save_json] then [_load_json] gives back the saved state, whatever
    the default; a missing file loads as the default; and unless the
    state file itself ends in ".tmp", the save goes through a temp file:
    the state file keeps its old content until the rename, and no other
    file is touched. *)
Theorem save_json_then_load path (data dflt : JobState) (files : FS) :
  _load_json path dflt (_save_json path data files) = data
  /\ (files path = None -> _load_json path dflt files = dflt)
  /\ (with_suffix path ".tmp" <> path ->
      fst (_save_json_steps path data files) path = files path
      /\ _save_json path data files (with_suffix path ".tmp") = None
      /\ forall q, q <> path -> q <> with_suffix path ".tmp" ->
                   _save_json path data files q = files q).
Proof.
  split; [|split].
  - unfold _load_json. by rewrite save_json_target.
  - intros H. unfold _load_json. by rewrite H.
  - intros Hne. pose proof (save_json_atomic path data files Hne) as H.
    unfold _save_json. destruct (_save_json_steps path data files) as [fs1 fs2].
    cbn [fst snd]. destruct H as (H1 & _ & _ & H4 & H5). done.
Qed.

Lemma spawn_appends add : forall s,
  workers s ## ((fun k => next_worker_id s + Z.of_nat k)%Z <$> seq 0 add) ->
  NoDup (workers s) ->
  (forall wid, wid ∈ workers s -> (wid < next_worker_id s)%Z) ->
  workers (spawn add s)
  = (workers s ++ ((fun k => next_worker_id s + Z.of_nat k)%Z <$> seq 0 add))%list
  /\ next_worker_id (spawn add s) = (next_worker_id s + Z.of_nat add)%Z.
Proof.
  induction add as [|add IH]; intros s _ Hnd Hlt; cbn [spawn].
  - cbn. rewrite app_nil_r. split; [reflexivity|lia].
  - assert (Hfresh : next_worker_id s ∉ workers s).
    { intros Hin. apply Hlt in Hin. lia. }
    set (s1 := {| workers := dict_set (next_worker_id s) (workers s);
                  next_worker_id := next_worker_id s + 1;
                  running := running s |}).
    assert (Hw1 : workers s1 = (workers s ++ [next_worker_id s])%list).
    { unfold s1, dict_set. cbn. by rewrite bool_decide_eq_false_2. }
    destruct (IH s1) as [Hw Hn].
    + rewrite Hw1. intros x Hx Hx'. apply list_elem_of_fmap in Hx' as (k & -> & _).
      apply elem_of_app in Hx as [Hx|Hx].
      * apply Hlt in Hx. unfold s1 in Hx. cbn in Hx. lia.
      * apply list_elem_of_singleton in Hx. unfold s1 in Hx. cbn in Hx. lia.
    + rewrite Hw1. apply NoDup_app. split; [exact Hnd|]. split; [|apply NoDup_singleton].
      intros x Hx Hx'. apply list_elem_of_singleton in Hx' as ->. done.
    + intros wid Hin. rewrite Hw1 in Hin. unfold s1. cbn.
      apply elem_of_app in Hin as [Hin|Hin].
      * apply Hlt in Hin. lia.
      * apply list_elem_of_singleton in Hin as ->. lia.
    + rewrite Hw, Hn, Hw1. unfold s1. cbn [next_worker_id]. split; [|lia].
      rewrite <- app_assoc. f_equal. cbn [seq fmap list_fmap app].
      rewrite Z.add_0_r. f_equal.
      rewrite <- seq_shift, <- list_fmap_compose. apply list_fmap_ext.
      intros _ k _. unfold compose. lia.
Qed.

(** Scaling is ordered. When there are too many workers the supervisor
    cancels the ones registered first: if awaiting each of them returns,
    the most recent [target] workers are kept and the loop goes on; if
    awaiting one of them raises [CancelledError], the workers before it
    are gone, it and all later ones stay registered, and the
    supervisor's loop is left. When there are too few workers it appends
    workers under the next unused ids, in order, and never reuses an id;
    when the count is right it changes nothing. *)
Theorem scale_cancels_oldest_first inps health await_returns :
  let s := run_ticks inps in
  let target := target_workers (health_get health Ready) in
  let current := Z.of_nat (length (workers s)) in
  let s' := scale health await_returns s in
  ((target < current)%Z ->
     ((forall wid, wid ∈ take (Z.to_nat (current - target)) (workers s) ->
         await_returns wid = true) ->
      workers s' = drop (Z.to_nat (current - target)) (workers s)
      /\ next_worker_id s' = next_worker_id s /\ running s' = running s)
     /\ (forall j wid,
          (j < Z.to_nat (current - target))%nat -> workers s !! j = Some wid ->
          await_returns wid = false ->
          (forall w, w ∈ take j (workers s) -> await_returns w = true) ->
          workers s' = drop j (workers s)
          /\ next_worker_id s' = next_worker_id s /\ running s' = false))
  /\ ((current < target)%Z ->
        workers s'
        = (workers s ++ ((fun k => next_worker_id s + Z.of_nat k)%Z
                           <$> seq 0 (Z.to_nat (target - current))))%list
        /\ next_worker_id s' = (next_worker_id s + (target - current))%Z
        /\ running s' = running s)
  /\ (target = current -> s' = s).
Proof.
  cbv zeta. pose proof (run_ticks_ok inps) as [Hnd Hlt].
  set (s := run_ticks inps) in *. unfold scale. cbv zeta.
  set (target := target_workers (health_get health Ready)).
  set (current := Z.of_nat (length (workers s))).
  split; [|split].
  - intros H. destruct (Z.ltb_spec current target); [lia|].
    destruct (Z.ltb_spec target current); [|lia]. split.
    + intros Hret.
      rewrite (cancel_loop_through await_returns (workers s) (current - target) Hnd Hret).
      cbn. by rewrite andb_true_r.
    + intros j wid Hj Hlook Hwid Hret.
      rewrite (cancel_loop_stops await_returns (workers s) (current - target) j wid
                 Hnd Hj Hlook Hwid Hret).
      cbn. by rewrite andb_false_r.
  - intros H. destruct (Z.ltb_spec current target); [|lia].
    destruct (Z.ltb_spec target current); [lia|].
    destruct (spawn_appends (Z.to_nat (target - current)) s) as [Hw Hn];
      [|exact Hnd|exact Hlt|].
    + intros x Hx Hx'. apply list_elem_of_fmap in Hx' as (k & -> & _).
      apply Hlt in Hx. lia.
    + split; [exact Hw|]. split; [rewrite Hn; lia|apply spawn_running].
  - intros H. destruct (Z.ltb_spec current target); [lia|].
    destruct (Z.ltb_spec target current); [lia|reflexivity].
Qed.

Lemma scale_cancels_oldest_first_witness :
  let inps := [ {| tick_health := Some (health_report Samples.eight_cooling);
                   tick_await_returns := fun _ => true;
                   tick_done := fun wid => (wid =? 4)%Z |} ] in
  let s' := scale None (fun wid => negb (wid =? 2)%Z) (run_ticks inps) in
  workers (run_ticks inps) = [0; 1; 2; 3; 5]%Z
  /\ workers s' = [2; 3; 5]%Z /\ next_worker_id s' = 6%Z /\ running s' = false.
Proof.
  cbv zeta. split; [vm_compute; reflexivity|].
  refine (proj2 (proj1 (scale_cancels_oldest_first
            [ {| tick_health := Some (health_report Samples.eight_cooling);
                 tick_await_returns := fun _ => true;
                 tick_done := fun wid => (wid =? 4)%Z |} ]
            None (fun wid => negb (wid =? 2)%Z)) _) 2%nat 2%Z _ _ _ _).
  - vm_compute. reflexivity.
  - vm_compute. lia.
  - vm_compute. reflexivity.
  - reflexivity.
  - intros w Hw. vm_compute in Hw.
    repeat (apply elem_of_cons in Hw as [->|Hw]; [reflexivity|]).
    by apply elem_of_nil in Hw.
Defined.

Lemma filter_filter_bool {A} (f g : A -> bool) (l : list A) :
  List.filter f (List.filter g l) = List.filter (fun x => g x && f x) l.
Proof.
  induction l as [|x l IH]; [reflexivity|]. cbn.
  destruct (g x); cbn; [destruct (f x)|]; by rewrite IH.
Qed.

Lemma reap_fold (done : Z -> bool) (snapshot : list Z) : forall ws : list Z,
  fold_left (fun ws wid => if done wid then dict_pop wid ws else ws) snapshot ws
  = List.filter (fun w => negb (done w && bool_decide (w ∈ snapshot))) ws.
Proof.
  induction snapshot as [|x snapshot IH]; intros ws; cbn [fold_left].
  - induction ws as [|w ws IHw]; [reflexivity|]. cbn.
    rewrite bool_decide_eq_false_2 by apply not_elem_of_nil.
    rewrite andb_false_r. cbn. by rewrite <- IHw.
  - destruct (done x) eqn:Hx.
    + rewrite IH. unfold dict_pop. rewrite filter_filter_bool.
      apply List.filter_ext. intros w.
      destruct (Z.eqb_spec w x) as [->|Hne]; cbn.
      * rewrite Hx. rewrite bool_decide_eq_true_2 by apply list_elem_of_here. reflexivity.
      * f_equal. f_equal. apply bool_decide_ext. rewrite elem_of_cons. tauto.
    + rewrite IH. apply List.filter_ext. intros w.
      destruct (Z.eqb_spec w x) as [->|Hne].
      * by rewrite Hx.
      * f_equal. f_equal. apply bool_decide_ext. rewrite elem_of_cons. tauto.
Qed.

(** Reaping drops exactly the workers whose task is done, keeps the
    others in their order, and leaves the id counter alone. *)
Theorem reap_drops_done_workers (done : Z -> bool) (s : Supervisor) :
  workers (reap done s) = List.filter (fun w => negb (done w)) (workers s)
  /\ next_worker_id (reap done s) = next_worker_id s.
Proof.
  unfold reap. cbn. split; [|reflexivity]. rewrite reap_fold.
  apply List.filter_ext_in. intros w Hin. apply list_elem_of_In in Hin.
  rewrite bool_decide_eq_true_2 by exact Hin. by rewrite andb_true_r.
Qed.

End OrchestratorMore.

(** ** The worker, continued *)

Section WorkerMore.
Import Pool Orchestrator.

Lemma try_upsert_accounts wid acct sub post comment w :
  Store.tbl_accounts (db (try_upsert wid acct sub post comment w))
  = Store.tbl_accounts (db w).
Proof.
  unfold try_upsert, Store.upsert.
  destruct (Store.tbl_checkpoints (db w)); reflexivity.
Qed.

Lemma pool_acquire_lease during w lease w1 :
  pool_acquire during w = (inr lease, w1) ->
  exists t r, Store.tbl_accounts (db w1) = Some t
    /\ t !! account_id lease = Some r /\ status r = Leased.
Proof.
  unfold pool_acquire. destruct (Store.tbl_accounts (db w)) as [t|]; [|discriminate].
  unfold Pool.acquire, _select_and_mark. cbv zeta.
  assert (Hmark : forall now (d : Accounts) id r,
            select_ready now d = Some (id, r) ->
            exists r', mark_leased id d !! id = Some r' /\ status r' = Leased).
  { intros now d id r Hsel. apply select_ready_eligible in Hsel as [Hin _].
    exists (set_leased r). unfold mark_leased.
    rewrite lookup_alter_eq, Hin. done. }
  destruct (select_ready (clock w) t) as [[id r]|] eqn:H1.
  - intros [= <- <-]. cbn. destruct (Hmark _ _ _ _ H1) as (r' & ? & ?).
    by exists (mark_leased id t), r'.
  - destruct (select_ready (clock w) (during t)) as [[id r]|] eqn:H2; [|discriminate].
    intros [= <- <-]. cbn. destruct (Hmark _ _ _ _ H2) as (r' & ? & ?).
    by exists (mark_leased id (during t)), r'.
Qed.

Lemma release_makes_ready cs lease success now (t : Accounts) r :
  release cs lease success now t !! account_id lease = Some r ->
  status r = Ready /\ cooldown_until r <> None.
Proof.
  unfold release. rewrite lookup_alter_eq.
  destruct (t !! account_id lease) as [r0|]; [|discriminate].
  intros [= <-]. unfold release_row. by destruct success.
Qed.

Lemma on_scrape_error_makes_ready cfg lease msg now (t : Accounts) r :
  on_scrape_error cfg lease msg now t !! account_id lease = Some r ->
  status r = Ready /\ cooldown_until r <> None.
Proof.
  unfold on_scrape_error, lease_release. cbv zeta.
  destruct (Orchestrator_classify._looks_rate_limited msg);
    [|destruct (Orchestrator_classify._looks_auth_ban msg)];
    apply release_makes_ready.
Qed.

Lemma error_path_accounts cfg wid lease sub msg w :
  Store.tbl_accounts (db (error_path cfg wid lease sub msg w))
  = on_scrape_error cfg lease msg (clock w) <$> Store.tbl_accounts (db w).
Proof.
  unfold error_path. cbv zeta. cbn [sleep db]. by rewrite try_upsert_accounts.
Qed.

(** What becomes of a lease. Once [acquire] has handed out an account,
    its row is leased. If the configuration is built ([ENTITY_LIMIT] is
    positive and [_build_scrape_config] returns) and the scrape returns
    or raises, the row is back to ready with a cooldown time when the
    pass ends, whatever was said in the error message. If
    [ENTITY_LIMIT] is not positive, or [_build_scrape_config] raises, the
    pass ends with the accounts table as [acquire] left it, the row
    still leased. If the task is cancelled during the scrape, nothing is
    released either: the table is as the scrape left it. *)
Theorem worker_iteration_returns_lease cfg wid path inp w lease w1 :
  pool_acquire (during_acquire inp) w = (inr lease, w1) ->
  let w' := worker_iteration cfg wid path inp w in
  exists t t' r,
    Store.tbl_accounts (db w1) = Some t
    /\ t !! account_id lease = Some r /\ status r = Leased
    /\ Store.tbl_accounts (db w') = Some t'
    /\ ((0 < ENTITY_LIMIT cfg)%Z -> build inp <> None -> outcome inp <> Cancelled ->
        forall r', t' !! account_id lease = Some r' ->
                   status r' = Ready /\ cooldown_until r' <> None)
    /\ ((ENTITY_LIMIT cfg <= 0)%Z \/ build inp = None -> t' = t)
    /\ ((0 < ENTITY_LIMIT cfg)%Z -> build inp <> None -> outcome inp = Cancelled ->
        t' = during_scrape inp t).
Proof.
  intros Hacq. cbv zeta.
  destruct (pool_acquire_lease _ _ _ _ Hacq) as (t & r & Ht & Hr & Hs).
  exists t. unfold worker_iteration. rewrite Hacq.
  destruct (build_options_limit cfg) as [Hnone Hsome].
  destruct (build inp) as [label_value|].
  2:{ exists t, r. cbn [sleep db]. do 3 (split; [done|]). split; [exact Ht|].
      split; [intros; congruence|]. split; [done|]. intros; congruence. }
  destruct (_build_options cfg) as [options|] eqn:Hopt.
  2:{ apply proj1 in Hnone. specialize (Hnone eq_refl). exists t, r. cbn [sleep db].
      do 3 (split; [done|]). split; [exact Ht|].
      split; [intros; lia|]. split; [done|]. intros; lia. }
  assert (Hpos : (0 < ENTITY_LIMIT cfg)%Z).
  { destruct (Z.ltb_spec 0 (ENTITY_LIMIT cfg)) as [H|H]; [exact H|].
    apply Hnone in H. discriminate. }
  cbv zeta. destruct (outcome inp) as [entities|msg|].
  - destruct (_mark_job_cooldown _ _ _ _ _) as [[|] st].
    + destruct (_extract_last_ids entities) as [lp lc].
      cbn [on_accounts set_db db]. rewrite try_upsert_accounts.
      cbn [on_accounts set_db db sleep]. rewrite try_upsert_accounts, Ht.
      cbn [fmap option_fmap option_map]. eexists _, r.
      do 3 (split; [done|]). split; [reflexivity|].
      split; [intros _ _ _ r'; apply release_makes_ready|].
      split; [intros [?|?]; [lia|done]|intros; congruence].
    + rewrite error_path_accounts. cbn [db sleep on_accounts set_db].
      rewrite try_upsert_accounts, Ht. cbn [fmap option_fmap option_map].
      eexists _, r. do 3 (split; [done|]). split; [reflexivity|].
      split; [intros _ _ _ r'; apply on_scrape_error_makes_ready|].
      split; [intros [?|?]; [lia|done]|intros; congruence].
  - rewrite error_path_accounts. cbn [db sleep on_accounts set_db].
    rewrite try_upsert_accounts, Ht. cbn [fmap option_fmap option_map].
    eexists _, r. do 3 (split; [done|]). split; [reflexivity|].
    split; [intros _ _ _ r'; apply on_scrape_error_makes_ready|].
    split; [intros [?|?]; [lia|done]|intros; congruence].
  - cbn [db sleep on_accounts set_db]. rewrite try_upsert_accounts, Ht.
    cbn [fmap option_fmap option_map]. eexists _, r.
    do 3 (split; [done|]). split; [reflexivity|].
    split; [intros; congruence|]. split; [intros [?|?]; [lia|done]|done].
Qed.

Lemma worker_iteration_returns_lease_witness :
  let leaked cfg :=
    Store.tbl_accounts
      (db (worker_iteration cfg "0" Samples.job_state_path
             (Samples.input_of (Raised "403 Forbidden")) Samples.world_0)) in
  (exists t', leaked default_config = Some t'
     /\ forall r', t' !! "acct-1" = Some r' ->
          status r' = Ready /\ cooldown_until r' <> None)
  /\ leaked {| POLL_SECONDS := 60; IDLE_SLEEP := 300; JOB_COOLDOWN_MIN := 1200;
               JOB_COOLDOWN_MAX := 1800; ENTITY_LIMIT := 0;
               pool_cooldown_seconds := 60 |}
     = Some Samples.leased_db.
Proof.
  cbv zeta. split.
  - destruct (worker_iteration_returns_lease default_config "0" Samples.job_state_path
                (Samples.input_of (Raised "403 Forbidden")) Samples.world_0
                Samples.lease_1
                {| db := {| Store.tbl_accounts := Some Samples.leased_db;
                            Store.tbl_proxies := Some ∅;
                            Store.tbl_checkpoints := None |};
                   job_state := ∅; fs := fun _ => None; clock := 100 # 1 |} eq_refl)
      as (t & t' & r & _ & _ & _ & Ht' & Hready & _).
    exists t'. split; [exact Ht'|]. apply Hready; [reflexivity|discriminate|discriminate].
  - destruct (worker_iteration_returns_lease
                {| POLL_SECONDS := 60; IDLE_SLEEP := 300; JOB_COOLDOWN_MIN := 1200;
                   JOB_COOLDOWN_MAX := 1800; ENTITY_LIMIT := 0;
                   pool_cooldown_seconds := 60 |}
                "0" Samples.job_state_path
                (Samples.input_of (Raised "403 Forbidden")) Samples.world_0
                Samples.lease_1
                {| db := {| Store.tbl_accounts := Some Samples.leased_db;
                            Store.tbl_proxies := Some ∅;
                            Store.tbl_checkpoints := None |};
                   job_state := ∅; fs := fun _ => None; clock := 100 # 1 |} eq_refl)
      as (t & t' & r & Ht & _ & _ & Ht' & _ & Hleak & _).
    cbv zeta in Ht'. rewrite Ht'. f_equal. rewrite Hleak by (left; cbn; lia).
    cbn in Ht. by injection Ht as <-.
Defined.

(** Where the checkpoints table exists, a pass that held a lease and
    built its configuration leaves the worker's checkpoint readable:
    account and subreddit of the run, stamped with the time the scrape
    ended, with the last post and comment ids of the scraped entities
    after a scrape that returned, and with neither after one that
    raised. After a scrape that was cancelled the checkpoint is the one
    written at the start, stamped with the time of the lease. When
    [ENTITY_LIMIT] is not positive or [_build_scrape_config] raises, the
    pass writes no checkpoint at all. The subreddit is the value of the
    job's label as the built configuration holds it, "all" without a
    label. *)
Theorem worker_checkpoint_after_scrape cfg wid path inp w lease w1 ck :
  pool_acquire (during_acquire inp) w = (inr lease, w1) ->
  Store.tbl_checkpoints (db w) = Some ck ->
  let w' := worker_iteration cfg wid path inp w in
  let now := (clock w1 + scrape_seconds inp)%Q in
  let row label_value post comment at_time :=
    {| Store.ck_account_id := Some (account_id lease);
       Store.last_subreddit := Some (last_subreddit_of (job inp) label_value);
       Store.last_post_id := post; Store.last_comment_id := comment;
       Store.updated_at := at_time |} in
  (forall label_value, (0 < ENTITY_LIMIT cfg)%Z -> build inp = Some label_value ->
     (forall entities u, outcome inp = Scraped entities ->
        _job_cooldown_window cfg (draw inp) = Some u ->
        Store.get wid (db w')
        = inr (Some (row label_value (fst (_extract_last_ids entities))
                         (snd (_extract_last_ids entities)) now)))
     /\ (forall msg, outcome inp = Raised msg ->
           Store.get wid (db w') = inr (Some (row label_value None None now)))
     /\ (outcome inp = Cancelled ->
           Store.get wid (db w') = inr (Some (row label_value None None (clock w1)))))
  /\ ((ENTITY_LIMIT cfg <= 0)%Z \/ build inp = None ->
      Store.get wid (db w') = Store.get wid (db w)).
Proof.
  intros Hacq Hck. cbv zeta.
  pose proof (pool_acquire_frame _ _ _ _ Hacq) as (_ & _ & Hck1).
  destruct (build_options_limit cfg) as [Hnone Hsome].
  unfold worker_iteration. rewrite Hacq. split.
  - intros label_value Hpos ->. destruct (Hsome Hpos) as [options ->]. cbv zeta.
    rewrite Hck in Hck1. destruct w1 as [[ta tp tc] js f c]. cbn in Hck1. subst tc.
    split; [|split].
    + intros entities u -> Hu. unfold _mark_job_cooldown. cbv zeta. rewrite Hu.
      destruct (_extract_last_ids entities) as [lp lc].
      unfold try_upsert, Store.upsert, Store.get. cbn.
      by rewrite lookup_insert_eq.
    + intros msg ->. unfold error_path, try_upsert, Store.upsert, Store.get. cbn.
      by rewrite lookup_insert_eq.
    + intros ->. unfold try_upsert, Store.upsert, Store.get. cbn.
      by rewrite lookup_insert_eq.
  - intros Hor. unfold Store.get.
    assert (Hw : Store.tbl_checkpoints
                   (db match build inp with
                       | Some _ =>
                           match _build_options cfg with
                           | Some _ => sleep 5 w1
                           | None => sleep 5 w1
                           end
                       | None => sleep 5 w1
                       end) = Store.tbl_checkpoints (db w)).
    { destruct (build inp); [destruct (_build_options cfg)|]; exact Hck1. }
    destruct Hor as [Hle|Hb].
    + apply Hnone in Hle. rewrite Hle.
      destruct (build inp); cbn [sleep db]; by rewrite Hck1.
    + rewrite Hb. cbn [sleep db]. by rewrite Hck1.
Qed.

Lemma worker_checkpoint_after_scrape_witness :
  Store.get "0"
    (db (worker_iteration default_config "0" Samples.job_state_path
           (Samples.input_of (Scraped [Some "t3_abc"; None; Some "t1_x"; Some "t3_def"]))
           {| db := {| Store.tbl_accounts := Some Samples.ready_db;
                       Store.tbl_proxies := Some ∅;
                       Store.tbl_checkpoints := Some ∅ |};
              job_state := ∅; fs := fun _ => None; clock := 100 # 1 |}))
  = inr (Some {| Store.ck_account_id := Some "acct-1";
                 Store.last_subreddit := Some "r/bittensor_";
                 Store.last_post_id := Some "t3_def";
                 Store.last_comment_id := Some "t1_x";
                 Store.updated_at := ((100 # 1) + (7 # 1))%Q |}).
Proof.
  refine (proj1 (proj1 (worker_checkpoint_after_scrape default_config "0"
                   Samples.job_state_path
                   (Samples.input_of
                      (Scraped [Some "t3_abc"; None; Some "t1_x"; Some "t3_def"]))
                   {| db := {| Store.tbl_accounts := Some Samples.ready_db;
                               Store.tbl_proxies := Some ∅;
                               Store.tbl_checkpoints := Some ∅ |};
                      job_state := ∅; fs := fun _ => None; clock := 100 # 1 |}
                   Samples.lease_1
                   {| db := {| Store.tbl_accounts := Some Samples.leased_db;
                               Store.tbl_proxies := Some ∅;
                               Store.tbl_checkpoints := Some ∅ |};
                      job_state := ∅; fs := fun _ => None; clock := 100 # 1 |}
                   ∅ _ _) (fun l => l) _ _) _ 1450%Z eq_refl _).
  - reflexivity.
  - reflexivity.
  - reflexivity.
  - reflexivity.
  - reflexivity.
Defined.

End WorkerMore.

(** ** Scrape options and the planner *)

Section PlannerFacts.
Import Planner.

Lemma valid_inv o :
  valid o = true ->
  listing_types o <> []
  /\ (L_SEARCH ∈ listing_types o -> or_empty (search_queries o) <> [])
  /\ (forall v, pagination_target o = Some v -> (0 < v)%Z)
  /\ (0 < per_listing_limit o)%Z.
Proof.
  unfold valid, validation_errors. intros H%bool_decide_eq_true.
  cbn [omap list_omap] in H.
  destruct (_non_empty_listing_types o) eqn:H1; [discriminate|].
  destruct (_search_requires_queries o) eqn:H2; [discriminate|].
  destruct (_non_negative_target o) eqn:H3; [discriminate|].
  destruct (_positive_limit o) eqn:H4; [discriminate|]. clear H.
  unfold _non_empty_listing_types in H1. unfold _search_requires_queries, has_search in H2.
  unfold _non_negative_target in H3. unfold _positive_limit in H4.
  split; [|split; [|split]].
  - by destruct (listing_types o).
  - intros Hin Hq. rewrite bool_decide_eq_true_2 in H2 by exact Hin.
    rewrite bool_decide_eq_true_2 in H2 by exact Hq. discriminate.
  - intros v Hv. rewrite Hv in H3. destruct (Z.leb_spec v 0); [discriminate|lia].
  - destruct (Z.leb_spec (per_listing_limit o) 0); [discriminate|lia].
Qed.

Lemma tfs_or_none_length o :
  length (tfs_or_none o) = Nat.max 1 (length (or_empty (time_filters o))).
Proof.
  unfold tfs_or_none. destruct (or_empty (time_filters o)) as [|f fs]; [reflexivity|].
  rewrite length_map. cbn [length]. lia.
Qed.

Lemma elem_of_tfs_or_none o tf :
  tf ∈ tfs_or_none o <->
  (or_empty (time_filters o) = [] /\ tf = None)
  \/ exists f, tf = Some f /\ f ∈ or_empty (time_filters o).
Proof.
  unfold tfs_or_none. destruct (or_empty (time_filters o)) as [|f fs].
  - rewrite list_elem_of_singleton. split.
    + intros ->. by left.
    + intros [[_ ->]|(f & _ & Hf)]; [reflexivity|]. by apply not_elem_of_nil in Hf.
  - rewrite list_elem_of_In, in_map_iff. split.
    + intros (x & <- & Hx). right. exists x. by rewrite list_elem_of_In.
    + intros [[? _]|(x & -> & Hx)]; [discriminate|].
      exists x. by rewrite <- list_elem_of_In.
Qed.

Lemma elem_of_listing_targets sub o l t :
  t ∈ listing_targets sub o l <->
  l <> L_SEARCH
  /\ exists tf, t = SubmissionsTarget sub l tf None (per_listing_limit o)
       /\ if takes_time_filter l then tf ∈ tfs_or_none o else tf = None.
Proof.
  unfold listing_targets.
  destruct l; cbn [takes_time_filter];
    rewrite ?list_elem_of_singleton, ?list_elem_of_In, ?in_map_iff.
  all: try (split; [intros ->; split; [discriminate|]; by exists None
                   |by intros (_ & tf & -> & ->)]).
  - split.
    + intros (tf & <- & Hin). split; [discriminate|]. exists tf.
      by rewrite list_elem_of_In.
    + intros (_ & tf & -> & Hin). exists tf. by rewrite <- list_elem_of_In.
  - split.
    + intros (tf & <- & Hin). split; [discriminate|]. exists tf.
      by rewrite list_elem_of_In.
    + intros (_ & tf & -> & Hin). exists tf. by rewrite <- list_elem_of_In.
  - split; [intros []|by intros [? _]].
Qed.

Lemma elem_of_search_targets sub o t :
  t ∈ search_targets sub o <->
  L_SEARCH ∈ listing_types o
  /\ exists q tf, q ∈ or_empty (search_queries o) /\ tf ∈ tfs_or_none o
       /\ t = SearchTarget sub q (default S_NEW (search_sort o)) tf (per_listing_limit o).
Proof.
  unfold search_targets, has_search.
  destruct (or_empty (search_queries o)) as [|q0 qs] eqn:Hq.
  - split; [by intros ?%not_elem_of_nil|].
    by intros (_ & q & tf & ?%not_elem_of_nil & _).
  - destruct (decide (L_SEARCH ∈ listing_types o)) as [Hs|Hs].
    + rewrite bool_decide_eq_true_2 by exact Hs.
      rewrite list_elem_of_In, in_flat_map. split.
      * intros (q & Hin & (tf & <- & Htf)%in_map_iff). split; [exact Hs|].
        exists q, tf. by rewrite !list_elem_of_In.
      * intros (_ & q & tf & Hin & Htf & ->). exists q.
        rewrite <- list_elem_of_In. split; [exact Hin|].
        apply in_map_iff. exists tf. by rewrite <- list_elem_of_In.
    + rewrite bool_decide_eq_false_2 by exact Hs.
      split; [by intros ?%not_elem_of_nil|]. by intros [? _].
Qed.

Lemma elem_of_timeline_targets o t :
  t ∈ timeline_targets o <->
  exists u surface, u ∈ or_empty (user_timelines o)
    /\ t = UserTimelineTarget u surface S_NEW (per_listing_limit o).
Proof.
  unfold timeline_targets. rewrite list_elem_of_In, in_flat_map. split.
  - intros (u & Hin & Ht). apply list_elem_of_In in Hin.
    destruct Ht as [<-|[<-|[]]]; [by exists u, Submissions|by exists u, Comments].
  - intros (u & surface & Hin & ->). exists u. rewrite <- list_elem_of_In.
    split; [exact Hin|]. destruct surface; cbn; tauto.
Qed.

Lemma elem_of_build_plan sub o t :
  t ∈ build_plan sub o <->
  (exists l, l ∈ listing_types o /\ t ∈ listing_targets sub o l)
  \/ t ∈ search_targets sub o \/ t ∈ timeline_targets o.
Proof.
  unfold build_plan. rewrite !elem_of_app.
  rewrite (list_elem_of_In (flat_map _ _)), in_flat_map.
  setoid_rewrite <- list_elem_of_In. reflexivity.
Qed.

Lemma flat_map_length_sum {A B} (f : A -> list B) (l : list A) :
  length (flat_map f l) = list_sum (List.map (fun x => length (f x)) l).
Proof. induction l as [|x l IH]; [reflexivity|]. cbn. by rewrite length_app, IH. Qed.

Lemma flat_map_length_const {A B} (f : A -> list B) (l : list A) n :
  (forall x, length (f x) = n) -> length (flat_map f l) = (length l * n)%nat.
Proof.
  intros H. induction l as [|x l IH]; [reflexivity|]. cbn.
  by rewrite length_app, IH, H.
Qed.

(** Options that pass the four validators always give work to do: the
    plan has at least one target, and every target of the plan carries
    the options' [per_listing_limit], which is positive. *)
Theorem valid_options_plan_nonempty sub o :
  valid o = true ->
  expand_to_targets (build_plan sub o) <> []
  /\ forall t, t ∈ expand_to_targets (build_plan sub o) ->
       target_limit t = Some (per_listing_limit o) /\ (0 < per_listing_limit o)%Z.
Proof.
  intros (Hne & Hq & _ & Hpos)%valid_inv. unfold expand_to_targets. split.
  - assert (Htf : exists tf, tf ∈ tfs_or_none o).
    { pose proof (tfs_or_none_length o) as Hl.
      destruct (tfs_or_none o) as [|tf ?]; [cbn in Hl; lia|].
      exists tf. apply list_elem_of_here. }
    destruct Htf as [tf Htf].
    destruct (listing_types o) as [|l ls] eqn:Hl; [done|]. rewrite <- Hl in Hq.
    assert (Hin : l ∈ listing_types o) by (rewrite Hl; apply list_elem_of_here).
    destruct (decide (l = L_SEARCH)) as [->|Hns].
    + specialize (Hq Hin).
      destruct (or_empty (search_queries o)) as [|q qs] eqn:Hqs; [done|].
      assert (Ht : SearchTarget sub q (default S_NEW (search_sort o)) tf
                     (per_listing_limit o) ∈ build_plan sub o).
      { apply elem_of_build_plan. right; left. apply elem_of_search_targets.
        split; [exact Hin|]. exists q, tf. rewrite Hqs.
        split; [apply list_elem_of_here|done]. }
      intros E. rewrite E in Ht. by apply not_elem_of_nil in Ht.
    + assert (Ht : SubmissionsTarget sub l (if takes_time_filter l then tf else None)
                     None (per_listing_limit o) ∈ build_plan sub o).
      { apply elem_of_build_plan. left. exists l. split; [exact Hin|].
        apply elem_of_listing_targets. split; [exact Hns|].
        eexists. split; [reflexivity|]. by destruct (takes_time_filter l). }
      intros E. rewrite E in Ht. by apply not_elem_of_nil in Ht.
  - intros t Ht. split; [|exact Hpos].
    apply elem_of_build_plan in Ht as [(l & _ & Ht)|[Ht|Ht]].
    + by apply elem_of_listing_targets in Ht as (_ & tf & -> & _).
    + by apply elem_of_search_targets in Ht as (_ & q & tf & _ & _ & ->).
    + by apply elem_of_timeline_targets in Ht as (u & sf & _ & ->).
Qed.

Lemma valid_options_plan_nonempty_witness :
  expand_to_targets (build_plan "bittensor_" default_options) <> [].
Proof.
  refine (proj1 (valid_options_plan_nonempty "bittensor_" default_options _)).
  reflexivity.
Defined.

(** The size of a plan: one target per listing other than SEARCH, one
    per time filter (at least one) for TOP and CONTROVERSIAL; when
    SEARCH is listed, one search target per query and time filter (at
    least one); two targets per user timeline. *)
Theorem plan_size sub o :
  length (build_plan sub o)
  = (list_sum (List.map (listing_count o) (listing_types o))
     + (if has_search (listing_types o)
        then length (or_empty (search_queries o))
             * Nat.max 1 (length (or_empty (time_filters o)))
        else 0)
     + 2 * length (or_empty (user_timelines o)))%nat.
Proof.
  unfold build_plan. rewrite !length_app, Nat.add_assoc. f_equal; [f_equal|].
  - rewrite flat_map_length_sum. f_equal. apply List.map_ext. intros l.
    unfold listing_targets, listing_count.
    destruct l; rewrite ?length_map, ?tfs_or_none_length; reflexivity.
  - unfold search_targets.
    destruct (or_empty (search_queries o)) as [|q qs] eqn:Hq.
    + by destruct (has_search (listing_types o)).
    + destruct (has_search (listing_types o)); [|reflexivity].
      apply flat_map_length_const. intros x.
      by rewrite length_map, tfs_or_none_length.
  - unfold timeline_targets.
    rewrite (flat_map_length_const _ _ 2) by reflexivity. lia.
Qed.

(** What a plan never contains: a listing target is for the planned
    subreddit and a listed type other than SEARCH, unsorted, and has a
    time filter only for TOP and CONTROVERSIAL, taken from the options;
    a search target needs SEARCH among the listing types and a query of
    the options; a timeline target is for a listed user, sorted by NEW;
    and no comments target is planned. *)
Theorem plan_targets_come_from_options sub o t :
  t ∈ expand_to_targets (build_plan sub o) ->
  match t with
  | SubmissionsTarget s l tf srt _ =>
      s = sub /\ l ∈ listing_types o /\ l <> L_SEARCH /\ srt = None
      /\ forall f, tf = Some f ->
           takes_time_filter l = true /\ f ∈ or_empty (time_filters o)
  | SearchTarget s q srt tf _ =>
      s = sub /\ L_SEARCH ∈ listing_types o /\ q ∈ or_empty (search_queries o)
      /\ srt = default S_NEW (search_sort o)
      /\ forall f, tf = Some f -> f ∈ or_empty (time_filters o)
  | UserTimelineTarget u _ srt _ => u ∈ or_empty (user_timelines o) /\ srt = S_NEW
  | CommentsTarget _ _ _ => False
  end.
Proof.
  unfold expand_to_targets. intros Ht.
  apply elem_of_build_plan in Ht as [(l & Hl & Ht)|[Ht|Ht]].
  - apply elem_of_listing_targets in Ht as (Hns & tf & -> & Htf).
    repeat (split; [done|]). intros f ->.
    destruct (takes_time_filter l); [|discriminate]. split; [reflexivity|].
    apply elem_of_tfs_or_none in Htf as [[_ ?]|(f' & [= ->] & Hf)]; [discriminate|done].
  - apply elem_of_search_targets in Ht as (Hs & q & tf & Hq & Htf & ->).
    repeat (split; [done|]). intros f ->.
    apply elem_of_tfs_or_none in Htf as [[_ ?]|(f' & [= ->] & Hf)]; [discriminate|done].
  - by apply elem_of_timeline_targets in Ht as (u & sf & Hu & ->).
Qed.

Lemma plan_targets_come_from_options_witness :
  let o := {| listing_types := [L_HOT; L_TOP]; time_filters := Some [DAY; WEEK];
              search_queries := None; search_sort := Some S_NEW;
              user_timelines := None; pagination_target := None;
              per_listing_limit := 100 |} in
  "bittensor_" = "bittensor_" /\ L_TOP ∈ listing_types o
  /\ L_TOP <> L_SEARCH /\ @None SortMode = None
  /\ forall f, Some WEEK = Some f ->
       takes_time_filter L_TOP = true /\ f ∈ or_empty (time_filters o).
Proof.
  apply (plan_targets_come_from_options "bittensor_"
           {| listing_types := [L_HOT; L_TOP]; time_filters := Some [DAY; WEEK];
              search_queries := None; search_sort := Some S_NEW;
              user_timelines := None; pagination_target := None;
              per_listing_limit := 100 |}
           (SubmissionsTarget "bittensor_" L_TOP (Some WEEK) None 100)).
  vm_compute. do 2 apply list_elem_of_further. apply list_elem_of_here.
Defined.

(** What a plan always contains: a target for every listed type other
    than SEARCH, with every time filter of the options for TOP and
    CONTROVERSIAL; when SEARCH is listed, a search target for every
    query and every time filter; and both surfaces of every listed
    user. *)
Theorem plan_covers_options sub o :
  let lim := per_listing_limit o in
  (forall l, l ∈ listing_types o -> l <> L_SEARCH ->
     exists tf, SubmissionsTarget sub l tf None lim ∈ build_plan sub o)
  /\ (forall l f, l ∈ listing_types o -> takes_time_filter l = true ->
        f ∈ or_empty (time_filters o) ->
        SubmissionsTarget sub l (Some f) None lim ∈ build_plan sub o)
  /\ (forall q f, L_SEARCH ∈ listing_types o -> q ∈ or_empty (search_queries o) ->
        f ∈ or_empty (time_filters o) ->
        SearchTarget sub q (default S_NEW (search_sort o)) (Some f) lim
          ∈ build_plan sub o)
  /\ (forall q, L_SEARCH ∈ listing_types o -> q ∈ or_empty (search_queries o) ->
        or_empty (time_filters o) = [] ->
        SearchTarget sub q (default S_NEW (search_sort o)) None lim ∈ build_plan sub o)
  /\ (forall u surface, u ∈ or_empty (user_timelines o) ->
        UserTimelineTarget u surface S_NEW lim ∈ build_plan sub o).
Proof.
  cbv zeta. split; [|split; [|split; [|split]]].
  - intros l Hl Hns.
    assert (Htf : exists tf, tf ∈ tfs_or_none o).
    { pose proof (tfs_or_none_length o) as Hlen.
      destruct (tfs_or_none o) as [|tf ?]; [cbn in Hlen; lia|].
      exists tf. apply list_elem_of_here. }
    destruct Htf as [tf Htf].
    exists (if takes_time_filter l then tf else None).
    apply elem_of_build_plan. left. exists l. split; [exact Hl|].
    apply elem_of_listing_targets. split; [exact Hns|].
    eexists. split; [reflexivity|]. by destruct (takes_time_filter l).
  - intros l f Hl Htk Hf. apply elem_of_build_plan. left. exists l.
    split; [exact Hl|]. apply elem_of_listing_targets.
    split; [by destruct l|]. exists (Some f). split; [reflexivity|].
    rewrite Htk. apply elem_of_tfs_or_none. right. by exists f.
  - intros q f Hs Hq Hf. apply elem_of_build_plan. right; left.
    apply elem_of_search_targets. split; [exact Hs|]. exists q, (Some f).
    split; [exact Hq|]. split; [|reflexivity].
    apply elem_of_tfs_or_none. right. by exists f.
  - intros q Hs Hq Hf. apply elem_of_build_plan. right; left.
    apply elem_of_search_targets. split; [exact Hs|]. exists q, None.
    split; [exact Hq|]. split; [|reflexivity].
    apply elem_of_tfs_or_none. by left.
  - intros u sf Hu. apply elem_of_build_plan. right; right.
    apply elem_of_timeline_targets. by exists u, sf.
Qed.

End PlannerFacts.
